(** * IM-SYAU-Core: the Bluetooth presence-tracking engine

    A shallow embedding of [utils/ble-utils.js] (staleness evaluation, object
    lookup, receiver ranking, display names), of the registry operations of
    [plugin/蓝牙.js] (load, ingest, sweep, repair, reset, statistics) and of
    the routes of [http/ble.js] and [http/kb.js] that read the registry,
    with the properties the specification states about them and further
    properties of the code.

    Conventions of the embedding.
    - A JavaScript string is the list of its UTF-16 code units.
    - A JavaScript number is an integer or NaN: registry numbers are epoch
      milliseconds and integer dBm readings.  Fractional and infinite doubles
      are outside the model, so [Number] reads integer literals only and
      number-to-string conversion prints plain decimal digits.
    - A JavaScript object used as a map is the list of its own properties in
      property order (array-index keys ascending, then the other keys in
      insertion order).  What it inherits from [Object.prototype] is in
      [inherits] and [obj_assign], see below.
    - The records of the persisted document (device, beacon, detection) and
      of a report are Rocq records with one [value] per field; an absent
      field reads [VUndef], as a property read does.
    - The data file is modelled by what [JSON.parse] reads from it; a write
      leaves there what [JSON.parse] reads back from the text
      [JSON.stringify] wrote.  Whether a write succeeds is an input.
    - A data file that parses is a registry document: an object whose
      [devices] and [beacons], when present, are maps of records.  JSON text
      of any other shape ([null], a number, a map with a [null] entry) has no
      term, so nothing is stated here about what the code does with it; nor
      has a record with a [__proto__] field of its own.
    - Objects inherit from [Object.prototype] as the host starts it.  A read
      [o[k]] that finds no own property finds the inherited member when [k]
      names one, and an assignment to [__proto__] sets the prototype instead
      of a property.  A map that [decodeObject] builds from a document with
      an own [__proto__] key loses that entry and gets it as prototype; the
      model drops the entry and does not follow the new prototype, so what
      depends on reads from a loaded map is stated for documents without
      such a key.
    - [Object.prototype] is the host's own at the start of every call.  The
      one place where the engine changes it is not tracked: a report whose
      address is [__proto__] with a truthy name sets [name] on
      [Object.prototype] before the handler throws.
    - A value read as a number or as a string is converted by the [valueOf]
      and [toString] of [Object.prototype]; an object with an own property
      of one of these names is outside the model.
    - The host's local-time arithmetic and locale formatting are parameters
      of the engine.
    - An exception is a [Throw] in the error monad [exn]. *)

From Stdlib Require Import ZArith NArith List Bool Lia String Ascii.
From Stdlib Require Import Permutation Sorted DecimalString.
Import ListNotations.
Open Scope Z_scope.
Set Warnings "-register-all".

(** ** The JavaScript values the engine handles *)
Module JS.

Definition jsstring := list N.

(** A string literal of the source, as code units. *)
Definition u (s : string) : jsstring :=
  map N_of_ascii (list_ascii_of_string s).

Fixpoint str_eqb (a b : jsstring) : bool :=
  match a, b with
  | [], [] => true
  | x :: a', y :: b' => N.eqb x y && str_eqb a' b'
  | _, _ => false
  end.

Inductive num := NaN | Num (z : Z).

Inductive value :=
| VUndef
| VNull
| VBool (b : bool)
| VNum (n : num)
| VStr (s : jsstring)
| VArr (items : list value)
| VObj (props : list (jsstring * value)).

Inductive error := TypeError | SyntaxError | IOError.

Inductive exn (A : Type) :=
| Ok (a : A)
| Throw (e : error).
Arguments Ok {A} a.
Arguments Throw {A} e.

Definition bind {A B} (m : exn A) (k : A -> exn B) : exn B :=
  match m with
  | Ok a => k a
  | Throw e => Throw e
  end.

(** [try { body } catch { handler }] *)
Definition try_catch {A} (body : exn A) (handler : error -> A) : A :=
  match body with
  | Ok a => a
  | Throw e => handler e
  end.

(** ToBoolean *)
Definition truthy (v : value) : bool :=
  match v with
  | VUndef | VNull => false
  | VBool b => b
  | VNum NaN => false
  | VNum (Num z) => negb (z =? 0)
  | VStr s => match s with [] => false | _ => true end
  | VArr _ | VObj _ => true
  end.

(** [v == null] *)
Definition nullish (v : value) : bool :=
  match v with
  | VUndef | VNull => true
  | _ => false
  end.

(** [typeof v === 'object'] *)
Definition typeof_object (v : value) : bool :=
  match v with
  | VNull | VArr _ | VObj _ => true
  | _ => false
  end.

(** [a || b] *)
Definition js_or (a b : value) : value := if truthy a then a else b.

(** [a ?? b] *)
Definition js_coalesce (a b : value) : value := if nullish a then b else a.

(** *** Numbers and strings *)

Definition is_digit (c : N) : bool := (48 <=? c)%N && (c <=? 57)%N.

Definition digits_value (s : jsstring) : Z :=
  fold_left (fun acc c => 10 * acc + (Z.of_N c - 48)) s 0.

(** WhiteSpace and LineTerminator code units, as StringToNumber trims them. *)
Definition is_space (c : N) : bool :=
  existsb (N.eqb c)
    [9; 10; 11; 12; 13; 32; 160; 5760; 8192; 8193; 8194; 8195; 8196; 8197;
     8198; 8199; 8200; 8201; 8202; 8232; 8233; 8239; 8287; 12288; 65279]%N.

Fixpoint trim_start (s : jsstring) : jsstring :=
  match s with
  | c :: s' => if is_space c then trim_start s' else s
  | [] => []
  end.

Definition trim (s : jsstring) : jsstring :=
  rev (trim_start (rev (trim_start s))).

Definition unsigned_literal (s : jsstring) : num :=
  match s with
  | [] => NaN
  | _ => if forallb is_digit s then Num (digits_value s) else NaN
  end.

(** [Number(s)] on a string: the empty (or blank) string is 0, a decimal
    integer literal with an optional sign is its value, anything else NaN. *)
Definition Number_of_string (s : jsstring) : num :=
  match trim s with
  | [] => Num 0
  | 43%N :: ds => unsigned_literal ds
  | 45%N :: ds => match unsigned_literal ds with
                  | Num z => Num (- z)
                  | NaN => NaN
                  end
  | ds => unsigned_literal ds
  end.

Definition string_of_Z (z : Z) : jsstring :=
  u (NilZero.string_of_int (Z.to_int z)).

Definition join (sep : jsstring) (parts : list jsstring) : jsstring :=
  match parts with
  | [] => []
  | p :: ps => fold_left (fun acc q => acc ++ sep ++ q) ps p
  end.

(** ToString; an array prints as [join(",")] does, an object as
    [[object Object]]. *)
Fixpoint ToString (v : value) : jsstring :=
  match v with
  | VUndef => u "undefined"
  | VNull => u "null"
  | VBool true => u "true"
  | VBool false => u "false"
  | VNum NaN => u "NaN"
  | VNum (Num z) => string_of_Z z
  | VStr s => s
  | VArr items =>
      join (u ",")
        (map (fun x => if nullish x then [] else ToString x) items)
  | VObj _ => u "[object Object]"
  end.

(** ToNumber *)
Definition ToNumber (v : value) : num :=
  match v with
  | VUndef => NaN
  | VNull => Num 0
  | VBool true => Num 1
  | VBool false => Num 0
  | VNum n => n
  | VStr s => Number_of_string s
  | VArr _ | VObj _ => Number_of_string (ToString v)
  end.

(** [a - b] *)
Definition js_sub (a b : value) : num :=
  match ToNumber a, ToNumber b with
  | Num x, Num y => Num (x - y)
  | _, _ => NaN
  end.

(** [a > b] and [a <= b] on numbers: false as soon as one side is NaN. *)
Definition js_gt (a b : num) : bool :=
  match a, b with
  | Num x, Num y => y <? x
  | _, _ => false
  end.

Definition js_le (a b : num) : bool :=
  match a, b with
  | Num x, Num y => x <=? y
  | _, _ => false
  end.

(** [s.split(sep)] for a one-unit separator. *)
Fixpoint split_on (sep : N) (s : jsstring) : list jsstring :=
  match s with
  | [] => [[]]
  | c :: s' =>
      if N.eqb c sep then [] :: split_on sep s'
      else match split_on sep s' with
           | w :: ws => (c :: w) :: ws
           | [] => [[c]]
           end
  end.

(** [v.split(sep)] on an arbitrary value: only a string has the method. *)
Definition split_method (v : value) (sep : N) : exn (list jsstring) :=
  match v with
  | VStr s => Ok (split_on sep s)
  | _ => Throw TypeError
  end.

(** Array destructuring [[a, b, c] = parts]: a missing element is
    [undefined]. *)
Definition item {A} (inj : A -> value) (parts : list A) (i : nat) : value :=
  match nth_error parts i with
  | Some p => inj p
  | None => VUndef
  end.

(** [v.key] for the keys the engine reads off a signal-strength value. *)
Definition get_prop (v : value) (key : jsstring) : exn value :=
  match v with
  | VUndef | VNull => Throw TypeError
  | VObj props =>
      match find (fun p => str_eqb (fst p) key) props with
      | Some p => Ok (snd p)
      | None => Ok VUndef
      end
  | _ => Ok VUndef
  end.

(** *** Objects used as maps *)

Definition obj (A : Type) := list (jsstring * A).

(** The array index a key denotes, if it is the canonical decimal form of an
    integer below 2^32 - 1. *)
Definition array_index (k : jsstring) : option N :=
  match k with
  | [] => None
  | [48%N] => Some 0%N
  | 48%N :: _ => None
  | _ =>
      if forallb is_digit k
      then let n := Z.to_N (digits_value k) in
           if (n <? 4294967295)%N then Some n else None
      else None
  end.

(** Whether a new key [k] is enumerated before the existing key [k']. *)
Definition key_before (k k' : jsstring) : bool :=
  match array_index k, array_index k' with
  | Some n, Some n' => (n <? n')%N
  | Some _, None => true
  | None, _ => false
  end.

(** The key whose assignment sets the prototype of an object. *)
Definition proto_key : jsstring := u "__proto__".

(** The methods of [Object.prototype]: with [__proto__], the names a read
    finds on an object that has no own property of that name. *)
Definition prototype_methods : list jsstring :=
  [u "constructor"; u "__defineGetter__"; u "__defineSetter__";
   u "hasOwnProperty"; u "__lookupGetter__"; u "__lookupSetter__";
   u "isPrototypeOf"; u "propertyIsEnumerable"; u "toString"; u "valueOf";
   u "toLocaleString"].

Definition inherits (k : jsstring) : bool :=
  str_eqb k proto_key || existsb (str_eqb k) prototype_methods.

Section Obj.
Context {A : Type}.

Fixpoint obj_get (o : obj A) (k : jsstring) : option A :=
  match o with
  | [] => None
  | (k', v) :: o' => if str_eqb k' k then Some v else obj_get o' k
  end.

Definition obj_has (o : obj A) (k : jsstring) : bool :=
  match obj_get o k with
  | Some _ => true
  | None => false
  end.

Fixpoint obj_replace (o : obj A) (k : jsstring) (v : A) : obj A :=
  match o with
  | [] => []
  | (k', v') :: o' =>
      if str_eqb k' k then (k', v) :: o' else (k', v') :: obj_replace o' k v
  end.

Fixpoint obj_add (o : obj A) (k : jsstring) (v : A) : obj A :=
  match o with
  | [] => [(k, v)]
  | (k', v') :: o' =>
      if key_before k k' then (k, v) :: o else (k', v') :: obj_add o' k v
  end.

(** The own property [k] of [o] set to [v]: an existing property keeps its
    place, a new one is added in property order. *)
Definition obj_set (o : obj A) (k : jsstring) (v : A) : obj A :=
  if obj_has o k then obj_replace o k v else obj_add o k v.

(** [o[k] = v] on an object that inherits from [Object.prototype].
    Assigning to [__proto__] when [o] has no own property of that name
    calls the inherited setter: no own property is defined (the prototype
    of [o] is replaced when [v] is an object).  No handler reads a property
    through [o] after such an assignment, so the model does not record the
    new prototype. *)
Definition obj_assign (o : obj A) (k : jsstring) (v : A) : obj A :=
  if str_eqb k proto_key && negb (obj_has o k) then o else obj_set o k v.

(** [delete o[k]] *)
Definition obj_delete (o : obj A) (k : jsstring) : obj A :=
  filter (fun p => negb (str_eqb (fst p) k)) o.

Definition obj_keys (o : obj A) : list jsstring := map fst o.

End Obj.

(** [Array.prototype.sort(cmp)]: the sort is stable, and a comparator result
    of NaN counts as 0.  For a consistent comparator the result is the one
    ordering ECMAScript allows; insertion is how it is computed here.  For
    a comparator that is NaN on some pairs only the order is the host's
    own, so nothing about order is stated for such inputs beyond the sample
    [mixed_beacon], which the host leaves in place. *)
Section Sort.
Context {A : Type}.
Variable cmp : A -> A -> num.

Definition goes_before (a b : A) : bool :=
  match cmp a b with
  | Num z => z <=? 0
  | NaN => true
  end.

Fixpoint sort_insert (x : A) (l : list A) : list A :=
  match l with
  | [] => [x]
  | y :: l' => if goes_before x y then x :: l else y :: sort_insert x l'
  end.

Fixpoint Array_sort (l : list A) : list A :=
  match l with
  | [] => []
  | x :: l' => sort_insert x (Array_sort l')
  end.

End Sort.

End JS.
Import JS.

Notation "x <- m ;; k" := (bind m (fun x => k))
  (at level 61, m at next level, right associativity).

(** ** The persisted document and the reports *)

(** [devices[id]]: one receiver. *)
Module Device.
Record t := mk {
  name : value;
  type : value;
  update : value;
  batch : value;
  total_batches : value
}.
End Device.

(** [beacons[mac].detections[id]]: one receiver's latest observation of one
    object.  [receiver] and [last_update] are the fields of the older export
    format that [ble-utils.js] still reads. *)
Module Detection.
Record t := mk {
  receiver_name : value;
  receiver : value;
  online : value;
  rssi : value;
  last_seen : value;
  update_time : value;
  last_update : value
}.
End Detection.

(** [beacons[mac]]: one tracked object. *)
Module Beacon.
Record t := mk {
  name : value;
  first_seen : value;
  detections : option (obj Detection.t)
}.
End Beacon.

(** The root object [JSON.parse] returns for the data file. *)
Module Document.
Record t := mk {
  devices : option (obj Device.t);
  beacons : option (obj Beacon.t)
}.
End Document.

(** The root object after [loadData] has filled in both maps. *)
Module Registry.
Record t := mk {
  devices : obj Device.t;
  beacons : obj Beacon.t
}.
End Registry.

(** One element of the array [getValidReceivers] returns. *)
Module Receiver.
Record t := mk {
  deviceId : jsstring;
  name : value;
  rssi : value;
  online : value;
  lastUpdateTime : value;
  last_update : jsstring
}.
End Receiver.

(** One entry of a report's [beacons] array. *)
Module BeaconReport.
Record t := mk {
  mac : value;
  name : value;
  rssi : value;
  online : value
}.
End BeaconReport.

(** [e.event_data] *)
Module EventData.
Record t := mk {
  beacons : option (list BeaconReport.t);
  batch : value;
  total_batches : value
}.
End EventData.

(** The event [handleBLEData] receives. *)
Module Event.
Record t := mk {
  device_id : value;
  device_name : value;
  device_type : value;
  event_data : option EventData.t
}.
End Event.

(** The data file: absent, or text that is not JSON, or the document its
    text parses to. *)
Inductive content :=
| Text (raw : jsstring)
| Json (doc : Document.t).

Definition file := option content.

(** ** ble-utils.js *)

(** The default of the [threshold] parameter of [isDetectionStale] and
    [getValidReceivers]; the embedding takes the threshold explicitly. *)
Definition STALE_TIME_THRESHOLD : Z := 15000.

Definition ACTIVE_WINDOW : Z := 10000.

Definition is_hex (c : N) : bool :=
  is_digit c || ((65 <=? c)%N && (c <=? 70)%N) || ((97 <=? c)%N && (c <=? 102)%N).

Definition hex_value (c : N) : N :=
  if is_digit c then (c - 48)%N
  else if (c <=? 70)%N then (c - 55)%N
  else (c - 87)%N.

(** [str.replace(/\\u[\dA-F]{4}/gi, ...)]: the pattern is case-insensitive,
    so it also matches an upper-case [U]; the callback strips a lower-case
    [\u] only, and [parseInt] of what is left is then NaN, code unit 0. *)
Fixpoint decode_units (s : jsstring) : jsstring :=
  match s with
  | [] => []
  | c :: rest =>
      match rest with
      | m :: h1 :: h2 :: h3 :: h4 :: rest' =>
          if N.eqb c 92 && (N.eqb m 117 || N.eqb m 85)
             && is_hex h1 && is_hex h2 && is_hex h3 && is_hex h4
          then (if N.eqb m 117
                then (((hex_value h1 * 16 + hex_value h2) * 16
                       + hex_value h3) * 16 + hex_value h4)%N
                else 0%N) :: decode_units rest'
          else c :: decode_units rest
      | _ => c :: decode_units rest
      end
  end.

Definition decodeUnicode (str : value) : value :=
  match str with
  | VStr s => if truthy str then VStr (decode_units s) else str
  | _ => str
  end.

(** ** A sample host

    A host in the UTC time zone, for evaluating the engine on concrete
    inputs: ECMAScript's MakeDay, MakeTime and TimeClip with a zero offset. *)

Definition days_from_civil (y m d : Z) : Z :=
  let y' := if m <=? 2 then y - 1 else y in
  let era := y' / 400 in
  let yoe := y' - era * 400 in
  let doy := (153 * (m + (if 2 <? m then -3 else 9)) + 2) / 5 + d - 1 in
  let doe := yoe * 365 + yoe / 4 - yoe / 100 + doy in
  era * 146097 + doe - 719468.

Definition utc_LocalTime (year month day hour minute second : Z) : num :=
  let yr := if (0 <=? year) && (year <=? 99) then 1900 + year else year in
  let ym := yr + month / 12 in
  let mn := month mod 12 in
  let days := days_from_civil ym (mn + 1) 1 + day - 1 in
  let t := days * 86400000 + hour * 3600000 + minute * 60000 + second * 1000 in
  if Z.abs t <=? 8640000000000000 then Num t else NaN.

(** A host that prints a time value as [ToString] does. *)
Definition plain_toLocaleString (t : value) : jsstring := ToString t.

(** ** Sample inputs

    Scenario A of the specification: receiver R1 reports the object AA:BB,
    named X, at -55 dBm; receiver R2 reports it at -70 dBm. *)

Definition sample_report (receiver : string) (beacons : list BeaconReport.t)
  : Event.t :=
  Event.mk (VStr (u receiver)) VUndef VUndef
    (Some (EventData.mk (Some beacons) VUndef VUndef)).

Definition report_R1 : Event.t :=
  sample_report "R1"
    [BeaconReport.mk (VStr (u "AA:BB")) (VStr (u "X")) (VNum (Num (-55)))
       (VBool true)].

Definition report_R2 : Event.t :=
  sample_report "R2"
    [BeaconReport.mk (VStr (u "AA:BB")) VUndef (VNum (Num (-70)))
       (VBool true)].

(** A report that names its receiver and lists no object. *)
Definition report_empty : Event.t := sample_report "R1" [].

(** A report whose signal strength is a structure with both readings. *)
Definition entry_structured : BeaconReport.t :=
  BeaconReport.mk (VStr (u "AA:BB")) (VStr (u "X"))
    (VObj [(u "average", VNum (Num (-60))); (u "current", VNum (Num (-58)))])
    (VBool true).

Definition report_structured : Event.t :=
  sample_report "R1" [entry_structured].

(** A report whose signal strength is a structure with neither reading. *)
Definition report_bare : Event.t :=
  sample_report "R1"
    [BeaconReport.mk (VStr (u "AA:BB")) (VStr (u "X")) (VObj []) (VBool true)].

(** A report whose structure carries two readings of 0 dBm. *)
Definition report_zero : Event.t :=
  sample_report "R1"
    [BeaconReport.mk (VStr (u "AA:BB")) (VStr (u "X"))
       (VObj [(u "average", VNum (Num 0)); (u "current", VNum (Num 0))])
       (VBool true)].

Definition sample_detection (receiver : string) (rssi : value) (t : Z)
  : Detection.t :=
  Detection.mk (VStr (u receiver)) VUndef (VBool true) rssi
    (VNum (Num t)) (VNum (Num t)) VUndef.

Definition detection_R1 : Detection.t :=
  sample_detection "R1" (VNum (Num (-55))) 1000.

Definition detection_R2 : Detection.t :=
  sample_detection "R2" (VNum (Num (-70))) 1500.

Definition sample_beacon : Beacon.t :=
  Beacon.mk (VStr (u "X")) (VNum (Num 1000))
    (Some [(u "R1", detection_R1); (u "R2", detection_R2)]).

Definition device_R1 : Device.t :=
  Device.mk (VStr (u "R1")) (VStr (u "ESP32")) (VNum (Num 1000))
    (VNum (Num 1)) (VNum (Num 1)).

Definition device_R2 : Device.t :=
  Device.mk (VStr (u "R2")) (VStr (u "ESP32")) (VNum (Num 1500))
    (VNum (Num 1)) (VNum (Num 1)).

Definition sample_registry : Registry.t :=
  Registry.mk [(u "R1", device_R1); (u "R2", device_R2)]
    [(u "AA:BB", sample_beacon)].

(** An object seen by R1 with no recorded strength and by R2 at -120 dBm. *)
Definition detection_unrated : Detection.t :=
  Detection.mk (VStr (u "R1")) VUndef (VBool true) VUndef
    (VNum (Num 1000)) (VNum (Num 1000)) VUndef.

Definition faint_beacon : Beacon.t :=
  Beacon.mk (VStr (u "X")) (VNum (Num 1000))
    (Some [(u "R1", detection_unrated);
           (u "R2", sample_detection "R2" (VNum (Num (-120))) 1500)]).

(** Two objects, the first of them named as the second's address. *)
Definition shadow_document : Document.t :=
  Document.mk (Some [])
    (Some [(u "11:11", Beacon.mk (VStr (u "22:22")) (VNum (Num 1000)) (Some []));
           (u "22:22", Beacon.mk (VStr (u "Y")) (VNum (Num 1000)) (Some []))]).

(** The data file that holds the sample registry. *)
Definition sample_document : Document.t :=
  Document.mk (Some (Registry.devices sample_registry))
    (Some (Registry.beacons sample_registry)).

(** A detection of the older export format. *)
Definition detection_legacy : Detection.t :=
  Detection.mk VUndef (VStr (u "R1")) (VBool true) (VNum (Num (-55)))
    VUndef VUndef (VStr (u "2025/11/7 20:32:15")).

(** A file with one ESP-C3 tag, heard by R1. *)
Definition esp_document : Document.t :=
  Document.mk (Some [])
    (Some [(u "C3:01",
            Beacon.mk (VStr (u "ESP-C3-7")) (VNum (Num 1000))
              (Some [(u "R1", detection_R1)]))]).

(** An object heard at -70 dBm, then with a structure stored as its signal
    strength, then at -50 dBm, each time at t=1000. *)
Definition mixed_beacon : Beacon.t :=
  Beacon.mk (VStr (u "X")) (VNum (Num 1000))
    (Some [(u "R1", sample_detection "R1" (VNum (Num (-70))) 1000);
           (u "R2", sample_detection "R2" (VObj []) 1000);
           (u "R3", sample_detection "R3" (VNum (Num (-50))) 1000)]).



(** A report by a receiver that calls itself [__proto__], and one about an
    object whose address is [constructor]. *)
Definition report_proto_receiver : Event.t :=
  sample_report "__proto__"
    [BeaconReport.mk (VStr (u "AA:BB")) (VStr (u "X")) (VNum (Num (-55)))
       (VBool true)].

Definition report_constructor : Event.t :=
  sample_report "R1"
    [BeaconReport.mk (VStr (u "constructor")) (VStr (u "X")) (VNum (Num (-55)))
       (VBool true)].

(** ** The answers of the HTTP routes (http/ble.js, http/kb.js) *)

(** One detection in the answer of [GET /api/ble/data]. *)
Module DetectionView.
Record t := mk {
  receiver : value;
  rssi : value;
  online : value;
  last_update : jsstring
}.
End DetectionView.

(** One beacon in the answer of [GET /api/ble/data]. *)
Module BeaconView.
Record t := mk {
  name : value;
  first_seen : value;
  detections : obj DetectionView.t
}.
End BeaconView.

(** The body of the answer of [GET /api/ble/data]. *)
Module DataPayload.
Record t := mk {
  devices : obj Device.t;
  beacons : obj BeaconView.t;
  message : option jsstring;
  timestamp : option Z
}.
End DataPayload.

(** One receiver in the answer of [GET /api/ble/beacon/:beaconMac/receivers]. *)
Module ReceiverView.
Record t := mk {
  receiverId : jsstring;
  receiver : value;
  rssi : value;
  online : value;
  last_update : jsstring;
  lastUpdateTime : value
}.
End ReceiverView.

Module BleReceivers.
Record t := mk {
  beaconId : value;
  beaconMac : jsstring;
  displayName : value;
  receivers : list ReceiverView.t;
  timestamp : Z
}.
End BleReceivers.

(** One receiver in the answer of [GET /api/kb/beacon/:beaconId/receivers]. *)
Module VisitorReceiver.
Record t := mk {
  deviceId : jsstring;
  name : value;
  rssi : value;
  online : value;
  lastSeen : value;
  timeDiff : num;
  last_update : jsstring
}.
End VisitorReceiver.

Module KbReceivers.
Record t := mk {
  beaconId : value;
  mac : jsstring;
  receivers : list VisitorReceiver.t;
  timestamp : Z
}.
End KbReceivers.

(** One element of the answer of [GET /api/ble/esp-c3-beacons]. *)
Module EspBeacon.
Record t := mk {
  mac : jsstring;
  name : value;
  displayName : value;
  detections : obj DetectionView.t;
  first_seen : value
}.
End EspBeacon.

Module EspPayload.
Record t := mk {
  data : list EspBeacon.t;
  message : option jsstring;
  timestamp : option Z
}.
End EspPayload.

(** The [status] object of [GET /api/ble/status]. *)
Module Status.
Record t := mk {
  receivers_total : nat;
  receivers_active : nat;
  beacons_total : nat;
  beacons_active : nat;
  active_window : Z;
  timestamp : Z
}.
End Status.

(** The counters [showStatistics] computes before it builds its message. *)
Module Statistics.
Record t := mk {
  totalReceivers : nat;
  activeReceivers : nat;
  totalBeacons : nat;
  activeBeacons : nat;
  multiReceiverBeacons : nat;
  singleReceiverBeacons : nat;
  rssiValues : list value
}.
End Statistics.

(** What a route handler hands to the response: a JSON body, or one of the
    [HttpResponse] helpers. *)
Inductive answer (A : Type) :=
| Reply (body : A)
| NotFound (message : jsstring)
| Forbidden (message : jsstring).
Arguments Reply {A} body.
Arguments NotFound {A} message.
Arguments Forbidden {A} message.

(** The texts of the source, as code units. *)

(** 未知信标 *)
Definition unknown_beacon : jsstring := [26410; 30693; 20449; 26631]%N.

(** 号信标 *)
Definition display_suffix : jsstring := [21495; 20449; 26631]%N.

(** 暂无数据 *)
Definition msg_no_data : jsstring := [26242; 26080; 25968; 25454]%N.

(** 数据文件不存在 *)
Definition msg_no_file : jsstring :=
  [25968; 25454; 25991; 20214; 19981; 23384; 22312]%N.

(** 未找到指定信标 *)
Definition msg_beacon_not_found : jsstring :=
  [26410; 25214; 21040; 25351; 23450; 20449; 26631]%N.

(** 蓝牙数据文件不存在 *)
Definition msg_ble_file_missing : jsstring :=
  [34013; 29273; 25968; 25454; 25991; 20214; 19981; 23384; 22312]%N.

(** 未授权 *)
Definition msg_forbidden : jsstring := [26410; 25480; 26435]%N.

Section Engine.

(** The host's clock arithmetic: [new Date(y, m, d, h, mi, s).getTime()] in
    the local time zone, for finite components. *)
Variable LocalTime : Z -> Z -> Z -> Z -> Z -> Z -> num.

(** [new Date(t).toLocaleString('zh-CN')] *)
Variable toLocaleString : value -> jsstring.

Definition Date_getTime (year month day hour minute second : num) : num :=
  match year, month, day, hour, minute, second with
  | Num y, Num mo, Num d, Num h, Num mi, Num s => LocalTime y mo d h mi s
  | _, _, _, _, _, _ => NaN
  end.

Definition parseDetectionTime (detection : option Detection.t) : value :=
  match detection with
  | None => VNull
  | Some d =>
      if truthy (Detection.update_time d) then Detection.update_time d
      else if negb (truthy (Detection.last_update d)) then VNull
      else
        try_catch
          (parts <- split_method (Detection.last_update d) 32;;
           let datePart := item VStr parts 0 in
           let timePart := item VStr parts 1 in
           dateNums <- split_method datePart 47;;
           let ymd := map Number_of_string dateNums in
           let year := item VNum ymd 0 in
           let month := item VNum ymd 1 in
           let day := item VNum ymd 2 in
           timeNums <- split_method timePart 58;;
           let hms := map Number_of_string timeNums in
           let hour := item VNum hms 0 in
           let minute := item VNum hms 1 in
           let second := item VNum hms 2 in
           Ok (VNum (Date_getTime (ToNumber year)
                       (js_sub month (VNum (Num 1)))
                       (ToNumber day) (ToNumber hour)
                       (ToNumber minute) (ToNumber second))))
          (fun _ => VNull)
  end.

Definition isDetectionStale (detection : option Detection.t)
    (now threshold : Z) : bool :=
  let lastUpdateTime := parseDetectionTime detection in
  if nullish lastUpdateTime then true
  else js_gt (js_sub (VNum (Num now)) lastUpdateTime) (Num threshold).

(** [beacon.name === beaconId], [beaconId] a string. *)
Definition strict_eq_string (v : value) (s : jsstring) : bool :=
  match v with
  | VStr s' => str_eqb s' s
  | _ => false
  end.

Fixpoint findBeacon_loop (entries : obj Beacon.t) (beaconId : jsstring)
  : option (Beacon.t * jsstring) :=
  match entries with
  | [] => None
  | (mac, beacon) :: rest =>
      if strict_eq_string (Beacon.name beacon) beaconId || str_eqb mac beaconId
      then Some (beacon, mac)
      else findBeacon_loop rest beaconId
  end.

(** [None] is the [null] the source returns. *)
Definition findBeacon (data : option Document.t) (beaconId : jsstring)
  : option (Beacon.t * jsstring) :=
  match data with
  | None => None
  | Some d =>
      match Document.beacons d with
      | None => None
      | Some beacons => findBeacon_loop beacons beaconId
      end
  end.

(** The object pushed for one detection that passed the test. *)
Definition receiver_of (deviceId : jsstring) (detection : Detection.t)
    (lastUpdateTime : value) : Receiver.t :=
  Receiver.mk deviceId
    (decodeUnicode
       (js_or (Detection.receiver_name detection) (Detection.receiver detection)))
    (js_coalesce (Detection.rssi detection) (VNum (Num (-100))))
    (js_or (Detection.online detection) (VBool false))
    lastUpdateTime
    (toLocaleString lastUpdateTime).

(** [beacon?.detections || {}] *)
Definition detections_of (beacon : option Beacon.t) : obj Detection.t :=
  match beacon with
  | Some b => match Beacon.detections b with
              | Some ds => ds
              | None => []
              end
  | None => []
  end.

Definition getValidReceivers (beacon : option Beacon.t) (now threshold : Z)
  : list Receiver.t :=
  let detections := detections_of beacon in
  let receivers :=
    fold_left
      (fun receivers entry =>
         let '(deviceId, detection) := entry in
         let lastUpdateTime := parseDetectionTime (Some detection) in
         if nullish lastUpdateTime then receivers
         else
           let timeSinceUpdate := js_sub (VNum (Num now)) lastUpdateTime in
           if js_le timeSinceUpdate (Num threshold)
           then receivers ++ [receiver_of deviceId detection lastUpdateTime]
           else receivers)
      detections [] in
  Array_sort (fun a b => js_sub (Receiver.rssi b) (Receiver.rssi a)) receivers.

(** ** plugin/蓝牙.js *)

(** [decodeObject]: every string inside a value is decoded, keys are not.
    The object branch assigns each own entry to a new object, so an entry
    under [__proto__] is not a property of the result. *)
Fixpoint decodeObject (v : value) : value :=
  match v with
  | VStr _ => decodeUnicode v
  | VArr items => VArr (map decodeObject items)
  | VObj props =>
      VObj ((fix assign (ps : list (jsstring * value)) :=
               match ps with
               | [] => []
               | (k, x) :: ps' =>
                   if str_eqb k proto_key then assign ps'
                   else (k, decodeObject x) :: assign ps'
               end) props)
  | _ => v
  end.

Definition decodeDevice (d : Device.t) : Device.t :=
  Device.mk (decodeObject (Device.name d)) (decodeObject (Device.type d))
    (decodeObject (Device.update d)) (decodeObject (Device.batch d))
    (decodeObject (Device.total_batches d)).

Definition decodeDetection (d : Detection.t) : Detection.t :=
  Detection.mk (decodeObject (Detection.receiver_name d))
    (decodeObject (Detection.receiver d)) (decodeObject (Detection.online d))
    (decodeObject (Detection.rssi d)) (decodeObject (Detection.last_seen d))
    (decodeObject (Detection.update_time d))
    (decodeObject (Detection.last_update d)).

Definition map_values {A B} (f : A -> B) (o : obj A) : obj B :=
  map (fun p => (fst p, f (snd p))) o.

(** The object branch of [decodeObject] on a map of records. *)
Definition decode_map {A B} (f : A -> B) (o : obj A) : obj B :=
  map_values f (filter (fun p => negb (str_eqb (fst p) proto_key)) o).

Definition decodeBeacon (b : Beacon.t) : Beacon.t :=
  Beacon.mk (decodeObject (Beacon.name b)) (decodeObject (Beacon.first_seen b))
    (option_map (decode_map decodeDetection) (Beacon.detections b)).

Definition decodeDocument (d : Document.t) : Document.t :=
  Document.mk (option_map (decode_map decodeDevice) (Document.devices d))
    (option_map (decode_map decodeBeacon) (Document.beacons d)).

(** What [JSON.parse] reads back from [JSON.stringify(v)] for a property
    value [v]: NaN is written as null, an undefined array element as null,
    an undefined property is left out (so [VUndef] stays [VUndef]). *)
Fixpoint jsonify (v : value) : value :=
  match v with
  | VNum NaN => VNull
  | VArr items =>
      VArr (map (fun x => match x with
                          | VUndef => VNull
                          | _ => jsonify x
                          end) items)
  | VObj props =>
      VObj ((fix keep (ps : list (jsstring * value)) :=
               match ps with
               | [] => []
               | (k, x) :: ps' =>
                   match x with
                   | VUndef => keep ps'
                   | _ => (k, jsonify x) :: keep ps'
                   end
               end) props)
  | _ => v
  end.

Definition jsonDevice (d : Device.t) : Device.t :=
  Device.mk (jsonify (Device.name d)) (jsonify (Device.type d))
    (jsonify (Device.update d)) (jsonify (Device.batch d))
    (jsonify (Device.total_batches d)).

Definition jsonDetection (d : Detection.t) : Detection.t :=
  Detection.mk (jsonify (Detection.receiver_name d))
    (jsonify (Detection.receiver d)) (jsonify (Detection.online d))
    (jsonify (Detection.rssi d)) (jsonify (Detection.last_seen d))
    (jsonify (Detection.update_time d)) (jsonify (Detection.last_update d)).

Definition jsonBeacon (b : Beacon.t) : Beacon.t :=
  Beacon.mk (jsonify (Beacon.name b)) (jsonify (Beacon.first_seen b))
    (option_map (map_values jsonDetection) (Beacon.detections b)).

(** The document the file holds after [JSON.stringify(data, null, 2)] was
    written to it. *)
Definition JSON_stringify (data : Registry.t) : content :=
  Json (Document.mk (Some (map_values jsonDevice (Registry.devices data)))
          (Some (map_values jsonBeacon (Registry.beacons data)))).

(** [fs.readFile]: rejects when the file is absent. *)
Definition readFile (f : file) : exn content :=
  match f with
  | Some c => Ok c
  | None => Throw IOError
  end.

Definition JSON_parse (c : content) : exn Document.t :=
  match c with
  | Json d => Ok d
  | Text _ => Throw SyntaxError
  end.

Definition emptyRegistry : Registry.t := Registry.mk [] [].

Definition loadData (f : file) : exn Registry.t :=
  Ok (try_catch
        (content <- readFile f;;
         data <- JSON_parse content;;
         let decoded := decodeDocument data in
         Ok (Registry.mk
               (match Document.devices decoded with
                | Some devices => devices
                | None => []
                end)
               (match Document.beacons decoded with
                | Some beacons => beacons
                | None => []
                end)))
        (fun _ => emptyRegistry)).

(** [saveData]: the new file and the boolean returned; [disk_ok] says whether
    [fs.writeFile] succeeds. *)
Definition saveData (f : file) (data : Registry.t) (disk_ok : bool)
  : file * bool :=
  try_catch
    (if disk_ok then Ok (Some (JSON_stringify data), true)
     else Throw IOError)
    (fun _ => (f, false)).

(** Lines 158-161: the signal strength that is stored. *)
Definition rssiValue_of (rssi : value) : exn value :=
  if typeof_object rssi then
    average <- get_prop rssi (u "average");;
    if truthy average then Ok average
    else
      current <- get_prop rssi (u "current");;
      if truthy current then Ok current else Ok rssi
  else Ok rssi.

Definition set_beacons (data : Registry.t) (beacons : obj Beacon.t)
  : Registry.t :=
  Registry.mk (Registry.devices data) beacons.

(** The object written to [detections[deviceId]] (lines 163-169). *)
Definition new_detection (e : Event.t) (now : Z) (beacon : BeaconReport.t)
    (rssiValue : value) : Detection.t :=
  Detection.mk (js_or (Event.device_name e) (Event.device_id e))
    VUndef
    (BeaconReport.online beacon)
    rssiValue
    (VNum (Num now))
    (VNum (Num now))
    VUndef.

(** Lines 146-152: a beacon seen for the first time is created.  The read
    [data.beacons[mac]] finds an own entry, or the member every object
    inherits under that name, which is truthy, or nothing. *)
Definition ensure_beacon (now : Z) (beacon : BeaconReport.t) (mac : jsstring)
    (data : Registry.t) : Registry.t :=
  match obj_get (Registry.beacons data) mac with
  | Some _ => data
  | None =>
      if inherits mac then data
      else
        set_beacons data
          (obj_assign (Registry.beacons data) mac
             (Beacon.mk (BeaconReport.name beacon) (VNum (Num now)) (Some [])))
  end.

(** Lines 154-156: a reported name replaces the stored one.  When the read
    found an inherited method the assignment is to the read-only [name] of
    a function, a TypeError in a module; when it found [Object.prototype]
    itself (under [__proto__]) the name is set there, outside the
    registry. *)
Definition rename_beacon (beacon : BeaconReport.t) (mac : jsstring)
    (data : Registry.t) : exn Registry.t :=
  if truthy (BeaconReport.name beacon) then
    match obj_get (Registry.beacons data) mac with
    | Some b =>
        Ok (set_beacons data
              (obj_set (Registry.beacons data) mac
                 (Beacon.mk (BeaconReport.name beacon) (Beacon.first_seen b)
                    (Beacon.detections b))))
    | None => if str_eqb mac proto_key then Ok data else Throw TypeError
    end
  else Ok data.

(** Lines 163-169: the detection of this receiver is assigned; the
    assignment throws when what was read under [mac] has no [detections]
    map (a stored beacon without one, or an inherited member). *)
Definition record_detection (e : Event.t) (now : Z) (beacon : BeaconReport.t)
    (mac : jsstring) (rssiValue : value) (data : Registry.t)
  : exn Registry.t :=
  match obj_get (Registry.beacons data) mac with
  | Some b =>
      match Beacon.detections b with
      | Some detections =>
          Ok (set_beacons data
                (obj_set (Registry.beacons data) mac
                   (Beacon.mk (Beacon.name b) (Beacon.first_seen b)
                      (Some
                         (obj_assign detections
                            (ToString (Event.device_id e))
                            (new_detection e now beacon rssiValue))))))
      | None => Throw TypeError
      end
  | None => Throw TypeError
  end.

(** The body of the loop over the report's entries (lines 143-170). *)
Definition ingest_beacon (e : Event.t) (now : Z) (data : Registry.t)
    (beacon : BeaconReport.t) : exn Registry.t :=
  if negb (truthy (BeaconReport.mac beacon)) then Ok data
  else
    let mac := ToString (BeaconReport.mac beacon) in
    let data := ensure_beacon now beacon mac data in
    data <- rename_beacon beacon mac data;;
    rssiValue <- rssiValue_of (BeaconReport.rssi beacon);;
    record_detection e now beacon mac rssiValue data.

Fixpoint ingest_beacons (e : Event.t) (now : Z) (data : Registry.t)
    (beacons : list BeaconReport.t) : exn Registry.t :=
  match beacons with
  | [] => Ok data
  | beacon :: rest =>
      data' <- ingest_beacon e now data beacon;;
      ingest_beacons e now data' rest
  end.

Definition reportData_of (e : Event.t) : EventData.t :=
  match Event.event_data e with
  | Some r => r
  | None => EventData.mk None VUndef VUndef
  end.

Definition beacons_of (e : Event.t) : list BeaconReport.t :=
  match EventData.beacons (reportData_of e) with
  | Some l => l
  | None => []
  end.

(** The record written to [data.devices[deviceId]] (lines 134-140). *)
Definition device_of (e : Event.t) (now : Z) : Device.t :=
  Device.mk (js_or (Event.device_name e) (Event.device_id e))
    (js_or (Event.device_type e) (VStr (u "ESP32")))
    (VNum (Num now))
    (js_or (EventData.batch (reportData_of e)) (VNum (Num 1)))
    (js_or (EventData.total_batches (reportData_of e)) (VNum (Num 1))).

(** [handleBLEData]: the data file after the handler has run at time
    [now]. *)
Definition handleBLEData (f : file) (e : Event.t) (now : Z) (disk_ok : bool)
  : file :=
  try_catch
    (let deviceId := Event.device_id e in
     let beacons := beacons_of e in
     if negb (truthy deviceId) || negb (0 <? Z.of_nat (List.length beacons))
     then Ok f
     else
       data <- loadData f;;
       let data :=
         Registry.mk
           (obj_assign (Registry.devices data) (ToString deviceId)
              (device_of e now))
           (Registry.beacons data) in
       data <- ingest_beacons e now data beacons;;
       Ok (fst (saveData f data disk_ok)))
    (fun _ => f).

Definition halfHour : Z := 30 * 60 * 1000.

(** The [for ... in] loop over [data.devices] (lines 559-564): its body, on
    the map and the count of removals. *)
Definition sweep_device_step (now : Z) (st : obj Device.t * nat)
    (deviceId : jsstring) : obj Device.t * nat :=
  let '(ds, cleaned) := st in
  match obj_get ds deviceId with
  | Some d =>
      if js_gt (js_sub (VNum (Num now)) (Device.update d)) (Num halfHour)
      then (obj_delete ds deviceId, S cleaned)
      else (ds, cleaned)
  | None => (ds, cleaned)
  end.

Definition sweep_devices (now : Z) (devices : obj Device.t)
  : obj Device.t * nat :=
  fold_left (sweep_device_step now) (obj_keys devices) (devices, 0%nat).

(** The inner loop over one beacon's detections (lines 570-577): its body,
    on the map, the count of removals and [hasRecentDetection]. *)
Definition sweep_detection_step (now : Z) (st : obj Detection.t * nat * bool)
    (deviceId : jsstring) : obj Detection.t * nat * bool :=
  let '(ds, cleaned, hasRecentDetection) := st in
  match obj_get ds deviceId with
  | Some d =>
      if js_gt (js_sub (VNum (Num now)) (Detection.update_time d))
           (Num halfHour)
      then (obj_delete ds deviceId, S cleaned, hasRecentDetection)
      else (ds, cleaned, true)
  | None => (ds, cleaned, hasRecentDetection)
  end.

Definition sweep_detections (now : Z) (detections : obj Detection.t)
  : obj Detection.t * nat * bool :=
  fold_left (sweep_detection_step now) (obj_keys detections)
    (detections, 0%nat, false).

(** The loop over [data.beacons] (lines 566-583): its body. *)
Definition sweep_beacon_step (now : Z) (st : obj Beacon.t * nat)
    (mac : jsstring) : obj Beacon.t * nat :=
  let '(bs, cleaned) := st in
  match obj_get bs mac with
  | Some beacon =>
      let '(detections, removed, hasRecentDetection) :=
        match Beacon.detections beacon with
        | Some ds =>
            let '(ds', n, recent) := sweep_detections now ds in
            (Some ds', n, recent)
        | None => (None, 0%nat, false)
        end in
      if negb hasRecentDetection
      then (obj_delete bs mac, S (cleaned + removed))
      else
        (obj_set bs mac
           (Beacon.mk (Beacon.name beacon) (Beacon.first_seen beacon)
              detections),
         (cleaned + removed)%nat)
  | None => (bs, cleaned)
  end.

Definition sweep_beacons (now : Z) (beacons : obj Beacon.t)
  : obj Beacon.t * nat :=
  fold_left (sweep_beacon_step now) (obj_keys beacons) (beacons, 0%nat).

(** The registry as [autoClearOldData] leaves it in memory, and [cleaned]. *)
Definition sweep (now : Z) (data : Registry.t) : Registry.t * nat :=
  let '(devices, n1) := sweep_devices now (Registry.devices data) in
  let '(beacons, n2) := sweep_beacons now (Registry.beacons data) in
  (Registry.mk devices beacons, (n1 + n2)%nat).


(** A run of the handler over a sequence of reports, each with its arrival
    time and the outcome of its write. *)
Fixpoint handle_all (f : file) (reports : list (Event.t * Z * bool)) : file :=
  match reports with
  | [] => f
  | (e, now, disk_ok) :: rest => handle_all (handleBLEData f e now disk_ok) rest
  end.

(** ** Vocabulary of the properties *)

(** The test [getValidReceivers] applies to one detection. *)
Definition passes_filter (now threshold : Z) (detection : Detection.t) : bool :=
  let lastUpdateTime := parseDetectionTime (Some detection) in
  negb (nullish lastUpdateTime)
  && js_le (js_sub (VNum (Num now)) lastUpdateTime) (Num threshold).

(** The array element built for one entry of a detections map. *)
Definition ranked (entry : jsstring * Detection.t) : Receiver.t :=
  receiver_of (fst entry) (snd entry) (parseDetectionTime (Some (snd entry))).

(** The comparator handed to [sort]. *)
Definition by_rssi (a b : Receiver.t) : num :=
  js_sub (Receiver.rssi b) (Receiver.rssi a).

(** A signal strength that reads as a number in [b.rssi - a.rssi], and its
    value. *)
Definition numeric (v : value) : Prop := exists z, ToNumber v = Num z.

Definition strength (r : Receiver.t) : Z :=
  match ToNumber (Receiver.rssi r) with
  | Num z => z
  | NaN => 0
  end.

Definition valid_ids (beacon : option Beacon.t) (now threshold : Z)
  : list jsstring :=
  map Receiver.deviceId (getValidReceivers beacon now threshold).

(** The order of the result: the stronger signal first. *)
Definition stronger_first (a b : Receiver.t) : Prop := strength b <= strength a.

(** The stored strengths a beacon's passing detections must have for the
    comparator to be consistent: absent, or read as a number (not as NaN). *)
Definition strengths_recorded (beacon : option Beacon.t) (now threshold : Z)
  : Prop :=
  forall id d,
    In (id, d) (detections_of beacon) ->
    passes_filter now threshold d = true ->
    nullish (Detection.rssi d) = true \/ numeric (Detection.rssi d).

(** [now - t > limit], as the sweep tests it. *)
Definition age_exceeds (now limit : Z) (t : value) : bool :=
  js_gt (js_sub (VNum (Num now)) t) (Num limit).

Definition keep_device (now : Z) (entry : jsstring * Device.t) : bool :=
  negb (age_exceeds now halfHour (Device.update (snd entry))).

Definition keep_detection (now : Z) (entry : jsstring * Detection.t) : bool :=
  negb (age_exceeds now halfHour (Detection.update_time (snd entry))).

(** What the sweep leaves of one beacon: nothing when no detection is
    recent, the beacon with its recent detections otherwise. *)
Definition prune_beacon (now : Z) (entry : jsstring * Beacon.t)
  : option (jsstring * Beacon.t) :=
  match Beacon.detections (snd entry) with
  | Some ds =>
      if existsb (keep_detection now) ds
      then Some (fst entry,
                 Beacon.mk (Beacon.name (snd entry))
                   (Beacon.first_seen (snd entry))
                   (Some (filter (keep_detection now) ds)))
      else None
  | None => None
  end.

Fixpoint filter_map {A B} (f : A -> option B) (l : list A) : list B :=
  match l with
  | [] => []
  | x :: l' => match f x with
               | Some y => y :: filter_map f l'
               | None => filter_map f l'
               end
  end.

(** Every map of the registry has one entry per key, as a JavaScript object
    has. *)
Definition detections_wf (b : Beacon.t) : Prop :=
  NoDup (obj_keys (detections_of (Some b))).

Definition registry_wf (data : Registry.t) : Prop :=
  NoDup (obj_keys (Registry.devices data))
  /\ NoDup (obj_keys (Registry.beacons data))
  /\ forall mac b, In (mac, b) (Registry.beacons data) -> detections_wf b.

(** The test [findBeacon] applies to one entry of [data.beacons]. *)
Definition beacon_matches (beaconId : jsstring) (entry : jsstring * Beacon.t)
  : bool :=
  strict_eq_string (Beacon.name (snd entry)) beaconId
  || str_eqb (fst entry) beaconId.

Definition beacons_of_document (data : Document.t) : obj Beacon.t :=
  match Document.beacons data with
  | Some beacons => beacons
  | None => []
  end.

(** *** The data file, read as a registry *)

Definition document_of (f : file) : Document.t :=
  match f with
  | Some (Json doc) => doc
  | _ => Document.mk None None
  end.

Definition file_devices (f : file) : obj Device.t :=
  match Document.devices (document_of f) with
  | Some devices => devices
  | None => []
  end.

Definition file_beacons (f : file) : obj Beacon.t :=
  beacons_of_document (document_of f).

Definition file_device (f : file) (id : jsstring) : option Device.t :=
  obj_get (file_devices f) id.

Definition file_detection (f : file) (mac id : jsstring)
  : option Detection.t :=
  match obj_get (file_beacons f) mac with
  | Some b => obj_get (detections_of (Some b)) id
  | None => None
  end.

(** One entry per key in every map of the file, as [JSON.parse] builds
    them. *)
Definition file_wf (f : file) : Prop :=
  NoDup (obj_keys (file_devices f))
  /\ NoDup (obj_keys (file_beacons f))
  /\ forall mac b, In (mac, b) (file_beacons f) -> detections_wf b.

Definition beacons_wf (bs : obj Beacon.t) : Prop :=
  NoDup (obj_keys bs) /\ forall mac b, In (mac, b) bs -> detections_wf b.

(** The keys of a registry: its objects in order, each with the receiver
    identities of its detections in order ([None] when it has no
    [detections] map). *)
Definition shape := obj (option (obj unit)).

Definition beacon_shape (b : Beacon.t) : option (obj unit) :=
  option_map (map_values (fun _ => tt)) (Beacon.detections b).

Definition registry_shape (data : Registry.t) : shape :=
  map_values beacon_shape (Registry.beacons data).

Definition file_shape (f : file) : shape :=
  map_values beacon_shape (file_beacons f).

(** The receiver identities recorded for one object, in order. *)
Definition detection_ids (f : file) (mac : jsstring) : list jsstring :=
  match obj_get (file_beacons f) mac with
  | Some b => obj_keys (detections_of (Some b))
  | None => []
  end.

(** A map without an own [__proto__] key. *)
Definition ordinary {A} (o : obj A) : bool := negb (obj_has o proto_key).

(** A data file none of whose maps has an own [__proto__] key.  The
    handlers write no other file. *)
Definition file_ordinary (f : file) : bool :=
  ordinary (file_devices f)
  && ordinary (file_beacons f)
  && forallb (fun entry => ordinary (detections_of (Some (snd entry))))
       (file_beacons f).

(** What one loop iteration does to the keys. *)
Definition shape_step (deviceId : jsstring) (sh : shape)
    (beacon : BeaconReport.t) : exn shape :=
  if negb (truthy (BeaconReport.mac beacon)) then Ok sh
  else
    let mac := ToString (BeaconReport.mac beacon) in
    let sh :=
      match obj_get sh mac with
      | Some _ => sh
      | None => if inherits mac then sh else obj_assign sh mac (Some [])
      end in
    sh <- (if truthy (BeaconReport.name beacon) then
             match obj_get sh mac with
             | Some _ => Ok sh
             | None => if str_eqb mac proto_key then Ok sh else Throw TypeError
             end
           else Ok sh);;
    _ <- rssiValue_of (BeaconReport.rssi beacon);;
    match obj_get sh mac with
    | Some (Some ids) =>
        Ok (obj_set sh mac (Some (obj_assign ids deviceId tt)))
    | _ => Throw TypeError
    end.

Fixpoint shape_steps (deviceId : jsstring) (sh : shape)
    (beacons : list BeaconReport.t) : exn shape :=
  match beacons with
  | [] => Ok sh
  | beacon :: rest =>
      sh' <- shape_step deviceId sh beacon;;
      shape_steps deviceId sh' rest
  end.

Definition exn_map {A B} (f : A -> B) (m : exn A) : exn B :=
  match m with
  | Ok a => Ok (f a)
  | Throw e => Throw e
  end.


(** The detection a registry in memory holds for an object and a
    receiver. *)
Definition registry_detection (data : Registry.t) (mac id : jsstring)
  : option Detection.t :=
  match obj_get (Registry.beacons data) mac with
  | Some b => obj_get (detections_of (Some b)) id
  | None => None
  end.

(** A reading of a structured signal strength; [undefined] when the
    structure does not offer it. *)
Definition reading (props : list (jsstring * value)) (key : jsstring)
  : value :=
  match find (fun p => str_eqb (fst p) key) props with
  | Some p => snd p
  | None => VUndef
  end.

(** Keys all of whose objects have a [detections] map. *)
Definition shape_total (sh : shape) : Prop :=
  forall k v, In (k, v) sh -> v <> None.


(** An address under which no detection can be assigned: the object stored
    there has no [detections] map, or nothing is stored there and the read
    finds a member of [Object.prototype]. *)
Definition blocked (sh : shape) (mac : jsstring) : Prop :=
  obj_get sh mac = Some None
  \/ (obj_get sh mac = None /\ inherits mac = true).

(** An entry of a report that one loop iteration gets through: it is
    skipped, or its signal strength can be read and its address is not
    blocked. *)
Definition accepted (sh : shape) (b : BeaconReport.t) : Prop :=
  truthy (BeaconReport.mac b) = false
  \/ ((exists r, rssiValue_of (BeaconReport.rssi b) = Ok r)
      /\ ~ blocked sh (ToString (BeaconReport.mac b))).

(** The last entry of a report that addresses the object [mac]. *)
Fixpoint last_entry (beacons : list BeaconReport.t) (mac : jsstring)
  : option BeaconReport.t :=
  match beacons with
  | [] => None
  | beacon :: rest =>
      match last_entry rest mac with
      | Some b => Some b
      | None =>
          if truthy (BeaconReport.mac beacon)
             && str_eqb (ToString (BeaconReport.mac beacon)) mac
          then Some beacon
          else None
      end
  end.


(** The inputs on which the merge runs to its end: every addressed entry of
    the report has a signal strength that is not [null] and an address that
    names no member of [Object.prototype], and every object of the file has
    a [detections] map. *)
Definition report_complete (e : Event.t) : Prop :=
  forall b, In b (beacons_of e) ->
            truthy (BeaconReport.mac b) = true ->
            BeaconReport.rssi b <> VNull
            /\ inherits (ToString (BeaconReport.mac b)) = false.

Definition file_complete (f : file) : Prop :=
  forall mac b, In (mac, b) (file_beacons f) -> Beacon.detections b <> None.

(** The registry the merge of a report starts from: what [loadData]
    returned, with the receiver's record assigned (line 134). *)
Definition merge_start (f : file) (e : Event.t) (now : Z) : Registry.t :=
  Registry.mk
    (obj_assign (decode_map decodeDevice (file_devices f))
       (ToString (Event.device_id e)) (device_of e now))
    (decode_map decodeBeacon (file_beacons f)).

(** ** ble-utils.js: [getBeaconDisplayName] *)

(** [s] without the prefix [p], when it starts with it. *)
Fixpoint strip_prefix (p s : jsstring) : option jsstring :=
  match p, s with
  | [], _ => Some s
  | a :: p', b :: s' => if N.eqb a b then strip_prefix p' s' else None
  | _ :: _, [] => None
  end.

(** [\d+] is greedy: the longest run of digits. *)
Fixpoint take_digits (s : jsstring) : jsstring :=
  match s with
  | c :: s' => if is_digit c then c :: take_digits s' else []
  | [] => []
  end.

(** The capture group when [/ESP-C3-(\d+)/] matches at the start of [s]. *)
Definition match_here (s : jsstring) : option jsstring :=
  match strip_prefix (u "ESP-C3-") s with
  | Some rest =>
      match take_digits rest with
      | [] => None
      | digits => Some digits
      end
  | None => None
  end.

(** [beaconName.match(/ESP-C3-(\d+)/)?.[1]]: the capture group of the
    leftmost match. *)
Fixpoint match_ESP_C3 (s : jsstring) : option jsstring :=
  match match_here s with
  | Some digits => Some digits
  | None =>
      match s with
      | [] => None
      | _ :: s' => match_ESP_C3 s'
      end
  end.

(** A truthy name that is not a string has no [match] method. *)
Definition getBeaconDisplayName (beaconName : value) : exn value :=
  if negb (truthy beaconName) then Ok (VStr unknown_beacon)
  else
    match beaconName with
    | VStr s =>
        match match_ESP_C3 s with
        | Some digits => Ok (VStr (digits ++ display_suffix))
        | None => Ok beaconName
        end
    | _ => Throw TypeError
    end.

(** ** http/ble.js and http/kb.js

    Every handler reads the data file itself.  Its [catch] answers for an
    absent file ([err.code === 'ENOENT'], the [IOError] of [readFile]) and
    throws any other error again. *)

Definition parse_file (f : file) : exn Document.t :=
  content <- readFile f;;
  JSON_parse content.

(** [data.devices || {}] and [data.beacons || {}] *)
Definition devices_of_document (data : Document.t) : obj Device.t :=
  match Document.devices data with
  | Some devices => devices
  | None => []
  end.

(** The object written to [simplified.beacons[mac].detections[deviceId]]. *)
Definition detection_view (detection : Detection.t) : DetectionView.t :=
  DetectionView.mk
    (decodeUnicode
       (js_or (Detection.receiver_name detection) (Detection.receiver detection)))
    (Detection.rssi detection)
    (Detection.online detection)
    (toLocaleString (js_or (Detection.update_time detection) (VNum (Num 0)))).

(** [{ ...device, name: decodeUnicode(device.name) }] *)
Definition device_view (device : Device.t) : Device.t :=
  Device.mk (decodeUnicode (Device.name device)) (Device.type device)
    (Device.update device) (Device.batch device) (Device.total_batches device).

(** A loop [for (const [k, v] of Object.entries(o)) target[k] = g(v)] into
    an object that starts empty. *)
Definition rebuild {A B} (g : A -> B) (o : obj A) : obj B :=
  fold_left (fun target entry => obj_assign target (fst entry) (g (snd entry)))
    o [].

Definition beacon_view (beacon : Beacon.t) : BeaconView.t :=
  BeaconView.mk (Beacon.name beacon) (Beacon.first_seen beacon)
    (rebuild detection_view (detections_of (Some beacon))).

(** [GET /api/ble/data] (lines 27-60); [now] is the [Date.now()] of the
    answer. *)
Definition ble_data_route (f : file) (now : Z) : exn (answer DataPayload.t) :=
  match
    (data <- parse_file f;;
     if (List.length (obj_keys (devices_of_document data)) =? 0)%nat
        && (List.length (obj_keys (beacons_of_document data)) =? 0)%nat
     then Ok (Reply (DataPayload.mk [] [] (Some msg_no_data) None))
     else
       Ok (Reply
             (DataPayload.mk
                (rebuild device_view (devices_of_document data))
                (rebuild beacon_view (beacons_of_document data))
                None (Some now))))
  with
  | Ok r => Ok r
  | Throw IOError => Ok (Reply (DataPayload.mk [] [] (Some msg_no_file) None))
  | Throw err => Throw err
  end.

(** [name?.startsWith('ESP-C3-')]: [None] is the [undefined] the optional
    chain gives for an absent name; a name that is neither absent nor a
    string has no [startsWith] to call. *)
Definition starts_with (p s : jsstring) : bool :=
  match strip_prefix p s with
  | Some _ => true
  | None => false
  end.

Definition name_startsWith (name : value) : exn (option bool) :=
  match name with
  | VUndef | VNull => Ok None
  | VStr s => Ok (Some (starts_with (u "ESP-C3-") s))
  | _ => Throw TypeError
  end.

(** The [detections] object built from the receivers of one beacon
    (lines 75-83). *)
Definition esp_detections (receivers : list Receiver.t) : obj DetectionView.t :=
  fold_left
    (fun detections r =>
       obj_assign detections (Receiver.deviceId r)
         (DetectionView.mk (Receiver.name r) (Receiver.rssi r)
            (Receiver.online r) (Receiver.last_update r)))
    receivers [].

(** The body of the loop over [data.beacons] (lines 71-91). *)
Definition esp_step (now : Z) (espC3Beacons : list EspBeacon.t)
    (entry : jsstring * Beacon.t) : exn (list EspBeacon.t) :=
  let '(mac, beacon) := entry in
  starts <- name_startsWith (Beacon.name beacon);;
  if negb (match starts with Some b => b | None => false end)
     || (List.length (obj_keys (detections_of (Some beacon))) =? 0)%nat
  then Ok espC3Beacons
  else
    let receivers := getValidReceivers (Some beacon) now STALE_TIME_THRESHOLD in
    if (List.length receivers =? 0)%nat then Ok espC3Beacons
    else
      displayName <- getBeaconDisplayName (Beacon.name beacon);;
      Ok (espC3Beacons
            ++ [EspBeacon.mk mac (Beacon.name beacon) displayName
                  (esp_detections receivers) (Beacon.first_seen beacon)]).

Fixpoint esp_loop (now : Z) (espC3Beacons : list EspBeacon.t)
    (entries : obj Beacon.t) : exn (list EspBeacon.t) :=
  match entries with
  | [] => Ok espC3Beacons
  | entry :: rest =>
      espC3Beacons' <- esp_step now espC3Beacons entry;;
      esp_loop now espC3Beacons' rest
  end.

(** [Math.max(...xs)]: NaN as soon as one argument reads as NaN; [None] is
    the [-Infinity] of an empty argument list. *)
Fixpoint Math_max (xs : list value) : option num :=
  match xs with
  | [] => None
  | x :: rest =>
      match ToNumber x, Math_max rest with
      | NaN, _ => Some NaN
      | Num _, Some NaN => Some NaN
      | Num a, Some (Num b) => Some (Num (Z.max a b))
      | Num a, None => Some (Num a)
      end
  end.

(** [Math.max(...Object.values(e.detections).map(d => d.rssi || -100))] *)
Definition esp_strongest (e : EspBeacon.t) : option num :=
  Math_max
    (map (fun d => js_or (DetectionView.rssi (snd d)) (VNum (Num (-100))))
       (EspBeacon.detections e)).

(** [bMax - aMax], as far as [sort] reads it: an infinite difference is
    given by its sign. *)
Definition esp_compare (a b : EspBeacon.t) : num :=
  match esp_strongest b, esp_strongest a with
  | Some (Num y), Some (Num x) => Num (y - x)
  | Some (Num _), None => Num 1
  | None, Some (Num _) => Num (-1)
  | _, _ => NaN
  end.

(** [GET /api/ble/esp-c3-beacons] (lines 65-104); [now] is the clock read
    before the loop, [answered] the one read for the answer's timestamp. *)
Definition esp_c3_beacons_route (f : file) (now answered : Z)
  : exn (answer EspPayload.t) :=
  match
    (data <- parse_file f;;
     espC3Beacons <- esp_loop now [] (beacons_of_document data);;
     Ok (Reply
           (EspPayload.mk (Array_sort esp_compare espC3Beacons) None
              (Some answered))))
  with
  | Ok r => Ok r
  | Throw IOError => Ok (Reply (EspPayload.mk [] (Some msg_no_file) None))
  | Throw err => Throw err
  end.

Definition receiver_view (r : Receiver.t) : ReceiverView.t :=
  ReceiverView.mk (Receiver.deviceId r) (Receiver.name r) (Receiver.rssi r)
    (Receiver.online r) (Receiver.last_update r) (Receiver.lastUpdateTime r).

(** [GET /api/ble/beacon/:beaconMac/receivers] (lines 109-143). *)
Definition ble_receivers_route (f : file) (beaconMac : jsstring) (now : Z)
  : exn (answer BleReceivers.t) :=
  match
    (data <- parse_file f;;
     match findBeacon (Some data) beaconMac with
     | None => Ok (NotFound msg_beacon_not_found)
     | Some (beacon, mac) =>
         let receivers :=
           map receiver_view
             (getValidReceivers (Some beacon) now STALE_TIME_THRESHOLD) in
         displayName <- getBeaconDisplayName (Beacon.name beacon);;
         Ok (Reply
               (BleReceivers.mk (Beacon.name beacon) mac displayName receivers
                  now))
     end)
  with
  | Ok r => Ok r
  | Throw IOError => Ok (NotFound msg_ble_file_missing)
  | Throw err => Throw err
  end.

Definition visitor_receiver (now : Z) (r : Receiver.t) : VisitorReceiver.t :=
  VisitorReceiver.mk (Receiver.deviceId r) (Receiver.name r) (Receiver.rssi r)
    (Receiver.online r) (Receiver.lastUpdateTime r)
    (js_sub (VNum (Num now)) (Receiver.lastUpdateTime r))
    (Receiver.last_update r).

(** [GET /api/kb/beacon/:beaconId/receivers] (http/kb.js, lines 100-129). *)
Definition kb_receivers_route (f : file) (beaconId : jsstring) (now : Z)
  : exn (answer KbReceivers.t) :=
  match
    (data <- parse_file f;;
     match findBeacon (Some data) beaconId with
     | None => Ok (NotFound msg_beacon_not_found)
     | Some (beacon, mac) =>
         Ok (Reply
               (KbReceivers.mk (Beacon.name beacon) mac
                  (map (visitor_receiver now)
                     (getValidReceivers (Some beacon) now STALE_TIME_THRESHOLD))
                  now))
     end)
  with
  | Ok r => Ok r
  | Throw IOError => Ok (NotFound msg_ble_file_missing)
  | Throw err => Throw err
  end.

(** [now - (d.update || 0) <= ACTIVE_WINDOW] *)
Definition device_active (now : Z) (d : Device.t) : bool :=
  js_le (js_sub (VNum (Num now)) (js_or (Device.update d) (VNum (Num 0))))
    (Num ACTIVE_WINDOW).

(** [d.online && now - (d.update_time || 0) <= ACTIVE_WINDOW] *)
Definition detection_active (now : Z) (d : Detection.t) : bool :=
  truthy (Detection.online d)
  && js_le
       (js_sub (VNum (Num now))
          (js_or (Detection.update_time d) (VNum (Num 0))))
       (Num ACTIVE_WINDOW).

(** The inner loop of the status route, which stops at the first active
    detection: whether it counted the beacon. *)
Fixpoint counts_as_active (now : Z) (detections : list Detection.t) : bool :=
  match detections with
  | [] => false
  | d :: rest =>
      if detection_active now d then true else counts_as_active now rest
  end.

Definition count_active_beacons (now : Z) (beacons : obj Beacon.t) : nat :=
  fold_left
    (fun activeBeacons entry =>
       if counts_as_active now (map snd (detections_of (Some (snd entry))))
       then S activeBeacons
       else activeBeacons)
    beacons 0%nat.

(** [GET /api/ble/status] (lines 148-185). *)
Definition ble_status_route (f : file) (now : Z) : exn (answer Status.t) :=
  match
    (data <- parse_file f;;
     let devices := devices_of_document data in
     let beacons := beacons_of_document data in
     Ok (Reply
           (Status.mk
              (List.length (obj_keys devices))
              (List.length (filter (device_active now) (map snd devices)))
              (List.length (obj_keys beacons))
              (count_active_beacons now beacons)
              ACTIVE_WINDOW now)))
  with
  | Ok r => Ok r
  | Throw IOError =>
      Ok (Reply (Status.mk 0 0 0 0 ACTIVE_WINDOW now))
  | Throw err => Throw err
  end.

(** [DELETE /api/ble/data] (lines 190-197): the file afterwards and the
    answer; [authorized] is what [Bot.checkApiAuthorization(req)] says. *)
Definition ble_reset_route (f : file) (authorized disk_ok : bool)
  : file * exn (answer unit) :=
  if negb authorized then (f, Ok (Forbidden msg_forbidden))
  else if disk_ok then (Some (JSON_stringify emptyRegistry), Ok (Reply tt))
  else (f, Throw IOError).

(** ** plugin/蓝牙.js: repair, reset and statistics *)

(** [checkAndRepairDataFile]: an absent or unparsable file is replaced by
    the empty document; any other file is left alone. *)
Definition checkAndRepairDataFile (f : file) (disk_ok : bool) : file :=
  match parse_file f with
  | Ok _ => f
  | Throw IOError | Throw SyntaxError => fst (saveData f emptyRegistry disk_ok)
  | Throw TypeError => f
  end.

(** [resetBLEData]: the file after the command. *)
Definition resetBLEData (f : file) (disk_ok : bool) : file :=
  fst (saveData f emptyRegistry disk_ok).

(** [detection.online && now - detection.update_time <= ACTIVE_WINDOW], as
    the plugin tests it. *)
Definition detection_active_plugin (now : Z) (d : Detection.t) : bool :=
  truthy (Detection.online d)
  && js_le (js_sub (VNum (Num now)) (Detection.update_time d))
       (Num ACTIVE_WINDOW).

(** The loop over one beacon's detections in [showStatistics]
    (lines 454-459): [activeCount] and the strengths pushed. *)
Definition count_detections (now : Z) (detections : obj Detection.t)
    (rssiValues : list value) : nat * list value :=
  fold_left
    (fun st entry =>
       let '(activeCount, rssiValues) := st in
       if detection_active_plugin now (snd entry)
       then (S activeCount, rssiValues ++ [Detection.rssi (snd entry)])
       else (activeCount, rssiValues))
    detections (0%nat, rssiValues).

(** The counters of [showStatistics] (lines 436-466), on the registry
    [loadData] returned. *)
Definition statistics (data : Registry.t) (now : Z) : Statistics.t :=
  let totalReceivers := List.length (obj_keys (Registry.devices data)) in
  let activeReceivers :=
    List.length
      (filter
         (fun d =>
            js_le (js_sub (VNum (Num now)) (Device.update d)) (Num ACTIVE_WINDOW))
         (map snd (Registry.devices data))) in
  let totalBeacons := List.length (obj_keys (Registry.beacons data)) in
  let '(activeBeacons, multi, single, rssiValues) :=
    fold_left
      (fun st entry =>
         let '(activeBeacons, multi, single, rssiValues) := st in
         let '(activeCount, rssiValues) :=
           count_detections now (detections_of (Some (snd entry))) rssiValues in
         if (0 <? activeCount)%nat
         then if (1 <? activeCount)%nat
              then (S activeBeacons, S multi, single, rssiValues)
              else (S activeBeacons, multi, S single, rssiValues)
         else (activeBeacons, multi, single, rssiValues))
      (Registry.beacons data) (0%nat, 0%nat, 0%nat, []) in
  Statistics.mk totalReceivers activeReceivers totalBeacons activeBeacons
    multi single rssiValues.

(** ** Vocabulary of the further properties *)

(** The lower-case hexadecimal digit of a value below 16, and the escape
    [\uXXXX] that names a code unit. *)
Definition hex_digit (d : N) : N :=
  if (d <? 10)%N then (48 + d)%N else (87 + d)%N.

Definition escape_unit (c : N) : jsstring :=
  [92; 117; hex_digit (c / 4096); hex_digit ((c / 256) mod 16);
   hex_digit ((c / 16) mod 16); hex_digit (c mod 16)]%N.

Definition escape (s : jsstring) : jsstring := flat_map escape_unit s.

(** A value none of whose strings holds a backslash. *)
Fixpoint escape_free (v : value) : bool :=
  match v with
  | VStr s => negb (existsb (N.eqb 92) s)
  | VArr items => forallb escape_free items
  | VObj props => forallb (fun p => escape_free (snd p)) props
  | _ => true
  end.

(** A value as [JSON.parse] builds them: no NaN, no [undefined]. *)
Fixpoint json_value (v : value) : bool :=
  match v with
  | VUndef => false
  | VNum NaN => false
  | VArr items => forallb json_value items
  | VObj props => forallb (fun p => json_value (snd p)) props
  | _ => true
  end.

(** A value none of whose objects has a key [__proto__]. *)
Fixpoint proto_free (v : value) : bool :=
  match v with
  | VArr items => forallb proto_free items
  | VObj props =>
      forallb (fun p => negb (str_eqb (fst p) proto_key) && proto_free (snd p))
        props
  | _ => true
  end.

(** A field of a record that a write followed by a load gives back as it
    is: absent, or a JSON value without a backslash and without a key
    [__proto__]. *)
Definition plain (v : value) : bool :=
  match v with
  | VUndef => true
  | _ => json_value v && escape_free v && proto_free v
  end.

Definition plain_device (d : Device.t) : bool :=
  plain (Device.name d) && plain (Device.type d) && plain (Device.update d)
  && plain (Device.batch d) && plain (Device.total_batches d).

Definition plain_detection (d : Detection.t) : bool :=
  plain (Detection.receiver_name d) && plain (Detection.receiver d)
  && plain (Detection.online d) && plain (Detection.rssi d)
  && plain (Detection.last_seen d) && plain (Detection.update_time d)
  && plain (Detection.last_update d).

Definition plain_beacon (b : Beacon.t) : bool :=
  plain (Beacon.name b) && plain (Beacon.first_seen b)
  && forallb (fun p => plain_detection (snd p)) (detections_of (Some b))
  && ordinary (detections_of (Some b)).

(** A registry that a write followed by a load gives back as it is: its
    fields are plain and none of its maps has a key [__proto__]. *)
Definition plain_registry (data : Registry.t) : bool :=
  forallb (fun p => plain_device (snd p)) (Registry.devices data)
  && forallb (fun p => plain_beacon (snd p)) (Registry.beacons data)
  && ordinary (Registry.devices data)
  && ordinary (Registry.beacons data).

(** A non-empty run of decimal digits. *)
Definition number_text (s : jsstring) : bool :=
  match s with
  | [] => false
  | _ => forallb is_digit s
  end.

(** The text [Y/M/D h:m:s] of the older export format. *)
Definition date_text (y mo d h mi s : jsstring) : jsstring :=
  y ++ [47%N] ++ mo ++ [47%N] ++ d ++ [32%N] ++ h ++ [58%N] ++ mi ++ [58%N] ++ s.

(** Whether some detection of a beacon passes the test of the status
    route. *)
Definition beacon_active (now : Z) (b : Beacon.t) : bool :=
  existsb (detection_active now) (map snd (detections_of (Some b))).

(** The detections of a beacon that [showStatistics] counts as active. *)
Definition active_detections (now : Z) (b : Beacon.t) : list Detection.t :=
  filter (detection_active_plugin now) (map snd (detections_of (Some b))).

(** A beacon the ESP-C3 route lists: its name is a string that starts
    with [ESP-C3-] and some receiver passes the staleness test. *)
Definition esp_listed (now : Z) (entry : jsstring * Beacon.t) : bool :=
  match Beacon.name (snd entry) with
  | VStr s => starts_with (u "ESP-C3-") s
  | _ => false
  end
  && negb (List.length (valid_ids (Some (snd entry)) now STALE_TIME_THRESHOLD)
           =? 0)%nat.

(** A name the ESP-C3 route can test: absent, or a string. *)
Definition name_testable (name : value) : bool :=
  match name with
  | VUndef | VNull | VStr _ => true
  | _ => false
  end.

(** The element the ESP-C3 route builds for a beacon it lists. *)
Definition esp_view (now : Z) (entry : jsstring * Beacon.t) : EspBeacon.t :=
  EspBeacon.mk (fst entry) (Beacon.name (snd entry))
    (match getBeaconDisplayName (Beacon.name (snd entry)) with
     | Ok displayName => displayName
     | Throw _ => VUndef
     end)
    (esp_detections
       (getValidReceivers (Some (snd entry)) now STALE_TIME_THRESHOLD))
    (Beacon.first_seen (snd entry)).

(** ** Facts about the value layer *)

Lemma str_eqb_refl (a : jsstring) : str_eqb a a = true.
Proof.
  induction a as [|x a IH]; simpl; [reflexivity|].
  now rewrite N.eqb_refl, IH.
Qed.

Lemma str_eqb_eq (a b : jsstring) : str_eqb a b = true <-> a = b.
Proof.
  split; [|intros ->; apply str_eqb_refl].
  revert b; induction a as [|x a IH]; intros [|y b]; simpl; try discriminate; auto.
  intros H. apply andb_true_iff in H as [Hx Hab].
  apply N.eqb_eq in Hx. f_equal; auto.
Qed.

Lemma str_eqb_neq (a b : jsstring) : str_eqb a b = false <-> a <> b.
Proof.
  rewrite <- str_eqb_eq. destruct (str_eqb a b); split; congruence.
Qed.

Lemma str_eqb_sym (a b : jsstring) : str_eqb a b = str_eqb b a.
Proof.
  destruct (str_eqb a b) eqn:E.
  - apply str_eqb_eq in E. subst. symmetry. apply str_eqb_refl.
  - apply str_eqb_neq in E. symmetry. apply str_eqb_neq. congruence.
Qed.

Lemma sort_insert_perm {A} (cmp : A -> A -> num) (x : A) (l : list A) :
  Permutation (sort_insert cmp x l) (x :: l).
Proof.
  induction l as [|y l IH]; simpl; [reflexivity|].
  destruct (goes_before cmp x y); [reflexivity|].
  rewrite IH. apply perm_swap.
Qed.

Lemma Array_sort_perm {A} (cmp : A -> A -> num) (l : list A) :
  Permutation (Array_sort cmp l) l.
Proof.
  induction l as [|x l IH]; simpl; [reflexivity|].
  rewrite sort_insert_perm. now constructor.
Qed.

Lemma fold_left_pointwise {A B} (f g : A -> B -> A) (l : list B) (a : A) :
  (forall a x, f a x = g a x) -> fold_left f l a = fold_left g l a.
Proof.
  intros H. revert a. induction l as [|x l IH]; intros a; simpl; [reflexivity|].
  now rewrite H, IH.
Qed.

(** ** Facts about ble-utils.js *)

Lemma push_loop_filter {A B} (p : A -> bool) (f : A -> B) (l : list A)
    (acc : list B) :
  fold_left (fun acc x => if p x then acc ++ [f x] else acc) l acc
  = acc ++ map f (filter p l).
Proof.
  revert acc; induction l as [|x l IH]; intros acc; simpl.
  - now rewrite app_nil_r.
  - rewrite IH. destruct (p x); simpl; [|reflexivity].
    now rewrite <- app_assoc.
Qed.

(** The loop of [getValidReceivers] is a filter followed by a map. *)
Lemma getValidReceivers_filter_sort (beacon : option Beacon.t)
    (now threshold : Z) :
  getValidReceivers beacon now threshold
  = Array_sort by_rssi
      (map ranked
         (filter (fun entry => passes_filter now threshold (snd entry))
            (detections_of beacon))).
Proof.
  unfold getValidReceivers. f_equal.
  rewrite <- (app_nil_l (map ranked _)).
  rewrite <- push_loop_filter. apply fold_left_pointwise.
  intros acc [deviceId detection]. unfold passes_filter, ranked. cbn [fst snd].
  destruct (nullish (parseDetectionTime (Some detection))); cbn [negb andb];
    [reflexivity|].
  destruct (js_le _ _); reflexivity.
Qed.

Lemma valid_ids_In (beacon : option Beacon.t) (now threshold : Z)
    (id : jsstring) :
  In id (valid_ids beacon now threshold) <->
  exists d, In (id, d) (detections_of beacon)
            /\ passes_filter now threshold d = true.
Proof.
  unfold valid_ids. rewrite getValidReceivers_filter_sort.
  rewrite in_map_iff. split.
  - intros (r & <- & Hr).
    apply (Permutation_in _ (Array_sort_perm _ _)) in Hr.
    apply in_map_iff in Hr as ([id' d] & <- & Hin).
    apply filter_In in Hin as [Hin Hp]. now exists d.
  - intros (d & Hin & Hp). exists (ranked (id, d)). split; [reflexivity|].
    apply (Permutation_in _ (Permutation_sym (Array_sort_perm _ _))).
    apply in_map. apply filter_In. now split.
Qed.

Lemma obj_keys_NoDup_unique {A} (o : obj A) (k : jsstring) (a b : A) :
  NoDup (obj_keys o) -> In (k, a) o -> In (k, b) o -> a = b.
Proof.
  induction o as [|[k' v] o IH]; simpl; [tauto|].
  intros Hnd Ha Hb. inversion Hnd as [|? ? Hnotin Hnd']; subst.
  destruct Ha as [Ha|Ha], Hb as [Hb|Hb].
  - congruence.
  - inversion Ha; subst. exfalso. apply Hnotin.
    apply (in_map fst) in Hb. exact Hb.
  - inversion Hb; subst. exfalso. apply Hnotin.
    apply (in_map fst) in Ha. exact Ha.
  - now apply IH.
Qed.

(** C9.  Loading a data file that is missing, or whose text is not valid
    JSON, yields the empty registry [{devices: {}, beacons: {}}]; and
    [loadData] raises no error, whatever the file holds. *)
Theorem loadData_missing_or_unparsable :
  loadData None = Ok emptyRegistry
  /\ (forall raw, loadData (Some (Text raw)) = Ok emptyRegistry)
  /\ Registry.devices emptyRegistry = []
  /\ Registry.beacons emptyRegistry = []
  /\ (forall f, exists data, loadData f = Ok data).
Proof.
  repeat split; try reflexivity.
  intros f. unfold loadData. eexists. reflexivity.
Qed.

(** C2 (the code departs from it).  A detection whose only timestamp is the
    string ["2025/11/7 20:32"], which lacks the seconds of the
    [YYYY/M/D H:M:S] format: [parseDetectionTime] returns NaN instead of
    null, [isDetectionStale] answers false (not stale) at every time and
    threshold, while [getValidReceivers] leaves the detection out. *)
Theorem isDetectionStale_unparsed_string_not_stale (now threshold : Z)
    (id : jsstring) :
  let d := Detection.mk VUndef VUndef VUndef VUndef VUndef VUndef
             (VStr (u "2025/11/7 20:32")) in
  parseDetectionTime (Some d) = VNum NaN
  /\ isDetectionStale (Some d) now threshold = false
  /\ getValidReceivers (Some (Beacon.mk VUndef VUndef (Some [(id, d)])))
       now threshold = [].
Proof.
  intros d.
  assert (H : parseDetectionTime (Some d) = VNum NaN) by reflexivity.
  split; [exact H|]. split.
  - unfold isDetectionStale. rewrite H. reflexivity.
  - unfold getValidReceivers. simpl fold_left.
    change (parseDetectionTime (Some d)) with (VNum NaN). reflexivity.
Qed.

(** C6.  For a detection whose timestamp resolves to the number [t]: at age
    [now - t = threshold] it is not stale and [getValidReceivers] returns
    it; at age [threshold + 1] it is stale and [getValidReceivers] leaves it
    out. *)
Theorem staleness_boundary_inclusive (d : Detection.t) (t now threshold : Z) :
  parseDetectionTime (Some d) = VNum (Num t) ->
  (now - t = threshold ->
   isDetectionStale (Some d) now threshold = false
   /\ passes_filter now threshold d = true
   /\ forall beacon id,
        In (id, d) (detections_of beacon) ->
        In id (valid_ids beacon now threshold))
  /\ (now - t = threshold + 1 ->
      isDetectionStale (Some d) now threshold = true
      /\ passes_filter now threshold d = false
      /\ forall beacon id,
           In (id, d) (detections_of beacon) ->
           NoDup (obj_keys (detections_of beacon)) ->
           ~ In id (valid_ids beacon now threshold)).
Proof.
  intros Ht. split; intros Hage.
  - assert (Hp : passes_filter now threshold d = true).
    { unfold passes_filter. rewrite Ht. cbn. apply Z.leb_le. lia. }
    split; [|split; [exact Hp|]].
    + unfold isDetectionStale. rewrite Ht. cbn. apply Z.ltb_ge. lia.
    + intros beacon id Hin. apply valid_ids_In. now exists d.
  - assert (Hp : passes_filter now threshold d = false).
    { unfold passes_filter. rewrite Ht. cbn. apply Z.leb_gt. lia. }
    split; [|split; [exact Hp|]].
    + unfold isDetectionStale. rewrite Ht. cbn. apply Z.ltb_lt. lia.
    + intros beacon id Hin Hnd Hid.
      apply valid_ids_In in Hid as (d' & Hin' & Hp').
      rewrite (obj_keys_NoDup_unique _ _ _ _ Hnd Hin' Hin) in Hp'. congruence.
Qed.

Lemma findBeacon_loop_first_match (entries : obj Beacon.t)
    (beaconId : jsstring) :
  match findBeacon_loop entries beaconId with
  | Some (beacon, mac) =>
      exists before after,
        entries = before ++ (mac, beacon) :: after
        /\ beacon_matches beaconId (mac, beacon) = true
        /\ forallb (fun e => negb (beacon_matches beaconId e)) before = true
  | None => forallb (fun e => negb (beacon_matches beaconId e)) entries = true
  end.
Proof.
  induction entries as [|[mac beacon] rest IH]; simpl; [reflexivity|].
  destruct (strict_eq_string (Beacon.name beacon) beaconId || str_eqb mac beaconId)
    eqn:Hm.
  - exists [], rest. repeat split. exact Hm.
  - destruct (findBeacon_loop rest beaconId) as [[b m]|].
    + destruct IH as (before & after & -> & Hb & Hnone).
      exists ((mac, beacon) :: before), after. repeat split; [exact Hb|].
      simpl. unfold beacon_matches at 1. simpl. now rewrite Hm.
    + unfold beacon_matches at 1. simpl. now rewrite Hm.
Qed.

(** C4, as the code has it.  [findBeacon] returns the first entry, in the
    iteration order of [data.beacons], whose name or whose address equals
    the query, and null when no entry matches or the document has no
    [beacons]: an earlier entry matched by name is returned even when a
    later entry's address equals the query. *)
Theorem findBeacon_first_match (data : Document.t) (beaconId : jsstring) :
  (forall devices,
     findBeacon (Some (Document.mk devices None)) beaconId = None)
  /\ findBeacon None beaconId = None
  /\ match findBeacon (Some data) beaconId with
     | Some (beacon, mac) =>
         exists before after,
           beacons_of_document data = before ++ (mac, beacon) :: after
           /\ (Beacon.name beacon = VStr beaconId \/ mac = beaconId)
           /\ forall mac' beacon',
                In (mac', beacon') before ->
                Beacon.name beacon' <> VStr beaconId /\ mac' <> beaconId
     | None =>
         forall mac' beacon',
           In (mac', beacon') (beacons_of_document data) ->
           Beacon.name beacon' <> VStr beaconId /\ mac' <> beaconId
     end.
Proof.
  assert (Hyes : forall e, beacon_matches beaconId e = true ->
            Beacon.name (snd e) = VStr beaconId \/ fst e = beaconId).
  { intros [m b]. unfold beacon_matches. simpl. intros H.
    apply orb_true_iff in H as [H|H].
    - left. destruct (Beacon.name b); simpl in H; try discriminate.
      apply str_eqb_eq in H. now subst.
    - right. now apply str_eqb_eq. }
  assert (Hno : forall l, forallb (fun e => negb (beacon_matches beaconId e)) l = true ->
            forall mac' beacon', In (mac', beacon') l ->
              Beacon.name beacon' <> VStr beaconId /\ mac' <> beaconId).
  { intros l Hl mac' beacon' Hin.
    rewrite forallb_forall in Hl. specialize (Hl _ Hin).
    apply negb_true_iff in Hl. unfold beacon_matches in Hl. simpl in Hl.
    apply orb_false_iff in Hl as [Hn Hm]. split.
    - intros Heq. rewrite Heq in Hn. simpl in Hn.
      now rewrite str_eqb_refl in Hn.
    - now apply str_eqb_neq. }
  split; [|split].
  - reflexivity.
  - reflexivity.
  - unfold findBeacon, beacons_of_document.
    destruct (Document.beacons data) as [beacons|]; [|intros ? ? []].
    pose proof (findBeacon_loop_first_match beacons beaconId) as H.
    destruct (findBeacon_loop beacons beaconId) as [[b m]|].
    + destruct H as (before & after & Heq & Hb & Hnone).
      exists before, after. split; [exact Heq|]. split.
      * apply (Hyes (m, b) Hb).
      * now apply Hno.
    + now apply Hno.
Qed.

(** *** The sort of [getValidReceivers] *)

Lemma goes_before_by_rssi (x y : Receiver.t) :
  numeric (Receiver.rssi x) -> numeric (Receiver.rssi y) ->
  goes_before by_rssi x y = (strength y <=? strength x).
Proof.
  intros [zx Hx] [zy Hy]. unfold goes_before, by_rssi, js_sub, strength.
  rewrite Hx, Hy. cbn.
  destruct (Z.leb_spec (zy - zx) 0), (Z.leb_spec zy zx); try reflexivity; lia.
Qed.

Lemma sort_insert_sorted (x : Receiver.t) (l : list Receiver.t) :
  Forall (fun r => numeric (Receiver.rssi r)) (x :: l) ->
  StronglySorted stronger_first l ->
  StronglySorted stronger_first (sort_insert by_rssi x l).
Proof.
  intros Hnum Hs. inversion Hnum as [|? ? Hx Hl]; subst. clear Hnum.
  induction Hs as [|y l Hs IH Hy]; simpl.
  - constructor; constructor.
  - inversion Hl as [|? ? Hny Hl']; subst.
    rewrite (goes_before_by_rssi _ _ Hx Hny).
    destruct (Z.leb_spec (strength y) (strength x)) as [Hle|Hlt].
    + constructor; [now constructor|].
      constructor; [exact Hle|].
      eapply Forall_impl; [|exact Hy].
      unfold stronger_first. intros r Hr. lia.
    + constructor; [now apply IH|].
      eapply Permutation_Forall;
        [apply Permutation_sym, sort_insert_perm|].
      constructor; [unfold stronger_first; lia|exact Hy].
Qed.

Lemma Array_sort_sorted (l : list Receiver.t) :
  Forall (fun r => numeric (Receiver.rssi r)) l ->
  StronglySorted stronger_first (Array_sort by_rssi l).
Proof.
  induction l as [|x l IH]; intros Hnum; simpl; [constructor|].
  inversion Hnum as [|? ? Hx Hl]; subst.
  apply sort_insert_sorted; [|now apply IH].
  constructor; [exact Hx|].
  eapply Permutation_Forall; [apply Permutation_sym, Array_sort_perm|exact Hl].
Qed.

Lemma sort_insert_stable (z : Z) (x : Receiver.t) (l : list Receiver.t) :
  Forall (fun r => numeric (Receiver.rssi r)) (x :: l) ->
  filter (fun r => strength r =? z) (sort_insert by_rssi x l)
  = filter (fun r => strength r =? z) (x :: l).
Proof.
  intros Hnum. inversion Hnum as [|? ? Hx Hl]; subst. clear Hnum.
  induction l as [|y l IH]; [reflexivity|].
  inversion Hl as [|? ? Hy Hl']; subst. cbn [sort_insert].
  rewrite (goes_before_by_rssi _ _ Hx Hy).
  destruct (Z.leb_spec (strength y) (strength x)) as [Hle|Hlt]; [reflexivity|].
  cbn [filter]. rewrite (IH Hl'). cbn [filter].
  destruct (Z.eqb_spec (strength x) z), (Z.eqb_spec (strength y) z);
    try reflexivity; lia.
Qed.

Lemma Array_sort_stable (z : Z) (l : list Receiver.t) :
  Forall (fun r => numeric (Receiver.rssi r)) l ->
  filter (fun r => strength r =? z) (Array_sort by_rssi l)
  = filter (fun r => strength r =? z) l.
Proof.
  induction l as [|x l IH]; intros Hnum; [reflexivity|].
  inversion Hnum as [|? ? Hx Hl]; subst. cbn [Array_sort].
  rewrite sort_insert_stable.
  - cbn [filter]. now rewrite (IH Hl).
  - constructor; [exact Hx|].
    eapply Permutation_Forall; [apply Permutation_sym, Array_sort_perm|exact Hl].
Qed.

Lemma ranked_numeric (beacon : option Beacon.t) (now threshold : Z) :
  strengths_recorded beacon now threshold ->
  Forall (fun r => numeric (Receiver.rssi r))
    (map ranked
       (filter (fun entry => passes_filter now threshold (snd entry))
          (detections_of beacon))).
Proof.
  intros H. apply Forall_forall. intros r Hr.
  apply in_map_iff in Hr as ([id d] & <- & Hin).
  apply filter_In in Hin as [Hin Hp]. cbn [snd] in Hp.
  unfold ranked, receiver_of, js_coalesce. cbn [Receiver.rssi fst snd].
  destruct (nullish (Detection.rssi d)) eqn:En; [now exists (-100)|].
  destruct (H id d Hin Hp) as [Hn|Hn]; [congruence|exact Hn].
Qed.

Lemma getValidReceivers_perm (beacon : option Beacon.t) (now threshold : Z) :
  Permutation (getValidReceivers beacon now threshold)
    (map ranked
       (filter (fun entry => passes_filter now threshold (snd entry))
          (detections_of beacon))).
Proof.
  rewrite getValidReceivers_filter_sort. apply Array_sort_perm.
Qed.

Lemma getValidReceivers_sorted (beacon : option Beacon.t) (now threshold : Z) :
  strengths_recorded beacon now threshold ->
  StronglySorted stronger_first (getValidReceivers beacon now threshold).
Proof.
  intros Hrec. rewrite getValidReceivers_filter_sort.
  apply Array_sort_sorted. now apply ranked_numeric.
Qed.

(** C7, as the code has it.  The array [getValidReceivers] returns holds
    exactly the elements built from the detections that pass the staleness
    test; when the stored strengths of those detections are numbers (or
    absent) it is sorted by descending strength and elements of equal
    strength keep the order the detections map enumerates them in; and it
    is empty when no detection passes. *)
Theorem getValidReceivers_filtered_sorted_stable (beacon : option Beacon.t)
    (now threshold : Z) :
  let passing :=
    map ranked
      (filter (fun entry => passes_filter now threshold (snd entry))
         (detections_of beacon)) in
  let result := getValidReceivers beacon now threshold in
  Permutation result passing
  /\ (strengths_recorded beacon now threshold ->
      StronglySorted stronger_first result
      /\ forall z,
           filter (fun r => strength r =? z) result
           = filter (fun r => strength r =? z) passing)
  /\ (passing = [] -> result = []).
Proof.
  intros passing result. subst result passing.
  split; [apply getValidReceivers_perm|]. split.
  - intros Hrec. split; [now apply getValidReceivers_sorted|].
    intros z. rewrite getValidReceivers_filter_sort.
    apply Array_sort_stable. now apply ranked_numeric.
  - rewrite getValidReceivers_filter_sort. intros ->. reflexivity.
Qed.

Lemma sorted_split (l before after : list Receiver.t) (x : Receiver.t) :
  StronglySorted stronger_first l ->
  l = before ++ x :: after ->
  Forall (fun r => strength x <= strength r) before
  /\ Forall (fun r => strength r <= strength x) after.
Proof.
  revert l. induction before as [|y before IH]; intros l Hs ->.
  - split; [constructor|].
    cbn in Hs. inversion Hs; subst. assumption.
  - cbn in Hs. inversion Hs as [|? ? Hs' Hy]; subst.
    destruct (IH _ Hs' eq_refl) as [Hb Ha]. split; [|exact Ha].
    constructor; [|exact Hb].
    rewrite Forall_forall in Hy. apply Hy. apply in_or_app. right. now left.
Qed.

(** C10, as the code has it.  For a detection that passes the staleness
    test, the element returned carries -100 when the stored [rssi] is null
    or undefined (and the stored value otherwise), and [false] when the
    stored [online] is falsy (and the stored value otherwise); with
    strengths that are numbers or absent, an element with no stored strength
    ranks as a -100 reading: every element before it has strength at least
    -100 and every element after it at most -100. *)
Theorem getValidReceivers_defaults (beacon : option Beacon.t)
    (now threshold : Z) (id : jsstring) (d : Detection.t) :
  In (id, d) (detections_of beacon) ->
  passes_filter now threshold d = true ->
  let r := ranked (id, d) in
  In r (getValidReceivers beacon now threshold)
  /\ Receiver.deviceId r = id
  /\ Receiver.rssi r
     = (if nullish (Detection.rssi d) then VNum (Num (-100))
        else Detection.rssi d)
  /\ Receiver.online r
     = (if truthy (Detection.online d) then Detection.online d
        else VBool false)
  /\ (strengths_recorded beacon now threshold ->
      nullish (Detection.rssi d) = true ->
      strength r = -100
      /\ forall before after,
           getValidReceivers beacon now threshold = before ++ r :: after ->
           Forall (fun r' => -100 <= strength r') before
           /\ Forall (fun r' => strength r' <= -100) after).
Proof.
  intros Hin Hp r.
  pose proof (getValidReceivers_perm beacon now threshold) as Hperm.
  split; [|split; [reflexivity|split; [reflexivity|split; [reflexivity|]]]].
  - apply (Permutation_in _ (Permutation_sym Hperm)).
    apply (in_map ranked _ (id, d)). apply filter_In. now split.
  - intros Hrec Hnull.
    assert (Hr : strength r = -100).
    { unfold strength, r, ranked, receiver_of, js_coalesce. cbn.
      now rewrite Hnull. }
    split; [exact Hr|]. intros before after Heq.
    pose proof (getValidReceivers_sorted _ _ _ Hrec) as Hs.
    destruct (sorted_split _ _ _ _ Hs Heq) as [Hb Ha].
    rewrite Hr in Hb, Ha. now split.
Qed.

(** ** Facts about objects used as maps *)

Lemma obj_get_app_notin {A} (a b : obj A) (k : jsstring) :
  ~ In k (obj_keys a) -> obj_get (a ++ b) k = obj_get b k.
Proof.
  induction a as [|[k' v] a IH]; simpl; [reflexivity|].
  intros Hnotin. destruct (str_eqb k' k) eqn:E.
  - apply str_eqb_eq in E. subst. exfalso. apply Hnotin. now left.
  - apply IH. intros H. apply Hnotin. now right.
Qed.

Lemma obj_get_here {A} (o : obj A) (k : jsstring) (v : A) :
  obj_get ((k, v) :: o) k = Some v.
Proof. simpl. now rewrite str_eqb_refl. Qed.

Lemma obj_delete_notin {A} (o : obj A) (k : jsstring) :
  ~ In k (obj_keys o) -> obj_delete o k = o.
Proof.
  induction o as [|[k' v] o IH]; simpl; [reflexivity|].
  intros Hnotin. destruct (str_eqb k' k) eqn:E; simpl.
  - apply str_eqb_eq in E. subst. exfalso. apply Hnotin. now left.
  - f_equal. apply IH. intros H. apply Hnotin. now right.
Qed.

Lemma obj_delete_middle {A} (a b : obj A) (k : jsstring) (v : A) :
  ~ In k (obj_keys a) -> ~ In k (obj_keys b) ->
  obj_delete (a ++ (k, v) :: b) k = a ++ b.
Proof.
  intros Ha Hb. unfold obj_delete. rewrite filter_app. simpl.
  rewrite str_eqb_refl. simpl.
  fold (obj_delete a k). fold (obj_delete b k).
  now rewrite !obj_delete_notin.
Qed.

Lemma obj_replace_middle {A} (a b : obj A) (k : jsstring) (v v' : A) :
  ~ In k (obj_keys a) ->
  obj_replace (a ++ (k, v) :: b) k v' = a ++ (k, v') :: b.
Proof.
  induction a as [|[k' w] a IH]; simpl; intros Ha.
  - now rewrite str_eqb_refl.
  - destruct (str_eqb k' k) eqn:E.
    + apply str_eqb_eq in E. subst. exfalso. apply Ha. now left.
    + f_equal. apply IH. intros H. apply Ha. now right.
Qed.

Lemma obj_set_middle {A} (a b : obj A) (k : jsstring) (v v' : A) :
  ~ In k (obj_keys a) ->
  obj_set (a ++ (k, v) :: b) k v' = a ++ (k, v') :: b.
Proof.
  intros Ha. unfold obj_set, obj_has.
  rewrite (obj_get_app_notin _ _ _ Ha), obj_get_here.
  now apply obj_replace_middle.
Qed.

Lemma obj_keys_app {A} (a b : obj A) :
  obj_keys (a ++ b) = obj_keys a ++ obj_keys b.
Proof. apply map_app. Qed.

Lemma obj_keys_filter_In {A} (f : jsstring * A -> bool) (o : obj A)
    (k : jsstring) :
  In k (obj_keys (filter f o)) -> In k (obj_keys o).
Proof.
  unfold obj_keys. rewrite !in_map_iff.
  intros (p & Hk & Hp). apply filter_In in Hp as [Hp _]. now exists p.
Qed.

Lemma NoDup_keys_middle {A} (a b : obj A) (k : jsstring) (v : A) :
  NoDup (obj_keys (a ++ (k, v) :: b)) ->
  ~ In k (obj_keys a) /\ ~ In k (obj_keys b).
Proof.
  rewrite obj_keys_app. simpl. intros H.
  apply NoDup_remove_2 in H. split; intros Hin; apply H, in_or_app; auto.
Qed.

(** ** Facts about the sweep *)

Lemma sweep_devices_loop (now : Z) (rest done : obj Device.t) (c : nat) :
  NoDup (obj_keys (done ++ rest)) ->
  fst (fold_left (sweep_device_step now) (obj_keys rest)
         (filter (keep_device now) done ++ rest, c))
  = filter (keep_device now) (done ++ rest).
Proof.
  revert done c. induction rest as [|[k v] rest IH]; intros done c Hnd.
  - cbn [obj_keys map fold_left fst]. now rewrite !app_nil_r.
  - destruct (NoDup_keys_middle _ _ _ _ Hnd) as [Hdone Hrest].
    assert (Hf : ~ In k (obj_keys (filter (keep_device now) done))).
    { intros H. apply Hdone. eapply obj_keys_filter_In, H. }
    cbn [obj_keys map fst fold_left]. unfold sweep_device_step at 2.
    rewrite (obj_get_app_notin _ _ _ Hf), obj_get_here.
    specialize (IH (done ++ [(k, v)]) ).
    rewrite <- app_assoc in IH. cbn [app] in IH.
    rewrite filter_app in IH. cbn [filter] in IH.
    unfold keep_device at 2 in IH. unfold age_exceeds in IH. cbn [snd] in IH.
    destruct (js_gt _ _); cbn [negb] in IH.
    + rewrite (obj_delete_middle _ _ _ _ Hf Hrest).
      rewrite app_nil_r in IH. now apply IH.
    + rewrite <- app_assoc in IH. now apply IH.
Qed.

Lemma sweep_devices_filter (now : Z) (devices : obj Device.t) :
  NoDup (obj_keys devices) ->
  fst (sweep_devices now devices) = filter (keep_device now) devices.
Proof.
  intros Hnd. apply (sweep_devices_loop now devices [] 0%nat Hnd).
Qed.

Lemma sweep_detections_loop (now : Z) (rest done : obj Detection.t) (c : nat)
    (recent : bool) :
  NoDup (obj_keys (done ++ rest)) ->
  let '(ds, _, recent') :=
    fold_left (sweep_detection_step now) (obj_keys rest)
      (filter (keep_detection now) done ++ rest, c, recent) in
  ds = filter (keep_detection now) (done ++ rest)
  /\ recent' = recent || existsb (keep_detection now) rest.
Proof.
  revert done c recent.
  induction rest as [|[k v] rest IH]; intros done c recent Hnd.
  - cbn [obj_keys map fold_left existsb]. now rewrite !app_nil_r, orb_false_r.
  - destruct (NoDup_keys_middle _ _ _ _ Hnd) as [Hdone Hrest].
    assert (Hf : ~ In k (obj_keys (filter (keep_detection now) done))).
    { intros H. apply Hdone. eapply obj_keys_filter_In, H. }
    cbn [obj_keys map fst fold_left existsb].
    unfold sweep_detection_step at 2.
    rewrite (obj_get_app_notin _ _ _ Hf), obj_get_here.
    specialize (IH (done ++ [(k, v)])).
    rewrite <- app_assoc in IH. cbn [app] in IH.
    rewrite filter_app in IH. cbn [filter] in IH.
    unfold keep_detection at 2 4. unfold keep_detection at 2 in IH.
    unfold age_exceeds in *. cbn [snd] in *.
    destruct (js_gt _ _); cbn [negb orb] in *.
    + rewrite (obj_delete_middle _ _ _ _ Hf Hrest).
      rewrite app_nil_r in IH. now apply IH.
    + rewrite <- app_assoc in IH.
      specialize (IH c true Hnd). rewrite orb_true_r. exact IH.
Qed.

Lemma sweep_detections_filter (now : Z) (ds : obj Detection.t) :
  NoDup (obj_keys ds) ->
  sweep_detections now ds
  = (filter (keep_detection now) ds,
     snd (fst (sweep_detections now ds)),
     existsb (keep_detection now) ds).
Proof.
  intros Hnd. pose proof (sweep_detections_loop now ds [] 0%nat false Hnd) as H.
  unfold sweep_detections. cbn [filter app] in H.
  destruct (fold_left _ _ _) as [[ds' n] recent]. cbn in *.
  destruct H as [-> ->]. reflexivity.
Qed.

Lemma filter_map_app {A B} (f : A -> option B) (l1 l2 : list A) :
  filter_map f (l1 ++ l2) = filter_map f l1 ++ filter_map f l2.
Proof.
  induction l1 as [|x l1 IH]; simpl; [reflexivity|].
  destruct (f x); simpl; now rewrite IH.
Qed.

Lemma filter_map_In {A B} (f : A -> option B) (l : list A) (y : B) :
  In y (filter_map f l) <-> exists x, In x l /\ f x = Some y.
Proof.
  induction l as [|x l IH]; simpl.
  - split; [tauto|]. now intros (? & [] & _).
  - destruct (f x) eqn:E; simpl; rewrite IH; split.
    + intros [<-|(x' & Hin & Hx')]; [now exists x; auto|exists x'; auto].
    + intros (x' & [<-|Hin] & Hx'); [left; congruence|right; now exists x'].
    + intros (x' & Hin & Hx'). exists x'; auto.
    + intros (x' & [<-|Hin] & Hx'); [congruence|now exists x'].
Qed.

Lemma prune_beacon_key (now : Z) (entry kept : jsstring * Beacon.t) :
  prune_beacon now entry = Some kept -> fst kept = fst entry.
Proof.
  unfold prune_beacon. destruct (Beacon.detections (snd entry)); [|discriminate].
  destruct (existsb _ _); [|discriminate]. now intros [= <-].
Qed.

Lemma prune_keys_In (now : Z) (o : obj Beacon.t) (k : jsstring) :
  In k (obj_keys (filter_map (prune_beacon now) o)) -> In k (obj_keys o).
Proof.
  unfold obj_keys. rewrite !in_map_iff.
  intros (p & Hk & Hp). apply filter_map_In in Hp as (e & Hin & He).
  exists e. split; [|exact Hin].
  apply prune_beacon_key in He. congruence.
Qed.

Lemma sweep_beacons_loop (now : Z) (rest done : obj Beacon.t) (c : nat) :
  NoDup (obj_keys (done ++ rest)) ->
  (forall mac b, In (mac, b) rest -> detections_wf b) ->
  fst (fold_left (sweep_beacon_step now) (obj_keys rest)
         (filter_map (prune_beacon now) done ++ rest, c))
  = filter_map (prune_beacon now) (done ++ rest).
Proof.
  revert done c. induction rest as [|[k v] rest IH]; intros done c Hnd Hwf.
  - cbn [obj_keys map fold_left fst]. now rewrite !app_nil_r.
  - destruct (NoDup_keys_middle _ _ _ _ Hnd) as [Hdone Hrest].
    assert (Hf : ~ In k (obj_keys (filter_map (prune_beacon now) done))).
    { intros H. apply Hdone. eapply prune_keys_In, H. }
    assert (Hwf' : forall mac b, In (mac, b) rest -> detections_wf b).
    { intros mac b Hin. apply (Hwf mac b). now right. }
    assert (Hv : detections_wf v) by (apply (Hwf k v); now left).
    cbn [obj_keys map fst fold_left]. unfold sweep_beacon_step at 2.
    rewrite (obj_get_app_notin _ _ _ Hf), obj_get_here.
    specialize (IH (done ++ [(k, v)])).
    rewrite <- app_assoc in IH. cbn [app] in IH.
    rewrite filter_map_app in IH. cbn [filter_map] in IH.
    unfold prune_beacon at 2 in IH. cbn [fst snd] in IH.
    unfold detections_wf, detections_of in Hv.
    destruct (Beacon.detections v) as [ds|].
    + rewrite (sweep_detections_filter now ds Hv).
      destruct (existsb (keep_detection now) ds); cbn [negb].
      * rewrite (obj_set_middle _ _ _ _ _ Hf).
        rewrite <- app_assoc in IH. cbn [app] in IH. now apply IH.
      * rewrite (obj_delete_middle _ _ _ _ Hf Hrest).
        rewrite app_nil_r in IH. now apply IH.
    + cbn [negb]. rewrite (obj_delete_middle _ _ _ _ Hf Hrest).
      rewrite app_nil_r in IH. now apply IH.
Qed.

Lemma sweep_filter (now : Z) (data : Registry.t) :
  registry_wf data ->
  fst (sweep now data)
  = Registry.mk (filter (keep_device now) (Registry.devices data))
      (filter_map (prune_beacon now) (Registry.beacons data)).
Proof.
  intros (Hd & Hb & Hds). unfold sweep.
  pose proof (sweep_devices_filter now _ Hd) as H1.
  pose proof (sweep_beacons_loop now (Registry.beacons data) [] 0%nat Hb Hds) as H2.
  cbn [filter_map app] in H2.
  change (fold_left (sweep_beacon_step now) (obj_keys (Registry.beacons data))
            (Registry.beacons data, 0%nat))
    with (sweep_beacons now (Registry.beacons data)) in H2.
  destruct (sweep_devices now _) as [ds n1].
  destruct (sweep_beacons now _) as [bs n2].
  cbn [fst] in *. now rewrite H1, H2.
Qed.



(** *** Assignment to a property *)

Lemma obj_has_In {A} (o : obj A) (k : jsstring) :
  obj_has o k = true <-> In k (obj_keys o).
Proof.
  unfold obj_has. induction o as [|[k' v] o IH]; simpl.
  - split; [discriminate|tauto].
  - destruct (str_eqb k' k) eqn:E.
    + apply str_eqb_eq in E. subst. split; auto.
    + apply str_eqb_neq in E. rewrite IH. split; [auto|].
      intros [H|H]; [congruence|exact H].
Qed.

Lemma obj_has_false {A} (o : obj A) (k : jsstring) :
  obj_has o k = false <-> ~ In k (obj_keys o).
Proof.
  rewrite <- obj_has_In. destruct (obj_has o k); split; congruence.
Qed.

Lemma obj_replace_keys {A} (o : obj A) (k : jsstring) (v : A) :
  obj_keys (obj_replace o k v) = obj_keys o.
Proof.
  induction o as [|[k' w] o IH]; simpl; [reflexivity|].
  destruct (str_eqb k' k); simpl; [reflexivity|]. now rewrite IH.
Qed.

Lemma obj_add_keys_perm {A} (o : obj A) (k : jsstring) (v : A) :
  Permutation (obj_keys (obj_add o k v)) (k :: obj_keys o).
Proof.
  induction o as [|[k' w] o IH]; simpl; [reflexivity|].
  destruct (key_before k k'); simpl; [reflexivity|].
  rewrite IH. apply perm_swap.
Qed.

Lemma obj_set_NoDup {A} (o : obj A) (k : jsstring) (v : A) :
  NoDup (obj_keys o) -> NoDup (obj_keys (obj_set o k v)).
Proof.
  intros Hnd. unfold obj_set. destruct (obj_has o k) eqn:E.
  - now rewrite obj_replace_keys.
  - eapply Permutation_NoDup; [apply Permutation_sym, obj_add_keys_perm|].
    constructor; [now apply obj_has_false|exact Hnd].
Qed.

Lemma obj_set_keys_present {A} (o : obj A) (k : jsstring) (v : A) :
  obj_has o k = true -> obj_keys (obj_set o k v) = obj_keys o.
Proof.
  intros H. unfold obj_set. rewrite H. apply obj_replace_keys.
Qed.

Lemma obj_get_replace {A} (o : obj A) (k k' : jsstring) (v : A) :
  obj_get (obj_replace o k v) k'
  = if str_eqb k k' then option_map (fun _ => v) (obj_get o k')
    else obj_get o k'.
Proof.
  induction o as [|[k0 w] o IH]; simpl.
  - now destruct (str_eqb k k').
  - destruct (str_eqb k0 k) eqn:E0; simpl.
    + apply str_eqb_eq in E0. subst k0.
      destruct (str_eqb k k'); reflexivity.
    + destruct (str_eqb k0 k') eqn:E1.
      * apply str_eqb_eq in E1. subst k0.
        rewrite str_eqb_sym in E0. now rewrite E0.
      * exact IH.
Qed.

Lemma obj_get_add {A} (o : obj A) (k k' : jsstring) (v : A) :
  obj_has o k = false ->
  obj_get (obj_add o k v) k' = if str_eqb k k' then Some v else obj_get o k'.
Proof.
  intros Hno. apply obj_has_false in Hno.
  induction o as [|[k0 w] o IH]; simpl.
  - reflexivity.
  - assert (Hk0 : str_eqb k0 k = false).
    { apply str_eqb_neq. intros ->. apply Hno. now left. }
    destruct (key_before k k0); simpl.
    + destruct (str_eqb k k') eqn:E; [reflexivity|reflexivity].
    + destruct (str_eqb k0 k') eqn:E1.
      * apply str_eqb_eq in E1. subst k0.
        rewrite str_eqb_sym in Hk0. now rewrite Hk0.
      * apply IH. intros H. apply Hno. now right.
Qed.

Lemma obj_get_set {A} (o : obj A) (k k' : jsstring) (v : A) :
  obj_get (obj_set o k v) k' = if str_eqb k k' then Some v else obj_get o k'.
Proof.
  unfold obj_set. destruct (obj_has o k) eqn:E.
  - rewrite obj_get_replace. destruct (str_eqb k k') eqn:Ek; [|reflexivity].
    apply str_eqb_eq in Ek. subst k'. unfold obj_has in E.
    now destruct (obj_get o k).
  - now apply obj_get_add.
Qed.

Lemma obj_get_set_same {A} (o : obj A) (k : jsstring) (v : A) :
  obj_get (obj_set o k v) k = Some v.
Proof. now rewrite obj_get_set, str_eqb_refl. Qed.

Lemma obj_get_In {A} (o : obj A) (k : jsstring) (v : A) :
  obj_get o k = Some v -> In (k, v) o.
Proof.
  induction o as [|[k' w] o IH]; simpl; [discriminate|].
  destruct (str_eqb k' k) eqn:E.
  - apply str_eqb_eq in E. subst. intros [= ->]. now left.
  - intros H. right. now apply IH.
Qed.

Lemma obj_In_get {A} (o : obj A) (k : jsstring) (v : A) :
  NoDup (obj_keys o) -> In (k, v) o -> obj_get o k = Some v.
Proof.
  induction o as [|[k' w] o IH]; simpl; [tauto|].
  intros Hnd [Hin|Hin].
  - inversion Hin; subst. now rewrite str_eqb_refl.
  - inversion Hnd as [|? ? Hnotin Hnd']; subst.
    destruct (str_eqb k' k) eqn:E.
    + apply str_eqb_eq in E. subst. exfalso. apply Hnotin.
      apply (in_map fst) in Hin. exact Hin.
    + now apply IH.
Qed.

Lemma obj_replace_In {A} (o : obj A) (k m : jsstring) (v x : A) :
  In (m, x) (obj_replace o k v) -> (m = k /\ x = v) \/ In (m, x) o.
Proof.
  induction o as [|[k' w] o IH]; simpl; [tauto|].
  destruct (str_eqb k' k) eqn:E; simpl.
  - apply str_eqb_eq in E. subst. intros [H|H]; [inversion H; auto|auto].
  - intros [H|H]; [auto|]. destruct (IH H); auto.
Qed.

Lemma obj_add_In {A} (o : obj A) (k m : jsstring) (v x : A) :
  In (m, x) (obj_add o k v) -> (m = k /\ x = v) \/ In (m, x) o.
Proof.
  induction o as [|[k' w] o IH]; simpl.
  - intros [H|[]]. inversion H; auto.
  - destruct (key_before k k'); simpl.
    + intros [H|H]; [inversion H; auto|auto].
    + intros [H|H]; [auto|]. destruct (IH H); auto.
Qed.

Lemma obj_set_In {A} (o : obj A) (k m : jsstring) (v x : A) :
  In (m, x) (obj_set o k v) -> (m = k /\ x = v) \/ In (m, x) o.
Proof.
  unfold obj_set. destruct (obj_has o k).
  - apply obj_replace_In.
  - apply obj_add_In.
Qed.

Lemma obj_replace_same {A} (o : obj A) (k : jsstring) (v : A) :
  obj_get o k = Some v -> obj_replace o k v = o.
Proof.
  induction o as [|[k' w] o IH]; simpl; [reflexivity|].
  destruct (str_eqb k' k); [now intros [= ->]|].
  intros H. now rewrite IH.
Qed.

Lemma obj_set_same {A} (o : obj A) (k : jsstring) (v : A) :
  obj_get o k = Some v -> obj_set o k v = o.
Proof.
  intros H. unfold obj_set, obj_has. rewrite H. now apply obj_replace_same.
Qed.

Lemma map_values_keys {A B} (f : A -> B) (o : obj A) :
  obj_keys (map_values f o) = obj_keys o.
Proof.
  unfold obj_keys, map_values. rewrite map_map. reflexivity.
Qed.

Lemma map_values_get {A B} (f : A -> B) (o : obj A) (k : jsstring) :
  obj_get (map_values f o) k = option_map f (obj_get o k).
Proof.
  induction o as [|[k' w] o IH]; simpl; [reflexivity|].
  destruct (str_eqb k' k); [reflexivity|exact IH].
Qed.

Lemma map_values_has {A B} (f : A -> B) (o : obj A) (k : jsstring) :
  obj_has (map_values f o) k = obj_has o k.
Proof.
  unfold obj_has. rewrite map_values_get. now destruct (obj_get o k).
Qed.

Lemma map_values_replace {A B} (f : A -> B) (o : obj A) (k : jsstring) (v : A) :
  map_values f (obj_replace o k v) = obj_replace (map_values f o) k (f v).
Proof.
  induction o as [|[k' w] o IH]; simpl; [reflexivity|].
  destruct (str_eqb k' k); simpl; [reflexivity|]. now rewrite IH.
Qed.

Lemma map_values_add {A B} (f : A -> B) (o : obj A) (k : jsstring) (v : A) :
  map_values f (obj_add o k v) = obj_add (map_values f o) k (f v).
Proof.
  induction o as [|[k' w] o IH]; simpl; [reflexivity|].
  destruct (key_before k k'); simpl; [reflexivity|]. now rewrite IH.
Qed.

Lemma map_values_set {A B} (f : A -> B) (o : obj A) (k : jsstring) (v : A) :
  map_values f (obj_set o k v) = obj_set (map_values f o) k (f v).
Proof.
  unfold obj_set. rewrite map_values_has. destruct (obj_has o k).
  - apply map_values_replace.
  - apply map_values_add.
Qed.

Lemma map_values_map_values {A B C} (f : A -> B) (g : B -> C) (o : obj A) :
  map_values g (map_values f o) = map_values (fun x => g (f x)) o.
Proof.
  unfold map_values. rewrite map_map. reflexivity.
Qed.

Lemma map_values_In {A B} (f : A -> B) (o : obj A) (k : jsstring) (y : B) :
  In (k, y) (map_values f o) -> exists x, In (k, x) o /\ y = f x.
Proof.
  unfold map_values. rewrite in_map_iff.
  intros ([k' x] & [= -> <-] & Hin). now exists x.
Qed.

(** ** Facts about ingestion *)

(** *** Assignment through [__proto__] *)

Lemma inherits_proto (k : jsstring) :
  inherits k = false -> str_eqb k proto_key = false.
Proof.
  unfold inherits. intros H. now apply orb_false_iff in H as [H _].
Qed.

Lemma obj_assign_set {A} (o : obj A) (k : jsstring) (v : A) :
  str_eqb k proto_key = false -> obj_assign o k v = obj_set o k v.
Proof. unfold obj_assign. now intros ->. Qed.

Lemma obj_assign_cases {A} (o : obj A) (k : jsstring) (v : A) :
  obj_assign o k v = o \/ obj_assign o k v = obj_set o k v.
Proof. unfold obj_assign. destruct (_ && _); auto. Qed.

Lemma obj_assign_NoDup {A} (o : obj A) (k : jsstring) (v : A) :
  NoDup (obj_keys o) -> NoDup (obj_keys (obj_assign o k v)).
Proof.
  intros H. destruct (obj_assign_cases o k v) as [-> | ->];
    [exact H|now apply obj_set_NoDup].
Qed.

Lemma obj_assign_In {A} (o : obj A) (k m : jsstring) (v x : A) :
  In (m, x) (obj_assign o k v) -> (m = k /\ x = v) \/ In (m, x) o.
Proof.
  destruct (obj_assign_cases o k v) as [-> | ->]; [auto|apply obj_set_In].
Qed.

Lemma obj_has_set {A} (o : obj A) (k k' : jsstring) (v : A) :
  obj_has (obj_set o k v) k' = str_eqb k k' || obj_has o k'.
Proof.
  unfold obj_has at 1. rewrite obj_get_set.
  destruct (str_eqb k k'); reflexivity.
Qed.

Lemma obj_assign_has_proto {A} (o : obj A) (k : jsstring) (v : A) :
  obj_has o proto_key = false -> obj_has (obj_assign o k v) proto_key = false.
Proof.
  intros H. unfold obj_assign.
  destruct (str_eqb k proto_key) eqn:E; cbn [andb].
  - apply str_eqb_eq in E. subst k. rewrite H. cbn [negb]. exact H.
  - now rewrite obj_has_set, E.
Qed.

Lemma map_values_assign {A B} (f : A -> B) (o : obj A) (k : jsstring) (v : A) :
  map_values f (obj_assign o k v) = obj_assign (map_values f o) k (f v).
Proof.
  unfold obj_assign. rewrite map_values_has.
  destruct (_ && _); [reflexivity|apply map_values_set].
Qed.

Lemma obj_get_assign {A} (o : obj A) (k k' : jsstring) (v : A) :
  str_eqb k proto_key = false ->
  obj_get (obj_assign o k v) k' = if str_eqb k k' then Some v else obj_get o k'.
Proof.
  intros H. rewrite (obj_assign_set _ _ _ H). apply obj_get_set.
Qed.




(** *** What [decodeObject] keeps of a map *)

Lemma filter_proto_ordinary {A} (o : obj A) :
  obj_has o proto_key = false ->
  filter (fun p => negb (str_eqb (fst p) proto_key)) o = o.
Proof.
  unfold obj_has. induction o as [|[k v] o IH]; cbn [filter obj_get fst];
    [reflexivity|].
  destruct (str_eqb k proto_key); [discriminate|]. cbn [negb].
  intros H. now rewrite IH.
Qed.

Lemma NoDup_keys_filter {A} (p : jsstring * A -> bool) (o : obj A) :
  NoDup (obj_keys o) -> NoDup (obj_keys (filter p o)).
Proof.
  induction o as [|[k v] o IH]; [trivial|]. unfold obj_keys in *.
  cbn [map fst filter]. intros H. inversion H as [|? ? Hk Ho]; subst.
  destruct (p (k, v)); [|now apply IH]. cbn [map fst]. constructor.
  - intros Hin. apply Hk. now apply (obj_keys_filter_In p).
  - now apply IH.
Qed.

Lemma decode_map_keys_NoDup {A B} (f : A -> B) (o : obj A) :
  NoDup (obj_keys o) -> NoDup (obj_keys (decode_map f o)).
Proof.
  intros H. unfold decode_map. rewrite map_values_keys.
  now apply NoDup_keys_filter.
Qed.

Lemma decode_map_In {A B} (f : A -> B) (o : obj A) (k : jsstring) (y : B) :
  In (k, y) (decode_map f o) -> exists x, In (k, x) o /\ y = f x.
Proof.
  unfold decode_map. intros H. apply map_values_In in H as (x & Hin & ->).
  apply filter_In in Hin as [Hin _]. now exists x.
Qed.

Lemma decode_map_ordinary {A B} (f : A -> B) (o : obj A) :
  ordinary o = true -> decode_map f o = map_values f o.
Proof.
  unfold ordinary, decode_map. intros H. apply negb_true_iff in H.
  now rewrite filter_proto_ordinary.
Qed.


Lemma loadData_eq (f : file) :
  loadData f
  = Ok (Registry.mk (decode_map decodeDevice (file_devices f))
          (decode_map decodeBeacon (file_beacons f))).
Proof.
  unfold loadData, file_devices, file_beacons, beacons_of_document, document_of.
  destruct f as [[raw|doc]|]; try reflexivity.
  cbn. destruct (Document.devices doc), (Document.beacons doc); reflexivity.
Qed.

Lemma file_ordinary_parts (f : file) :
  file_ordinary f = true ->
  ordinary (file_devices f) = true
  /\ ordinary (file_beacons f) = true
  /\ forall mac b, In (mac, b) (file_beacons f) ->
                   ordinary (detections_of (Some b)) = true.
Proof.
  unfold file_ordinary. intros H.
  apply andb_true_iff in H as [H H3]. apply andb_true_iff in H as [H1 H2].
  split; [exact H1|]. split; [exact H2|]. intros mac b Hin.
  rewrite forallb_forall in H3. exact (H3 (mac, b) Hin).
Qed.


(** *** One entry per key *)

Lemma beacons_wf_set (bs : obj Beacon.t) (k : jsstring) (v : Beacon.t) :
  beacons_wf bs -> detections_wf v -> beacons_wf (obj_set bs k v).
Proof.
  intros [Hnd Hall] Hv. split; [now apply obj_set_NoDup|].
  intros mac b Hin. apply obj_set_In in Hin as [[_ ->]|Hin]; [exact Hv|].
  now apply (Hall mac).
Qed.

Lemma beacons_wf_get (bs : obj Beacon.t) (k : jsstring) (b : Beacon.t) :
  beacons_wf bs -> obj_get bs k = Some b -> detections_wf b.
Proof.
  intros [_ Hall] Hget. apply (Hall k). now apply obj_get_In.
Qed.

Lemma ensure_beacon_wf (now : Z) (beacon : BeaconReport.t) (mac : jsstring)
    (data : Registry.t) :
  beacons_wf (Registry.beacons data) ->
  beacons_wf (Registry.beacons (ensure_beacon now beacon mac data)).
Proof.
  intros H. unfold ensure_beacon.
  destruct (obj_get (Registry.beacons data) mac); [exact H|].
  destruct (inherits mac) eqn:Ei; [exact H|].
  cbn [set_beacons Registry.beacons].
  rewrite (obj_assign_set _ _ _ (inherits_proto _ Ei)).
  apply beacons_wf_set; [exact H|]. constructor.
Qed.

Lemma rename_beacon_wf (beacon : BeaconReport.t) (mac : jsstring)
    (data data' : Registry.t) :
  beacons_wf (Registry.beacons data) ->
  rename_beacon beacon mac data = Ok data' ->
  beacons_wf (Registry.beacons data').
Proof.
  intros H. unfold rename_beacon.
  destruct (truthy (BeaconReport.name beacon)); [|now intros [= <-]].
  destruct (obj_get (Registry.beacons data) mac) as [b|] eqn:E.
  - intros [= <-]. cbn [set_beacons Registry.beacons].
    apply beacons_wf_set; [exact H|]. exact (beacons_wf_get _ _ _ H E).
  - destruct (str_eqb mac proto_key); [now intros [= <-]|discriminate].
Qed.

Lemma record_detection_wf (e : Event.t) (now : Z) (beacon : BeaconReport.t)
    (mac : jsstring) (r : value) (data data' : Registry.t) :
  beacons_wf (Registry.beacons data) ->
  record_detection e now beacon mac r data = Ok data' ->
  beacons_wf (Registry.beacons data').
Proof.
  intros H. unfold record_detection.
  destruct (obj_get (Registry.beacons data) mac) as [b|] eqn:E; [|discriminate].
  destruct (Beacon.detections b) as [ds|] eqn:Eds; [|discriminate].
  intros [= <-]. cbn [set_beacons Registry.beacons].
  apply beacons_wf_set; [exact H|].
  pose proof (beacons_wf_get _ _ _ H E) as Hb.
  unfold detections_wf, detections_of in *. cbn [Beacon.detections].
  rewrite Eds in Hb. now apply obj_assign_NoDup.
Qed.

Lemma ensure_beacon_devices (now : Z) (beacon : BeaconReport.t)
    (mac : jsstring) (data : Registry.t) :
  Registry.devices (ensure_beacon now beacon mac data) = Registry.devices data.
Proof.
  unfold ensure_beacon. destruct (obj_get _ _); [reflexivity|].
  now destruct (inherits mac).
Qed.

Lemma rename_beacon_devices (beacon : BeaconReport.t) (mac : jsstring)
    (data data' : Registry.t) :
  rename_beacon beacon mac data = Ok data' ->
  Registry.devices data' = Registry.devices data.
Proof.
  unfold rename_beacon. destruct (truthy _); [|now intros [= <-]].
  destruct (obj_get _ _); [now intros [= <-]|].
  destruct (str_eqb mac proto_key); [now intros [= <-]|discriminate].
Qed.

Lemma record_detection_devices (e : Event.t) (now : Z)
    (beacon : BeaconReport.t) (mac : jsstring) (r : value)
    (data data' : Registry.t) :
  record_detection e now beacon mac r data = Ok data' ->
  Registry.devices data' = Registry.devices data.
Proof.
  unfold record_detection.
  destruct (obj_get _ _) as [b|]; [|discriminate].
  destruct (Beacon.detections b); [|discriminate]. now intros [= <-].
Qed.

(** One loop iteration that ends normally, step by step. *)
Lemma ingest_beacon_steps (e : Event.t) (now : Z) (data data' : Registry.t)
    (beacon : BeaconReport.t) :
  truthy (BeaconReport.mac beacon) = true ->
  ingest_beacon e now data beacon = Ok data' ->
  exists renamed r,
    rename_beacon beacon (ToString (BeaconReport.mac beacon))
      (ensure_beacon now beacon (ToString (BeaconReport.mac beacon)) data)
    = Ok renamed
    /\ rssiValue_of (BeaconReport.rssi beacon) = Ok r
    /\ record_detection e now beacon (ToString (BeaconReport.mac beacon)) r
         renamed = Ok data'.
Proof.
  intros Hb. unfold ingest_beacon. rewrite Hb. cbn [negb].
  destruct (rename_beacon _ _ _) as [renamed|]; cbn [bind]; [|discriminate].
  destruct (rssiValue_of _) as [r|]; cbn [bind]; [|discriminate].
  intros H. now exists renamed, r.
Qed.

Lemma ingest_beacon_devices (e : Event.t) (now : Z) (data data' : Registry.t)
    (beacon : BeaconReport.t) :
  ingest_beacon e now data beacon = Ok data' ->
  Registry.devices data' = Registry.devices data.
Proof.
  destruct (truthy (BeaconReport.mac beacon)) eqn:Hb.
  - intros H. apply (ingest_beacon_steps _ _ _ _ _ Hb) in H
      as (renamed & r & H1 & _ & H2).
    apply record_detection_devices in H2. apply rename_beacon_devices in H1.
    now rewrite H2, H1, ensure_beacon_devices.
  - unfold ingest_beacon. rewrite Hb. now intros [= <-].
Qed.

Lemma ingest_beacons_devices (e : Event.t) (now : Z)
    (beacons : list BeaconReport.t) (data data' : Registry.t) :
  ingest_beacons e now data beacons = Ok data' ->
  Registry.devices data' = Registry.devices data.
Proof.
  revert data. induction beacons as [|b rest IH]; intros data; cbn.
  - now intros [= <-].
  - destruct (ingest_beacon e now data b) as [d1|] eqn:E; [|discriminate].
    cbn. intros H. rewrite (IH _ H). now apply ingest_beacon_devices in E.
Qed.

Lemma ingest_beacon_wf (e : Event.t) (now : Z) (data data' : Registry.t)
    (beacon : BeaconReport.t) :
  beacons_wf (Registry.beacons data) ->
  ingest_beacon e now data beacon = Ok data' ->
  beacons_wf (Registry.beacons data').
Proof.
  intros Hwf. destruct (truthy (BeaconReport.mac beacon)) eqn:Hb.
  - intros H. apply (ingest_beacon_steps _ _ _ _ _ Hb) in H
      as (renamed & r & H1 & _ & H2).
    eapply record_detection_wf; [|exact H2].
    eapply rename_beacon_wf; [|exact H1]. now apply ensure_beacon_wf.
  - unfold ingest_beacon. rewrite Hb. now intros [= <-].
Qed.

Lemma ingest_beacons_wf (e : Event.t) (now : Z)
    (beacons : list BeaconReport.t) (data data' : Registry.t) :
  beacons_wf (Registry.beacons data) ->
  ingest_beacons e now data beacons = Ok data' ->
  beacons_wf (Registry.beacons data').
Proof.
  revert data. induction beacons as [|b rest IH]; intros data H; cbn.
  - now intros [= <-].
  - destruct (ingest_beacon e now data b) as [d1|] eqn:E; [|discriminate].
    cbn. apply IH. exact (ingest_beacon_wf _ _ _ _ _ H E).
Qed.

Lemma decodeBeacon_wf (b : Beacon.t) :
  detections_wf b -> detections_wf (decodeBeacon b).
Proof.
  unfold detections_wf, detections_of, decodeBeacon. cbn [Beacon.detections].
  destruct (Beacon.detections b); cbn [option_map]; [|constructor].
  apply decode_map_keys_NoDup.
Qed.

Lemma jsonBeacon_wf (b : Beacon.t) :
  detections_wf b -> detections_wf (jsonBeacon b).
Proof.
  unfold detections_wf, detections_of, jsonBeacon. cbn [Beacon.detections].
  destruct (Beacon.detections b); cbn [option_map]; [|constructor].
  now rewrite map_values_keys.
Qed.

Lemma beacons_wf_map (f : Beacon.t -> Beacon.t) (bs : obj Beacon.t) :
  (forall b, detections_wf b -> detections_wf (f b)) ->
  beacons_wf bs -> beacons_wf (map_values f bs).
Proof.
  intros Hf [Hnd Hall]. split; [now rewrite map_values_keys|].
  intros mac b Hin. apply map_values_In in Hin as (b0 & Hin & ->).
  apply Hf. now apply (Hall mac).
Qed.

Lemma beacons_wf_decode (bs : obj Beacon.t) :
  beacons_wf bs -> beacons_wf (decode_map decodeBeacon bs).
Proof.
  intros [Hnd Hall]. split; [now apply decode_map_keys_NoDup|].
  intros mac b Hin. apply decode_map_In in Hin as (b0 & Hin & ->).
  apply decodeBeacon_wf. now apply (Hall mac).
Qed.

Lemma saveData_file (f : file) (data : Registry.t) (disk_ok : bool) :
  fst (saveData f data disk_ok)
  = if disk_ok then Some (JSON_stringify data) else f.
Proof. now destruct disk_ok. Qed.

(** The handler, by cases: the report is turned away, or the merge throws,
    or the merged registry is written. *)
Lemma handleBLEData_cases (f : file) (e : Event.t) (now : Z) (disk_ok : bool) :
  handleBLEData f e now disk_ok
  = if negb (truthy (Event.device_id e))
       || negb (0 <? Z.of_nat (List.length (beacons_of e)))
    then f
    else match ingest_beacons e now (merge_start f e now) (beacons_of e) with
         | Ok data => if disk_ok then Some (JSON_stringify data) else f
         | Throw _ => f
         end.
Proof.
  unfold handleBLEData, merge_start.
  destruct (negb (truthy (Event.device_id e)) || _); [reflexivity|].
  rewrite loadData_eq. cbn [bind Registry.devices Registry.beacons].
  destruct (ingest_beacons e now _ (beacons_of e)); cbn.
  - apply saveData_file.
  - reflexivity.
Qed.

Lemma handleBLEData_wf (f : file) (e : Event.t) (now : Z) (disk_ok : bool) :
  file_wf f -> file_wf (handleBLEData f e now disk_ok).
Proof.
  intros Hwf. rewrite handleBLEData_cases.
  destruct (negb (truthy (Event.device_id e)) || _); [exact Hwf|].
  destruct (ingest_beacons _ _ _ _) as [data|] eqn:E; [|exact Hwf].
  destruct disk_ok; [|exact Hwf].
  destruct Hwf as (Hd & Hb & Hall).
  pose proof (ingest_beacons_devices _ _ _ _ _ E) as Hdev.
  assert (Hbw : beacons_wf (Registry.beacons data)).
  { eapply ingest_beacons_wf; [|exact E]. cbn [merge_start Registry.beacons].
    apply beacons_wf_decode. now split. }
  cbn [merge_start Registry.devices] in Hdev.
  unfold file_wf, file_devices, file_beacons, beacons_of_document, document_of,
    JSON_stringify.
  cbn [Document.devices Document.beacons].
  split; [|apply (beacons_wf_map jsonBeacon _ jsonBeacon_wf Hbw)].
  rewrite map_values_keys, Hdev. apply obj_assign_NoDup.
  now apply decode_map_keys_NoDup.
Qed.




(** *** Ingestion, seen on the keys *)


Lemma map_values_ext_In {A B} (f g : A -> B) (o : obj A) :
  (forall k x, In (k, x) o -> f x = g x) -> map_values f o = map_values g o.
Proof.
  intros H. unfold map_values. apply map_ext_in. intros [k x] Hin. cbn.
  now rewrite (H k x Hin).
Qed.

Lemma beacon_shape_decode (b : Beacon.t) :
  ordinary (detections_of (Some b)) = true ->
  beacon_shape (decodeBeacon b) = beacon_shape b.
Proof.
  unfold beacon_shape, decodeBeacon, detections_of. cbn [Beacon.detections].
  destruct (Beacon.detections b) as [ds|]; cbn [option_map]; [|reflexivity].
  intros H. now rewrite (decode_map_ordinary _ _ H), map_values_map_values.
Qed.



(** The registry the handler starts the merge from has the keys of the
    file. *)
Lemma start_shape (f : file) (e : Event.t) (now : Z) :
  file_ordinary f = true -> registry_shape (merge_start f e now) = file_shape f.
Proof.
  intros H. destruct (file_ordinary_parts f H) as (_ & Hb & Hall).
  unfold registry_shape, merge_start, file_shape. cbn [Registry.beacons].
  rewrite (decode_map_ordinary _ _ Hb), map_values_map_values.
  apply map_values_ext_In. intros k b Hin. apply beacon_shape_decode.
  exact (Hall k b Hin).
Qed.

Lemma ensure_beacon_shape (now : Z) (beacon : BeaconReport.t) (mac : jsstring)
    (data : Registry.t) :
  registry_shape (ensure_beacon now beacon mac data)
  = match obj_get (registry_shape data) mac with
    | Some _ => registry_shape data
    | None =>
        if inherits mac then registry_shape data
        else obj_assign (registry_shape data) mac (Some [])
    end.
Proof.
  unfold registry_shape, ensure_beacon. rewrite map_values_get.
  destruct (obj_get (Registry.beacons data) mac); cbn [option_map];
    [reflexivity|].
  destruct (inherits mac); [reflexivity|].
  cbn [set_beacons Registry.beacons]. now rewrite map_values_assign.
Qed.

Lemma rename_beacon_shape (beacon : BeaconReport.t) (mac : jsstring)
    (data : Registry.t) :
  exn_map registry_shape (rename_beacon beacon mac data)
  = if truthy (BeaconReport.name beacon) then
      match obj_get (registry_shape data) mac with
      | Some _ => Ok (registry_shape data)
      | None =>
          if str_eqb mac proto_key then Ok (registry_shape data)
          else Throw TypeError
      end
    else Ok (registry_shape data).
Proof.
  unfold registry_shape, rename_beacon.
  destruct (truthy _); [|reflexivity]. rewrite map_values_get.
  destruct (obj_get (Registry.beacons data) mac) as [b|] eqn:E;
    cbn [option_map exn_map].
  - f_equal. cbn [set_beacons Registry.beacons]. rewrite map_values_set.
    apply obj_set_same. rewrite map_values_get, E. reflexivity.
  - destruct (str_eqb mac proto_key); reflexivity.
Qed.

Lemma record_detection_shape (e : Event.t) (now : Z) (beacon : BeaconReport.t)
    (mac : jsstring) (r : value) (data : Registry.t) :
  exn_map registry_shape (record_detection e now beacon mac r data)
  = match obj_get (registry_shape data) mac with
    | Some (Some ids) =>
        Ok (obj_set (registry_shape data) mac
              (Some (obj_assign ids (ToString (Event.device_id e)) tt)))
    | _ => Throw TypeError
    end.
Proof.
  unfold registry_shape, record_detection. rewrite map_values_get.
  destruct (obj_get (Registry.beacons data) mac) as [b|]; cbn [option_map];
    [|reflexivity].
  destruct (Beacon.detections b) as [ds|] eqn:Eds.
  - replace (beacon_shape b) with (Some (map_values (fun _ => tt) ds))
      by (unfold beacon_shape; now rewrite Eds).
    cbn [exn_map set_beacons Registry.beacons]. rewrite map_values_set.
    do 3 f_equal. unfold beacon_shape. cbn [Beacon.detections option_map].
    now rewrite map_values_assign.
  - replace (beacon_shape b) with (@None (obj unit))
      by (unfold beacon_shape; now rewrite Eds).
    reflexivity.
Qed.

Lemma ingest_beacon_shape (e : Event.t) (now : Z) (data : Registry.t)
    (beacon : BeaconReport.t) :
  exn_map registry_shape (ingest_beacon e now data beacon)
  = shape_step (ToString (Event.device_id e)) (registry_shape data) beacon.
Proof.
  unfold ingest_beacon, shape_step.
  destruct (negb _); [reflexivity|]. cbv zeta.
  rewrite <- (ensure_beacon_shape now beacon _ data).
  rewrite <- rename_beacon_shape.
  destruct (rename_beacon _ _ _) as [renamed|]; cbn [exn_map bind];
    [|reflexivity].
  destruct (rssiValue_of _) as [r|]; cbn [bind]; [|reflexivity].
  apply record_detection_shape.
Qed.

Lemma ingest_beacons_shape (e : Event.t) (now : Z)
    (beacons : list BeaconReport.t) (data : Registry.t) :
  exn_map registry_shape (ingest_beacons e now data beacons)
  = shape_steps (ToString (Event.device_id e)) (registry_shape data) beacons.
Proof.
  revert data. induction beacons as [|b rest IH]; intros data; cbn;
    [reflexivity|].
  rewrite <- (ingest_beacon_shape e now).
  destruct (ingest_beacon e now data b) as [d1|]; cbn; [apply IH|reflexivity].
Qed.

Lemma if_same {A} (c : bool) (x : A) : (if c then x else x) = x.
Proof. now destruct c. Qed.

(** One loop iteration that ends normally: the object was there, or is
    created under a name no object inherits, and the detection is
    assigned. *)
Lemma shape_step_ok (dev : jsstring) (sh sh' : shape) (b : BeaconReport.t) :
  truthy (BeaconReport.mac b) = true ->
  shape_step dev sh b = Ok sh' <->
  (exists r, rssiValue_of (BeaconReport.rssi b) = Ok r)
  /\ ((exists ids,
         obj_get sh (ToString (BeaconReport.mac b)) = Some (Some ids)
         /\ sh' = obj_set sh (ToString (BeaconReport.mac b))
                    (Some (obj_assign ids dev tt)))
      \/ (obj_get sh (ToString (BeaconReport.mac b)) = None
          /\ inherits (ToString (BeaconReport.mac b)) = false
          /\ sh' = obj_set
                     (obj_set sh (ToString (BeaconReport.mac b)) (Some []))
                     (ToString (BeaconReport.mac b))
                     (Some (obj_assign [] dev tt)))).
Proof.
  intros Hb. unfold shape_step. rewrite Hb. cbn [negb]. cbv zeta.
  set (mac := ToString (BeaconReport.mac b)).
  destruct (obj_get sh mac) as [[ids|]|] eqn:E.
  - rewrite E.
    rewrite if_same.
    cbn [bind]. destruct (rssiValue_of _) as [r|err]; cbn [bind].
    + rewrite E. split.
      * intros [= <-]. split; [now exists r|]. left. now exists ids.
      * intros [_ [(ids' & [= <-] & ->)|(Hn & _)]]; [reflexivity|discriminate].
    + split; [discriminate|]. now intros [[r Hr] _].
  - rewrite E.
    rewrite if_same.
    cbn [bind]. destruct (rssiValue_of _) as [r|err]; cbn [bind].
    + rewrite E. split; [discriminate|].
      intros [_ [(ids' & [=] & _)|(Hn & _)]]. discriminate.
    + split; [discriminate|]. now intros [[r Hr] _].
  - destruct (inherits mac) eqn:Ei.
    + rewrite E. split.
      * destruct (truthy (BeaconReport.name b));
          [destruct (str_eqb mac proto_key)|]; cbn [bind];
          try discriminate;
          (destruct (rssiValue_of _); cbn [bind]; [rewrite E|]; discriminate).
      * intros [_ [(ids' & [=] & _)|(_ & [=] & _)]].
    + rewrite (obj_assign_set _ _ _ (inherits_proto _ Ei)).
      rewrite obj_get_set_same.
      rewrite if_same.
      cbn [bind]. destruct (rssiValue_of _) as [r|err]; cbn [bind].
      * rewrite obj_get_set_same. split.
        -- intros [= <-]. split; [now exists r|]. right. now repeat split.
        -- intros [_ [(ids' & [=] & _)|(_ & _ & ->)]]. reflexivity.
      * split; [discriminate|]. now intros [[r Hr] _].
Qed.

Lemma shape_step_skip (dev : jsstring) (sh : shape) (b : BeaconReport.t) :
  truthy (BeaconReport.mac b) = false -> shape_step dev sh b = Ok sh.
Proof. intros Hb. unfold shape_step. now rewrite Hb. Qed.









Lemma shape_step_accepted (dev : jsstring) (sh : shape) (b : BeaconReport.t) :
  (exists sh', shape_step dev sh b = Ok sh') <-> accepted sh b.
Proof.
  unfold accepted. destruct (truthy (BeaconReport.mac b)) eqn:Hb.
  2:{ split; [now left|]. intros _. exists sh. now apply shape_step_skip. }
  split.
  - intros [sh' H]. apply (shape_step_ok _ _ _ _ Hb) in H as [Hr H]. right.
    split; [exact Hr|]. unfold blocked.
    destruct H as [(ids & Hget & _)|(Hnone & Hin & _)].
    + rewrite Hget. intros [H|[H _]]; discriminate.
    + rewrite Hnone, Hin. intros [H|[_ H]]; discriminate.
  - intros [H|[Hr Hnb]]; [discriminate|]. unfold blocked in Hnb.
    destruct (obj_get sh (ToString (BeaconReport.mac b))) as [[ids|]|] eqn:E.
    + eexists. apply (shape_step_ok _ _ _ _ Hb). split; [exact Hr|].
      left. exists ids. split; [exact E|reflexivity].
    + exfalso. apply Hnb. now left.
    + destruct (inherits (ToString (BeaconReport.mac b))) eqn:Ei.
      * exfalso. apply Hnb. right. now split.
      * eexists. apply (shape_step_ok _ _ _ _ Hb). split; [exact Hr|].
        right. split; [exact E|]. split; [exact Ei|reflexivity].
Qed.





(** *** The file after the handler, seen on the keys *)












(** *** Ingestion, seen on one detection *)

Lemma registry_detection_set (data : Registry.t) (k mac id : jsstring)
    (b : Beacon.t) :
  registry_detection (set_beacons data (obj_set (Registry.beacons data) k b))
    mac id
  = if str_eqb k mac then obj_get (detections_of (Some b)) id
    else registry_detection data mac id.
Proof.
  unfold registry_detection. cbn [set_beacons Registry.beacons].
  rewrite obj_get_set. now destruct (str_eqb k mac).
Qed.

Lemma ensure_beacon_detection (now : Z) (beacon : BeaconReport.t)
    (k mac id : jsstring) (data : Registry.t) :
  registry_detection (ensure_beacon now beacon k data) mac id
  = registry_detection data mac id.
Proof.
  unfold ensure_beacon.
  destruct (obj_get (Registry.beacons data) k) eqn:E; [reflexivity|].
  destruct (inherits k) eqn:Ei; [reflexivity|].
  rewrite (obj_assign_set _ _ _ (inherits_proto _ Ei)).
  rewrite registry_detection_set.
  destruct (str_eqb k mac) eqn:Ek; [|reflexivity].
  apply str_eqb_eq in Ek. subst mac.
  unfold registry_detection. now rewrite E.
Qed.

Lemma rename_beacon_detection (beacon : BeaconReport.t)
    (k mac id : jsstring) (data data' : Registry.t) :
  rename_beacon beacon k data = Ok data' ->
  registry_detection data' mac id = registry_detection data mac id.
Proof.
  unfold rename_beacon. destruct (truthy _); [|now intros [= <-]].
  destruct (obj_get (Registry.beacons data) k) as [b|] eqn:E.
  - intros [= <-]. rewrite registry_detection_set.
    destruct (str_eqb k mac) eqn:Ek; [|reflexivity].
    apply str_eqb_eq in Ek. subst mac.
    unfold registry_detection. now rewrite E.
  - destruct (str_eqb k proto_key); [now intros [= <-]|discriminate].
Qed.

Lemma record_detection_detection (e : Event.t) (now : Z)
    (beacon : BeaconReport.t) (k mac id : jsstring) (r : value)
    (data data' : Registry.t) :
  str_eqb (ToString (Event.device_id e)) proto_key = false ->
  record_detection e now beacon k r data = Ok data' ->
  registry_detection data' mac id
  = if str_eqb k mac && str_eqb (ToString (Event.device_id e)) id
    then Some (new_detection e now beacon r)
    else registry_detection data mac id.
Proof.
  intros Hdev. unfold record_detection.
  destruct (obj_get (Registry.beacons data) k) as [b|] eqn:E; [|discriminate].
  destruct (Beacon.detections b) as [ds|] eqn:Eds; [|discriminate].
  intros [= <-]. rewrite registry_detection_set.
  destruct (str_eqb k mac) eqn:Ek; cbn [andb]; [|reflexivity].
  apply str_eqb_eq in Ek. subst mac.
  cbn [detections_of Beacon.detections]. rewrite (obj_get_assign _ _ _ _ Hdev).
  destruct (str_eqb _ id); [reflexivity|].
  unfold registry_detection. rewrite E. cbn [detections_of]. now rewrite Eds.
Qed.

(** A detection by another receiver is not touched. *)
Lemma record_detection_other (e : Event.t) (now : Z)
    (beacon : BeaconReport.t) (k mac id : jsstring) (r : value)
    (data data' : Registry.t) :
  str_eqb (ToString (Event.device_id e)) id = false ->
  record_detection e now beacon k r data = Ok data' ->
  registry_detection data' mac id = registry_detection data mac id.
Proof.
  intros Hid. unfold record_detection.
  destruct (obj_get (Registry.beacons data) k) as [b|] eqn:E; [|discriminate].
  destruct (Beacon.detections b) as [ds|] eqn:Eds; [|discriminate].
  intros [= <-]. rewrite registry_detection_set.
  destruct (str_eqb k mac) eqn:Ek; [|reflexivity].
  apply str_eqb_eq in Ek. subst mac.
  cbn [detections_of Beacon.detections].
  unfold registry_detection. rewrite E. cbn [detections_of]. rewrite Eds.
  destruct (obj_assign_cases ds (ToString (Event.device_id e))
              (new_detection e now beacon r)) as [-> | ->]; [reflexivity|].
  now rewrite obj_get_set, Hid.
Qed.

Lemma ingest_beacon_detection (e : Event.t) (now : Z) (data data' : Registry.t)
    (beacon : BeaconReport.t) (mac : jsstring) :
  str_eqb (ToString (Event.device_id e)) proto_key = false ->
  ingest_beacon e now data beacon = Ok data' ->
  if truthy (BeaconReport.mac beacon)
     && str_eqb (ToString (BeaconReport.mac beacon)) mac
  then exists r,
         rssiValue_of (BeaconReport.rssi beacon) = Ok r
         /\ registry_detection data' mac (ToString (Event.device_id e))
            = Some (new_detection e now beacon r)
  else registry_detection data' mac (ToString (Event.device_id e))
       = registry_detection data mac (ToString (Event.device_id e)).
Proof.
  intros Hdev. destruct (truthy (BeaconReport.mac beacon)) eqn:Hb;
    cbn [andb].
  2:{ unfold ingest_beacon. rewrite Hb. now intros [= <-]. }
  intros H. apply (ingest_beacon_steps _ _ _ _ _ Hb) in H
    as (renamed & r & H1 & Hr & H2).
  rewrite (record_detection_detection _ _ _ _ mac _ _ _ _ Hdev H2).
  rewrite str_eqb_refl, andb_true_r.
  destruct (str_eqb _ mac).
  - now exists r.
  - now rewrite (rename_beacon_detection _ _ _ _ _ _ H1),
      ensure_beacon_detection.
Qed.

Lemma ingest_beacons_detection (e : Event.t) (now : Z)
    (beacons : list BeaconReport.t) (data data' : Registry.t)
    (mac : jsstring) :
  str_eqb (ToString (Event.device_id e)) proto_key = false ->
  ingest_beacons e now data beacons = Ok data' ->
  match last_entry beacons mac with
  | Some b =>
      exists r,
        rssiValue_of (BeaconReport.rssi b) = Ok r
        /\ registry_detection data' mac (ToString (Event.device_id e))
           = Some (new_detection e now b r)
  | None =>
      registry_detection data' mac (ToString (Event.device_id e))
      = registry_detection data mac (ToString (Event.device_id e))
  end.
Proof.
  intros Hdev. revert data. induction beacons as [|b rest IH]; intros data; cbn.
  - now intros [= <-].
  - destruct (ingest_beacon e now data b) as [d1|] eqn:E; [|discriminate].
    cbn [bind]. intros H. specialize (IH _ H).
    destruct (last_entry rest mac); [exact IH|].
    pose proof (ingest_beacon_detection _ _ _ _ _ mac Hdev E) as H1.
    destruct (truthy (BeaconReport.mac b) && _).
    + destruct H1 as (r & Hr & H1). exists r. split; [exact Hr|].
      now rewrite IH.
    + now rewrite IH.
Qed.


Lemma last_entry_In (beacons : list BeaconReport.t) (mac : jsstring)
    (b : BeaconReport.t) :
  last_entry beacons mac = Some b ->
  In b beacons /\ truthy (BeaconReport.mac b) = true
  /\ ToString (BeaconReport.mac b) = mac.
Proof.
  induction beacons as [|x rest IH]; [discriminate|]. cbn.
  destruct (last_entry rest mac) as [b'|].
  - intros [= ->]. destruct (IH eq_refl) as (Hin & Hb). split; [now right|].
    exact Hb.
  - destruct (truthy (BeaconReport.mac x)) eqn:Hx; cbn [andb]; [|discriminate].
    destruct (str_eqb _ mac) eqn:Ek; [|discriminate].
    intros [= <-]. apply str_eqb_eq in Ek. split; [now left|]. now split.
Qed.

Lemma detections_of_json (b : Beacon.t) :
  detections_of (Some (jsonBeacon b))
  = map_values jsonDetection (detections_of (Some b)).
Proof.
  unfold detections_of, jsonBeacon. cbn [Beacon.detections].
  now destruct (Beacon.detections b).
Qed.

Lemma file_detection_stringify (data : Registry.t) (mac id : jsstring) :
  file_detection (Some (JSON_stringify data)) mac id
  = option_map jsonDetection (registry_detection data mac id).
Proof.
  unfold file_detection, registry_detection, file_beacons, beacons_of_document,
    document_of, JSON_stringify.
  cbn [Document.beacons]. rewrite map_values_get.
  destruct (obj_get (Registry.beacons data) mac) as [b|]; cbn [option_map];
    [|reflexivity].
  now rewrite detections_of_json, map_values_get.
Qed.

Lemma file_device_stringify (data : Registry.t) (id : jsstring) :
  file_device (Some (JSON_stringify data)) id
  = option_map jsonDevice (obj_get (Registry.devices data) id).
Proof.
  unfold file_device, file_devices, document_of, JSON_stringify.
  cbn [Document.devices]. apply map_values_get.
Qed.

Lemma file_beacon_stringify (data : Registry.t) (mac : jsstring) :
  obj_get (file_beacons (Some (JSON_stringify data))) mac
  = option_map jsonBeacon (obj_get (Registry.beacons data) mac).
Proof.
  unfold file_beacons, beacons_of_document, document_of, JSON_stringify.
  cbn [Document.beacons]. apply map_values_get.
Qed.

(** *** When the merge runs to its end *)

Lemma rssiValue_of_ok (rssi : value) :
  rssi <> VNull -> exists r, rssiValue_of rssi = Ok r.
Proof.
  intros Hr. unfold rssiValue_of.
  destruct rssi; cbn; try (eexists; reflexivity); [congruence|].
  destruct (find _ props) as [p|]; cbn.
  - destruct (truthy (snd p)); [eexists; reflexivity|].
    destruct (find _ props) as [q|]; cbn;
      [destruct (truthy (snd q))|]; eexists; reflexivity.
  - destruct (find _ props) as [q|]; cbn;
      [destruct (truthy (snd q))|]; eexists; reflexivity.
Qed.

Lemma shape_step_keeps_total (dev : jsstring) (sh sh' : shape)
    (b : BeaconReport.t) :
  shape_total sh -> shape_step dev sh b = Ok sh' -> shape_total sh'.
Proof.
  intros Htot. destruct (truthy (BeaconReport.mac b)) eqn:Hb.
  2:{ rewrite (shape_step_skip _ _ _ Hb). now intros [= <-]. }
  intros H. apply (shape_step_ok _ _ _ _ Hb) in H as [_ H].
  destruct H as [(ids & _ & ->)|(_ & _ & ->)]; intros k v Hin;
    apply obj_set_In in Hin as [[_ ->]|Hin]; try discriminate.
  - now apply (Htot k).
  - apply obj_set_In in Hin as [[_ ->]|Hin]; [discriminate|].
    now apply (Htot k).
Qed.


Lemma shape_step_total (dev : jsstring) (sh : shape) (b : BeaconReport.t) :
  shape_total sh ->
  (truthy (BeaconReport.mac b) = true ->
   BeaconReport.rssi b <> VNull
   /\ inherits (ToString (BeaconReport.mac b)) = false) ->
  exists sh', shape_step dev sh b = Ok sh'.
Proof.
  intros Htot Hb. apply shape_step_accepted. unfold accepted.
  destruct (truthy (BeaconReport.mac b)); [|now left]. right.
  destruct (Hb eq_refl) as [Hr Hi]. split; [now apply rssiValue_of_ok|].
  intros [H|[_ H]]; [|congruence].
  apply obj_get_In in H. now apply Htot in H.
Qed.

Lemma shape_steps_total (dev : jsstring) (beacons : list BeaconReport.t)
    (sh : shape) :
  shape_total sh ->
  (forall b, In b beacons -> truthy (BeaconReport.mac b) = true ->
             BeaconReport.rssi b <> VNull
             /\ inherits (ToString (BeaconReport.mac b)) = false) ->
  exists sh', shape_steps dev sh beacons = Ok sh'.
Proof.
  revert sh. induction beacons as [|b rest IH]; intros sh Htot Hall; cbn.
  - now exists sh.
  - destruct (shape_step_total dev sh b Htot) as [sh1 E].
    { apply Hall. now left. }
    rewrite E. cbn [bind].
    apply IH; [exact (shape_step_keeps_total _ _ _ _ Htot E)|].
    intros b' Hin. apply Hall. now right.
Qed.

Lemma file_complete_total (f : file) :
  file_complete f <-> shape_total (file_shape f).
Proof.
  unfold file_complete, shape_total, file_shape. split.
  - intros Hc k v Hin. apply map_values_In in Hin as (b & Hin & ->).
    specialize (Hc k b Hin). unfold beacon_shape.
    now destruct (Beacon.detections b).
  - intros Hs mac b Hin Hnone. apply (Hs mac (beacon_shape b)).
    + unfold map_values. apply in_map_iff. now exists (mac, b).
    + unfold beacon_shape. now rewrite Hnone.
Qed.

Lemma merge_completes (f : file) (e : Event.t) (now : Z) :
  report_complete e -> file_complete f -> file_ordinary f = true ->
  exists data,
    ingest_beacons e now (merge_start f e now) (beacons_of e) = Ok data.
Proof.
  intros He Hf Ho. apply file_complete_total in Hf.
  destruct (shape_steps_total (ToString (Event.device_id e)) (beacons_of e)
              (file_shape f) Hf He) as [sh Hsh].
  pose proof (ingest_beacons_shape e now (beacons_of e) (merge_start f e now))
    as H.
  rewrite (start_shape f e now Ho), Hsh in H.
  destruct (ingest_beacons _ _ _ _) as [data|]; [now exists data|discriminate].
Qed.

Lemma gate_open (e : Event.t) :
  truthy (Event.device_id e) = true -> beacons_of e <> [] ->
  negb (truthy (Event.device_id e))
  || negb (0 <? Z.of_nat (List.length (beacons_of e))) = false.
Proof.
  intros -> Hne. destruct (beacons_of e); [congruence|reflexivity].
Qed.

Lemma gate_closed (e : Event.t) :
  truthy (Event.device_id e) = false \/ beacons_of e = [] ->
  negb (truthy (Event.device_id e))
  || negb (0 <? Z.of_nat (List.length (beacons_of e))) = true.
Proof.
  intros [->| ->]; [reflexivity|apply orb_true_r].
Qed.

Lemma rssiValue_of_structured (props : list (jsstring * value)) :
  rssiValue_of (VObj props)
  = Ok (if truthy (reading props (u "average"))
        then reading props (u "average")
        else if truthy (reading props (u "current"))
             then reading props (u "current")
             else VObj props).
Proof.
  unfold rssiValue_of, reading, get_prop. cbn [typeof_object].
  destruct (find _ props) as [p|]; cbn [bind].
  - destruct (truthy (snd p)); [reflexivity|].
    destruct (find _ props) as [q|]; cbn [bind]; [|reflexivity].
    now destruct (truthy (snd q)).
  - cbn [truthy]. destruct (find _ props) as [q|]; cbn [bind]; [|reflexivity].
    now destruct (truthy (snd q)).
Qed.

(** The file after a report that passes the guard, over inputs on which the
    merge runs to its end, when the write succeeds. *)
Lemma handleBLEData_written (f : file) (e : Event.t) (now : Z) :
  truthy (Event.device_id e) = true -> beacons_of e <> [] ->
  report_complete e -> file_complete f -> file_ordinary f = true ->
  exists data,
    ingest_beacons e now (merge_start f e now) (beacons_of e) = Ok data
    /\ handleBLEData f e now true = Some (JSON_stringify data).
Proof.
  intros Hid Hne He Hf Ho.
  destruct (merge_completes f e now He Hf Ho) as [data E].
  exists data. split; [exact E|].
  rewrite handleBLEData_cases, (gate_open e Hid Hne). now rewrite E.
Qed.



(** The detection the file holds for an object a report addresses, once the
    report is merged and written: the one built from the last entry that
    addresses the object. *)
Lemma handleBLEData_detection (f : file) (e : Event.t) (now : Z)
    (mac : jsstring) (b : BeaconReport.t) :
  truthy (Event.device_id e) = true ->
  ToString (Event.device_id e) <> proto_key ->
  report_complete e -> file_complete f -> file_ordinary f = true ->
  last_entry (beacons_of e) mac = Some b ->
  exists r,
    rssiValue_of (BeaconReport.rssi b) = Ok r
    /\ file_detection (handleBLEData f e now true) mac
         (ToString (Event.device_id e))
       = Some (jsonDetection (new_detection e now b r)).
Proof.
  intros Hid Hdev He Hf Ho Hlast.
  assert (Hne : beacons_of e <> []).
  { intros Hnil. rewrite Hnil in Hlast. discriminate. }
  destruct (handleBLEData_written f e now Hid Hne He Hf Ho) as (data & E & ->).
  apply str_eqb_neq in Hdev.
  pose proof (ingest_beacons_detection _ _ _ _ _ mac Hdev E) as L.
  rewrite Hlast in L. destruct L as (r & Hr & L).
  exists r. split; [exact Hr|].
  now rewrite file_detection_stringify, L.
Qed.

(** *** The sweep, from file to file *)

Lemma pruned_wf (now : Z) (bs : obj Beacon.t) :
  beacons_wf bs -> beacons_wf (filter_map (prune_beacon now) bs).
Proof.
  intros [Hnd Hall]. split.
  - revert Hnd. clear Hall. induction bs as [|[k b] bs IH]; [trivial|].
    unfold obj_keys in *. cbn [map fst filter_map]. intros H.
    inversion H as [|? ? Hk Ho]; subst.
    destruct (prune_beacon now (k, b)) as [kept|] eqn:P; [|now apply IH].
    cbn [map]. rewrite (prune_beacon_key _ _ _ P). cbn [fst]. constructor.
    + intros Hin. apply Hk. apply in_map_iff in Hin as ([k' b'] & <- & Hin).
      apply filter_map_In in Hin as (x & Hx & Px).
      apply prune_beacon_key in Px. cbn [fst] in *. rewrite Px.
      now apply in_map.
    + now apply IH.
  - intros mac b Hin. apply filter_map_In in Hin as ([k b0] & Hin & P).
    unfold prune_beacon in P. cbn [fst snd] in P.
    destruct (Beacon.detections b0) as [ds|] eqn:D; [|discriminate].
    destruct (existsb (keep_detection now) ds); [|discriminate].
    injection P as <- <-. unfold detections_wf, detections_of.
    cbn [Beacon.detections]. apply NoDup_keys_filter.
    specialize (Hall _ _ Hin). unfold detections_wf, detections_of in Hall.
    now rewrite D in Hall.
Qed.

Lemma swept_wf (now : Z) (data : Registry.t) :
  registry_wf data -> registry_wf (fst (sweep now data)).
Proof.
  intros H. rewrite (sweep_filter now data H).
  destruct H as (Hd & Hb & Hall). unfold registry_wf.
  cbn [Registry.devices Registry.beacons].
  split; [now apply NoDup_keys_filter|].
  apply (pruned_wf now). now split.
Qed.






Lemma detections_of_decode (b : Beacon.t) :
  ordinary (detections_of (Some b)) = true ->
  detections_of (Some (decodeBeacon b))
  = map_values decodeDetection (detections_of (Some b)).
Proof.
  unfold detections_of, decodeBeacon. cbn [Beacon.detections].
  destruct (Beacon.detections b) as [ds|]; cbn [option_map]; [|reflexivity].
  apply decode_map_ordinary.
Qed.

Lemma registry_detection_decoded (f : file) (devices : obj Device.t)
    (mac id : jsstring) :
  file_ordinary f = true ->
  registry_detection
    (Registry.mk devices (map_values decodeBeacon (file_beacons f))) mac id
  = option_map decodeDetection (file_detection f mac id).
Proof.
  intros Ho. destruct (file_ordinary_parts f Ho) as (_ & _ & Hall).
  unfold registry_detection, file_detection. cbn [Registry.beacons].
  rewrite map_values_get.
  destruct (obj_get (file_beacons f) mac) as [b|] eqn:G; cbn [option_map];
    [|reflexivity].
  rewrite (detections_of_decode b (Hall mac b (obj_get_In _ _ _ G))).
  apply map_values_get.
Qed.


Lemma obj_get_absent {A} (o : obj A) (k : jsstring) :
  ~ In k (obj_keys o) -> obj_get o k = None.
Proof.
  intros H. apply obj_has_false in H. unfold obj_has in H.
  now destruct (obj_get o k).
Qed.



(** C3, as the code has it.  A report with a truthy receiver identity other
    than [__proto__] and at least one entry, ingested over inputs on which
    the merge runs to its end (no addressed entry has a [null] signal
    strength or an address that names a member of [Object.prototype]; every
    object of the file has its [detections] map; no map of the file has a
    [__proto__] key) and written, leaves under its identity a receiver
    record with the name ([device_name], or the identity), the type
    ([device_type], or ESP32), [update = now] and the batch fields
    ([batch] and [total_batches], or 1) of the report.  A report with a
    falsy receiver identity or with no entry leaves the file as it was. *)
Theorem handleBLEData_upserts_receiver (f : file) (e : Event.t) (now : Z) :
  (truthy (Event.device_id e) = true ->
   ToString (Event.device_id e) <> proto_key ->
   beacons_of e <> [] ->
   report_complete e ->
   file_complete f ->
   file_ordinary f = true ->
   exists d,
     file_device (handleBLEData f e now true) (ToString (Event.device_id e))
     = Some d
     /\ Device.name d = jsonify (js_or (Event.device_name e) (Event.device_id e))
     /\ Device.type d = jsonify (js_or (Event.device_type e) (VStr (u "ESP32")))
     /\ Device.update d = VNum (Num now)
     /\ Device.batch d
        = jsonify (js_or (EventData.batch (reportData_of e)) (VNum (Num 1)))
     /\ Device.total_batches d
        = jsonify (js_or (EventData.total_batches (reportData_of e))
                     (VNum (Num 1))))
  /\ (forall disk_ok,
        truthy (Event.device_id e) = false \/ beacons_of e = [] ->
        handleBLEData f e now disk_ok = f).
Proof.
  split.
  - intros Hid Hdev Hne He Hf Ho.
    destruct (handleBLEData_written f e now Hid Hne He Hf Ho) as (data & E & ->).
    exists (jsonDevice (device_of e now)).
    rewrite file_device_stringify, (ingest_beacons_devices _ _ _ _ _ E).
    cbn [merge_start Registry.devices]. apply str_eqb_neq in Hdev.
    rewrite (obj_get_assign _ _ _ _ Hdev), str_eqb_refl.
    repeat split.
  - intros disk_ok Hgate.
    rewrite handleBLEData_cases, (gate_closed e Hgate). reflexivity.
Qed.

(** C5, as the code has it.  For every entry of a report with an address
    and a structured signal strength: the value written to the detection is
    the [average] reading when that is truthy, else the [current] reading
    when that is truthy, else the structured value itself.  When the
    receiver identity is not [__proto__], one loop iteration that ends
    normally leaves that value in the detection; and when the report is
    merged and written (the identity is truthy, the merge runs to its end,
    no map of the file has a [__proto__] key) the file holds that value for
    the last entry that addresses the object: a number whenever the reading
    chosen is one, and the structure when neither reading is truthy. *)
Theorem handleBLEData_stores_normalized_rssi (e : Event.t) (now : Z)
    (b : BeaconReport.t) (props : list (jsstring * value)) :
  truthy (BeaconReport.mac b) = true ->
  BeaconReport.rssi b = VObj props ->
  let average := reading props (u "average") in
  let current := reading props (u "current") in
  let chosen :=
    if truthy average then average
    else if truthy current then current
    else VObj props in
  let mac := ToString (BeaconReport.mac b) in
  let id := ToString (Event.device_id e) in
  rssiValue_of (BeaconReport.rssi b) = Ok chosen
  /\ (forall data data',
        id <> proto_key ->
        ingest_beacon e now data b = Ok data' ->
        exists d,
          registry_detection data' mac id = Some d
          /\ Detection.rssi d = chosen)
  /\ (forall f,
        truthy (Event.device_id e) = true ->
        id <> proto_key ->
        report_complete e ->
        file_complete f ->
        file_ordinary f = true ->
        last_entry (beacons_of e) mac = Some b ->
        exists d,
          file_detection (handleBLEData f e now true) mac id = Some d
          /\ Detection.rssi d = jsonify chosen
          /\ (forall z, chosen = VNum (Num z) -> Detection.rssi d = VNum (Num z))
          /\ (truthy average = false -> truthy current = false ->
              Detection.rssi d = jsonify (VObj props))).
Proof.
  intros Hb Hrssi average current chosen mac id.
  assert (Hchosen : rssiValue_of (BeaconReport.rssi b) = Ok chosen)
    by (rewrite Hrssi; apply rssiValue_of_structured).
  split; [exact Hchosen|]. split.
  - intros data data' Hdev E. apply str_eqb_neq in Hdev.
    pose proof (ingest_beacon_detection _ _ _ _ _ mac Hdev E) as L.
    unfold mac in L at 1. rewrite Hb, str_eqb_refl in L. cbn [andb] in L.
    destruct L as (r & Hr & L). rewrite Hchosen in Hr. injection Hr as <-.
    exists (new_detection e now b chosen). now split.
  - intros f Hid Hdev He Hf Ho Hlast.
    destruct (handleBLEData_detection f e now mac b Hid Hdev He Hf Ho Hlast)
      as (r & Hr & L).
    rewrite Hchosen in Hr. injection Hr as <-.
    exists (jsonDetection (new_detection e now b chosen)).
    split; [exact L|]. split; [reflexivity|]. split.
    + intros z Hz. cbn. now rewrite Hz.
    + intros Ha Hc. cbn. subst chosen. now rewrite Ha, Hc.
Qed.


(** ** Further properties of ble-utils.js *)

(** *** [decodeUnicode] *)

Lemma decode_units_eq (c m h1 h2 h3 h4 : N) (r : jsstring) :
  decode_units (c :: m :: h1 :: h2 :: h3 :: h4 :: r)
  = if N.eqb c 92 && (N.eqb m 117 || N.eqb m 85)
       && is_hex h1 && is_hex h2 && is_hex h3 && is_hex h4
    then (if N.eqb m 117
          then (((hex_value h1 * 16 + hex_value h2) * 16
                 + hex_value h3) * 16 + hex_value h4)%N
          else 0%N) :: decode_units r
    else c :: decode_units (m :: h1 :: h2 :: h3 :: h4 :: r).
Proof. reflexivity. Qed.

Lemma decode_units_cons (c : N) (rest : jsstring) :
  N.eqb c 92 = false -> decode_units (c :: rest) = c :: decode_units rest.
Proof.
  intros H.
  destruct rest as [|m [|h1 [|h2 [|h3 [|h4 r]]]]]; try reflexivity.
  rewrite decode_units_eq, H. reflexivity.
Qed.

Lemma decode_units_no_backslash (s : jsstring) :
  existsb (N.eqb 92) s = false -> decode_units s = s.
Proof.
  induction s as [|c s IH]; [reflexivity|].
  cbn [existsb]. intros H. apply orb_false_iff in H as [Hc Hs].
  rewrite decode_units_cons by now rewrite N.eqb_sym.
  now rewrite IH.
Qed.

Lemma decode_units_step (c : N) (rest : jsstring) :
  exists d rest',
    decode_units (c :: rest) = d :: decode_units rest'
    /\ (List.length rest' <= List.length rest)%nat.
Proof.
  destruct rest as [|m [|h1 [|h2 [|h3 [|h4 r]]]]];
    try (exists c; eexists; split; [reflexivity|cbn [List.length]; lia]).
  rewrite decode_units_eq.
  destruct (N.eqb c 92 && (N.eqb m 117 || N.eqb m 85)
            && is_hex h1 && is_hex h2 && is_hex h3 && is_hex h4).
  - eexists; exists r. split; [reflexivity|cbn [List.length]; lia].
  - exists c; eexists. split; [reflexivity|cbn [List.length]; lia].
Qed.

Lemma decode_units_length (s : jsstring) :
  (List.length (decode_units s) <= List.length s)%nat.
Proof.
  assert (H : forall n s, (List.length s <= n)%nat ->
                          (List.length (decode_units s) <= List.length s)%nat).
  { clear s. induction n as [|n IH]; intros [|c rest] Hn;
      cbn [List.length] in *; try (cbn; lia).
    destruct (decode_units_step c rest) as (d & rest' & -> & Hlen).
    cbn [List.length]. specialize (IH rest' ltac:(lia)). lia. }
  now apply (H (List.length s)).
Qed.

Lemma decode_units_nonempty (c : N) (rest : jsstring) :
  decode_units (c :: rest) <> [].
Proof.
  destruct (decode_units_step c rest) as (d & rest' & -> & _). discriminate.
Qed.

Lemma truthy_decodeUnicode (v : value) : truthy (decodeUnicode v) = truthy v.
Proof.
  destruct v as [| |b|n|s|items|props]; try reflexivity.
  destruct s as [|c rest]; [reflexivity|].
  unfold decodeUnicode. cbn [truthy].
  pose proof (decode_units_nonempty c rest).
  now destruct (decode_units (c :: rest)).
Qed.

Lemma hex_digit_ok (d : N) :
  (d < 16)%N -> is_hex (hex_digit d) = true /\ hex_value (hex_digit d) = d.
Proof.
  intros H.
  assert (E : In d [0; 1; 2; 3; 4; 5; 6; 7; 8; 9; 10; 11; 12; 13; 14; 15]%N).
  { cbn [In]. lia. }
  cbn [In] in E.
  repeat (destruct E as [<-|E]; [now vm_compute|]). destruct E.
Qed.

Lemma decode_units_escape_unit (c : N) (rest : jsstring) :
  (c < 65536)%N ->
  decode_units (escape_unit c ++ rest) = c :: decode_units rest.
Proof.
  intros Hc.
  assert (H1 : (c / 4096 < 16)%N) by (apply N.Div0.div_lt_upper_bound; lia).
  assert (H2 : ((c / 256) mod 16 < 16)%N) by (apply N.mod_lt; lia).
  assert (H3 : ((c / 16) mod 16 < 16)%N) by (apply N.mod_lt; lia).
  assert (H4 : (c mod 16 < 16)%N) by (apply N.mod_lt; lia).
  destruct (hex_digit_ok _ H1) as [A1 B1], (hex_digit_ok _ H2) as [A2 B2],
    (hex_digit_ok _ H3) as [A3 B3], (hex_digit_ok _ H4) as [A4 B4].
  unfold escape_unit. cbn [app]. rewrite decode_units_eq.
  rewrite A1, A2, A3, A4, B1, B2, B3, B4.
  change (N.eqb 92 92 && (N.eqb 117 117 || N.eqb 117 85) && true && true
          && true && true) with true.
  change (N.eqb 117 117) with true. cbv iota. f_equal.
  pose proof (N.div_mod c 16 ltac:(lia)) as E1.
  pose proof (N.div_mod (c / 16) 16 ltac:(lia)) as E2.
  pose proof (N.div_mod (c / 256) 16 ltac:(lia)) as E3.
  assert (E4 : (c / 16 / 16 = c / 256)%N)
    by (rewrite N.Div0.div_div; reflexivity).
  assert (E5 : (c / 256 / 16 = c / 4096)%N)
    by (rewrite N.Div0.div_div; reflexivity).
  rewrite E4 in E2. rewrite E5 in E3. lia.
Qed.

(** X2.  Text without a backslash is left as it is. *)
Theorem decodeUnicode_plain_text (s : jsstring) :
  existsb (N.eqb 92) s = false ->
  decodeUnicode (VStr s) = VStr s.
Proof.
  intros H. unfold decodeUnicode.
  destruct (truthy (VStr s)); [|reflexivity].
  now rewrite decode_units_no_backslash.
Qed.

(** X3.  Decoding gives a string that is no longer than the one it was given,
    and empty only when that was: a value is truthy after decoding exactly
    when it was before. *)
Theorem decodeUnicode_never_lengthens :
  (forall s s', decodeUnicode (VStr s) = VStr s' ->
                (List.length s' <= List.length s)%nat)
  /\ (forall v, truthy (decodeUnicode v) = truthy v)
  /\ (forall v, (forall s, v <> VStr s) -> decodeUnicode v = v).
Proof.
  split; [|split].
  - intros s s' H. unfold decodeUnicode in H.
    destruct (truthy (VStr s)); injection H as <-;
      [apply decode_units_length|lia].
  - apply truthy_decodeUnicode.
  - intros v H. destruct v; try reflexivity. now destruct (H s).
Qed.

(** X1.  Escaping then decoding is the identity: when every code unit of a text
    is written as its escape [\uXXXX] (lower-case digits), [decodeUnicode]
    gives the text back. *)
Theorem decodeUnicode_escape_round_trip (s : jsstring) :
  Forall (fun c => (c < 65536)%N) s ->
  decode_units (escape s) = s
  /\ decodeUnicode (VStr (escape s)) = VStr s.
Proof.
  intros H.
  assert (E : decode_units (escape s) = s).
  { induction H as [|c s Hc Hs IH]; [reflexivity|].
    unfold escape in *. cbn [flat_map].
    now rewrite decode_units_escape_unit, IH. }
  split; [exact E|].
  unfold decodeUnicode. destruct (truthy (VStr (escape s))) eqn:T.
  - now rewrite E.
  - destruct s as [|c s]; [reflexivity|discriminate].
Qed.


(** *** [getBeaconDisplayName] *)

Lemma strip_prefix_app (p r : jsstring) : strip_prefix p (p ++ r) = Some r.
Proof.
  induction p as [|a p IH]; [now destruct r|].
  cbn [app strip_prefix]. now rewrite N.eqb_refl.
Qed.

Lemma strip_prefix_Some (p s r : jsstring) :
  strip_prefix p s = Some r -> s = p ++ r.
Proof.
  revert s; induction p as [|a p IH]; intros s H.
  - destruct s; now injection H as <-.
  - destruct s as [|b s]; [discriminate|]. cbn [strip_prefix] in H.
    destruct (N.eqb a b) eqn:E; [|discriminate].
    apply N.eqb_eq in E as <-. cbn [app]. f_equal. now apply IH.
Qed.

Lemma take_digits_run (ds rest : jsstring) :
  forallb is_digit ds = true ->
  match rest with [] => true | c :: _ => negb (is_digit c) end = true ->
  take_digits (ds ++ rest) = ds.
Proof.
  intros Hds Hrest. induction ds as [|c ds IH]; cbn [app].
  - destruct rest as [|c rest]; [reflexivity|]. cbn [take_digits].
    now destruct (is_digit c).
  - cbn [forallb] in Hds. apply andb_true_iff in Hds as [Hc Hds].
    cbn [take_digits]. rewrite Hc. f_equal. now apply IH.
Qed.

Lemma take_digits_nil (s : jsstring) :
  take_digits s = [] ->
  match s with [] => True | c :: _ => is_digit c = false end.
Proof.
  destruct s as [|c s]; [trivial|]. cbn [take_digits].
  now destruct (is_digit c).
Qed.

Lemma match_ESP_C3_eq (s : jsstring) :
  match_ESP_C3 s
  = match match_here s with
    | Some digits => Some digits
    | None => match s with
              | [] => None
              | _ :: s' => match_ESP_C3 s'
              end
    end.
Proof. now destruct s. Qed.

Lemma match_ESP_C3_none (s : jsstring) :
  (forall pre c post,
     is_digit c = true -> s <> pre ++ u "ESP-C3-" ++ c :: post) ->
  match_ESP_C3 s = None.
Proof.
  induction s as [|a s IH]; intros H; rewrite match_ESP_C3_eq.
  - reflexivity.
  - assert (Hhere : match_here (a :: s) = None).
    { unfold match_here.
      destruct (strip_prefix (u "ESP-C3-") (a :: s)) as [rest|] eqn:E;
        [|reflexivity].
      apply strip_prefix_Some in E.
      destruct (take_digits rest) as [|d ds] eqn:T; [reflexivity|].
      destruct rest as [|c rest]; [discriminate|].
      cbn [take_digits] in T. destruct (is_digit c) eqn:D; [|discriminate].
      now destruct (H [] c rest D). }
    rewrite Hhere. apply IH. intros pre c post D ->.
    now apply (H (a :: pre) c post D).
Qed.

Lemma getBeaconDisplayName_not_string (v : value) :
  truthy v = true -> (forall s, v <> VStr s) ->
  getBeaconDisplayName v = Throw TypeError.
Proof.
  intros Ht H. unfold getBeaconDisplayName. rewrite Ht. cbn [negb].
  destruct v; try reflexivity. now destruct (H s).
Qed.

(** X9.  A name that starts with [ESP-C3-] and a number is displayed as that
    number followed by 号信标: the digits are taken as far as they run. *)
Theorem getBeaconDisplayName_numbered (ds rest : jsstring) :
  number_text ds = true ->
  match rest with [] => true | c :: _ => negb (is_digit c) end = true ->
  getBeaconDisplayName (VStr (u "ESP-C3-" ++ ds ++ rest))
  = Ok (VStr (ds ++ display_suffix)).
Proof.
  intros Hds Hrest.
  assert (Hne : ds <> []) by (intros ->; discriminate).
  assert (Hall : forallb is_digit ds = true) by (now destruct ds).
  unfold getBeaconDisplayName.
  replace (truthy (VStr (u "ESP-C3-" ++ ds ++ rest))) with true by reflexivity.
  cbn [negb]. rewrite match_ESP_C3_eq. unfold match_here.
  rewrite strip_prefix_app, (take_digits_run _ _ Hall Hrest).
  now destruct ds.
Qed.

(** X10.  The other answers of [getBeaconDisplayName]: 未知信标 for an absent or
    empty name; the name itself when it holds no [ESP-C3-] followed by a
    digit; a TypeError for a truthy name that is not a string.  Whenever it
    returns, the display name is a non-empty string. *)
Theorem getBeaconDisplayName_fallbacks :
  (forall v, truthy v = false ->
             getBeaconDisplayName v = Ok (VStr unknown_beacon))
  /\ (forall s,
        s <> [] ->
        (forall pre c post,
           is_digit c = true -> s <> pre ++ u "ESP-C3-" ++ c :: post) ->
        getBeaconDisplayName (VStr s) = Ok (VStr s))
  /\ (forall v, truthy v = true -> (forall s, v <> VStr s) ->
                getBeaconDisplayName v = Throw TypeError)
  /\ (forall v r, getBeaconDisplayName v = Ok r ->
                  exists s, r = VStr s /\ s <> []).
Proof.
  repeat split.
  - intros v H. unfold getBeaconDisplayName. now rewrite H.
  - intros s Hne H. unfold getBeaconDisplayName.
    replace (truthy (VStr s)) with true by (now destruct s).
    cbn [negb]. now rewrite match_ESP_C3_none.
  - apply getBeaconDisplayName_not_string.
  - intros v r H. unfold getBeaconDisplayName in H.
    destruct (truthy v) eqn:Ht; cbn [negb] in H.
    + destruct v as [| |b|n|s|items|props]; try discriminate.
      destruct (match_ESP_C3 s) as [ds|] eqn:M; injection H as <-.
      * eexists; split; [reflexivity|].
        unfold display_suffix. intros E. apply app_eq_nil in E as [_ E].
        discriminate.
      * exists s. split; [reflexivity|]. now destruct s.
    + injection H as <-. eexists; split; [reflexivity|discriminate].
Qed.


(** *** The two staleness tests *)

Lemma passes_filter_number (now threshold : Z) (d : Detection.t) :
  passes_filter now threshold d = true <->
  exists z, nullish (parseDetectionTime (Some d)) = false
            /\ ToNumber (parseDetectionTime (Some d)) = Num z
            /\ now - z <= threshold.
Proof.
  unfold passes_filter, js_sub. cbn [ToNumber].
  destruct (nullish (parseDetectionTime (Some d))); cbn [negb andb].
  - split; [discriminate|]. now intros (z & H & _).
  - destruct (ToNumber (parseDetectionTime (Some d))) as [|z]; cbn [js_le].
    + split; [discriminate|]. now intros (z & _ & H & _).
    + rewrite Z.leb_le. split.
      * intros H. now exists z.
      * now intros (z' & _ & [= <-] & H).
Qed.

(** X6.  [isDetectionStale] and the test inside [getValidReceivers] are each
    other's negation whenever the timestamp of a detection resolves to null
    or reads as a number: a detection is then stale exactly when it is not
    listed.  They part only when the timestamp is neither: both then answer
    false, so the detection is reported as not stale and is not listed. *)
Theorem staleness_tests_agree (d : Detection.t) (now threshold : Z) :
  let t := parseDetectionTime (Some d) in
  (nullish t = true ->
   isDetectionStale (Some d) now threshold = true
   /\ passes_filter now threshold d = false)
  /\ (forall z,
        nullish t = false -> ToNumber t = Num z ->
        passes_filter now threshold d = (now - z <=? threshold)
        /\ isDetectionStale (Some d) now threshold
           = negb (passes_filter now threshold d))
  /\ (nullish t = false -> ToNumber t = NaN ->
      isDetectionStale (Some d) now threshold = false
      /\ passes_filter now threshold d = false).
Proof.
  intros t. unfold isDetectionStale, passes_filter, js_sub. fold t.
  cbn [ToNumber]. repeat split.
  - now rewrite H.
  - now rewrite H.
  - rewrite H, H0. reflexivity.
  - rewrite H, H0. cbn [negb andb js_gt js_le]. apply Z.ltb_antisym.
  - now rewrite H, H0.
  - now rewrite H, H0.
Qed.

(** X7.  Receivers only drop out as time passes or as the threshold shrinks: a
    receiver listed at some time with some threshold is listed at every
    earlier time and with every larger threshold. *)
Theorem valid_ids_monotone (beacon : option Beacon.t)
    (now now' threshold threshold' : Z) (id : jsstring) :
  now' <= now -> threshold <= threshold' ->
  In id (valid_ids beacon now threshold) ->
  In id (valid_ids beacon now' threshold').
Proof.
  intros Hn Ht. rewrite !valid_ids_In.
  intros (d & Hin & Hp). exists d. split; [exact Hin|].
  apply passes_filter_number in Hp as (z & H1 & H2 & H3).
  apply passes_filter_number. exists z. repeat split; try assumption. lia.
Qed.

(** *** The older timestamp format *)

Lemma split_on_without (sep : N) (s : jsstring) :
  existsb (N.eqb sep) s = false -> split_on sep s = [s].
Proof.
  induction s as [|c s IH]; [reflexivity|].
  cbn [existsb split_on]. intros H. apply orb_false_iff in H as [Hc Hs].
  rewrite N.eqb_sym, Hc, (IH Hs). reflexivity.
Qed.

Lemma split_on_app (sep : N) (a b : jsstring) :
  existsb (N.eqb sep) a = false ->
  split_on sep (a ++ sep :: b) = a :: split_on sep b.
Proof.
  induction a as [|c a IH]; cbn [app existsb split_on].
  - intros _. now rewrite N.eqb_refl.
  - intros H. apply orb_false_iff in H as [Hc Ha].
    rewrite N.eqb_sym, Hc, (IH Ha). reflexivity.
Qed.

Lemma digits_without (sep : N) (s : jsstring) :
  is_digit sep = false -> forallb is_digit s = true ->
  existsb (N.eqb sep) s = false.
Proof.
  intros Hsep. induction s as [|c s IH]; [reflexivity|].
  cbn [forallb existsb]. intros H. apply andb_true_iff in H as [Hc Hs].
  rewrite (IH Hs), orb_false_r. apply N.eqb_neq. intros <-. congruence.
Qed.

Lemma existsb_app_false {A} (p : A -> bool) (a b : list A) :
  existsb p a = false -> existsb p b = false -> existsb p (a ++ b) = false.
Proof. intros Ha Hb. now rewrite existsb_app, Ha, Hb. Qed.

Lemma number_text_digits (s : jsstring) :
  number_text s = true -> s <> [] /\ forallb is_digit s = true.
Proof. destruct s; [discriminate|]. intros H. now split. Qed.

Lemma is_digit_cases (c : N) :
  is_digit c = true ->
  In c [48; 49; 50; 51; 52; 53; 54; 55; 56; 57]%N.
Proof.
  unfold is_digit. intros H. apply andb_true_iff in H as [H1 H2].
  apply N.leb_le in H1, H2. cbn [In]. lia.
Qed.

Lemma trim_start_digit (c : N) (s : jsstring) :
  is_digit c = true -> trim_start (c :: s) = c :: s.
Proof.
  intros H. apply is_digit_cases in H. cbn [In] in H.
  repeat (destruct H as [<-|H]; [reflexivity|]). destruct H.
Qed.

Lemma trim_digits (s : jsstring) :
  forallb is_digit s = true -> trim s = s.
Proof.
  intros H. unfold trim.
  assert (E1 : trim_start s = s).
  { destruct s as [|c s]; [reflexivity|]. cbn [forallb] in H.
    apply andb_true_iff in H as [Hc _]. now apply trim_start_digit. }
  rewrite E1.
  assert (E2 : trim_start (rev s) = rev s).
  { assert (Hr : forallb is_digit (rev s) = true).
    { apply forallb_forall. intros x Hx. apply in_rev in Hx.
      now apply (proj1 (forallb_forall _ _) H). }
    destruct (rev s) as [|c r]; [reflexivity|]. cbn [forallb] in Hr.
    apply andb_true_iff in Hr as [Hc _]. now apply trim_start_digit. }
  rewrite E2. apply rev_involutive.
Qed.

Lemma Number_of_string_digits (s : jsstring) :
  number_text s = true -> Number_of_string s = Num (digits_value s).
Proof.
  intros H. apply number_text_digits in H as [Hne Hall].
  unfold Number_of_string. rewrite (trim_digits _ Hall).
  destruct s as [|c s]; [congruence|].
  assert (Hc : is_digit c = true).
  { cbn [forallb] in Hall. now apply andb_true_iff in Hall as [Hc _]. }
  assert (E : unsigned_literal (c :: s) = Num (digits_value (c :: s))).
  { unfold unsigned_literal. now rewrite Hall. }
  apply is_digit_cases in Hc. cbn [In] in Hc.
  repeat (destruct Hc as [<-|Hc]; [exact E|]). destruct Hc.
Qed.

(** X4.  A detection of the older format, with no usable [update_time] and a
    [last_update] text [Y/M/D h:m:s] of six decimal numbers, is timed at the
    local time those numbers give, the month counted from zero. *)
Theorem parseDetectionTime_legacy_text (d : Detection.t)
    (y mo dd h mi s : jsstring) :
  truthy (Detection.update_time d) = false ->
  Detection.last_update d = VStr (date_text y mo dd h mi s) ->
  number_text y = true -> number_text mo = true -> number_text dd = true ->
  number_text h = true -> number_text mi = true -> number_text s = true ->
  parseDetectionTime (Some d)
  = VNum (LocalTime (digits_value y) (digits_value mo - 1) (digits_value dd)
            (digits_value h) (digits_value mi) (digits_value s)).
Proof.
  intros Hu Hl Hy Hmo Hdd Hh Hmi Hs.
  pose proof (number_text_digits _ Hy) as [Ny Dy].
  pose proof (number_text_digits _ Hmo) as [Nmo Dmo].
  pose proof (number_text_digits _ Hdd) as [Ndd Ddd].
  pose proof (number_text_digits _ Hh) as [Nh Dh].
  pose proof (number_text_digits _ Hmi) as [Nmi Dmi].
  pose proof (number_text_digits _ Hs) as [Ns Ds].
  unfold parseDetectionTime. rewrite Hu, Hl.
  replace (truthy (VStr (date_text y mo dd h mi s))) with true
    by (unfold date_text; destruct y; [congruence|reflexivity]).
  cbn [negb split_method bind].
  set (datePart := y ++ [47%N] ++ mo ++ [47%N] ++ dd).
  set (timePart := h ++ [58%N] ++ mi ++ [58%N] ++ s).
  assert (Esplit : split_on 32 (date_text y mo dd h mi s)
                   = [datePart; timePart]).
  { unfold date_text.
    replace (y ++ [47%N] ++ mo ++ [47%N] ++ dd ++ [32%N] ++ h ++ [58%N]
               ++ mi ++ [58%N] ++ s)
      with (datePart ++ 32%N :: timePart)
      by (unfold datePart, timePart; now rewrite <- !app_assoc).
    rewrite split_on_app, split_on_without; [reflexivity| |].
    - unfold timePart. repeat apply existsb_app_false;
        try reflexivity; now apply digits_without.
    - unfold datePart. repeat apply existsb_app_false;
        try reflexivity; now apply digits_without. }
  rewrite Esplit. unfold item at 1 2. cbn [nth_error split_method bind].
  assert (Edate : split_on 47 datePart = [y; mo; dd]).
  { unfold datePart. cbn [app].
    rewrite split_on_app by now apply digits_without.
    rewrite split_on_app by now apply digits_without.
    now rewrite split_on_without by now apply digits_without. }
  assert (Etime : split_on 58 timePart = [h; mi; s]).
  { unfold timePart. cbn [app].
    rewrite split_on_app by now apply digits_without.
    rewrite split_on_app by now apply digits_without.
    now rewrite split_on_without by now apply digits_without. }
  rewrite Edate, Etime. cbn [map]. unfold item. cbn [nth_error].
  rewrite !Number_of_string_digits by assumption.
  reflexivity.
Qed.


(** ** Further properties of the HTTP routes *)

Lemma parse_file_cases (f : file) :
  parse_file f
  = match f with
    | None => Throw IOError
    | Some (Text _) => Throw SyntaxError
    | Some (Json doc) => Ok doc
    end.
Proof. now destruct f as [[raw|doc]|]. Qed.

Lemma getValidReceivers_In (beacon : option Beacon.t) (now threshold : Z)
    (r : Receiver.t) :
  In r (getValidReceivers beacon now threshold) <->
  exists id d, In (id, d) (detections_of beacon)
               /\ passes_filter now threshold d = true
               /\ r = ranked (id, d).
Proof.
  split.
  - intros H. apply (Permutation_in _ (getValidReceivers_perm _ _ _)) in H.
    apply in_map_iff in H as ([id d] & <- & Hin).
    apply filter_In in Hin as [Hin Hp]. now exists id, d.
  - intros (id & d & Hin & Hp & ->).
    apply (Permutation_in _ (Permutation_sym (getValidReceivers_perm _ _ _))).
    apply in_map. apply filter_In. now split.
Qed.

(** X22.  Every receiver the visitor route lists was heard from at most
    [STALE_TIME_THRESHOLD] milliseconds before the answer: its [timeDiff] is
    a number, at most 15000, and is the answer's time less its
    [lastSeen]. *)
Theorem kb_receivers_route_fresh (f : file) (beaconId : jsstring) (now : Z)
    (reply : KbReceivers.t) (r : VisitorReceiver.t) :
  kb_receivers_route f beaconId now = Ok (Reply reply) ->
  In r (KbReceivers.receivers reply) ->
  exists seen,
    ToNumber (VisitorReceiver.lastSeen r) = Num seen
    /\ nullish (VisitorReceiver.lastSeen r) = false
    /\ VisitorReceiver.timeDiff r = Num (now - seen)
    /\ now - seen <= 15000.
Proof.
  unfold kb_receivers_route. rewrite parse_file_cases.
  destruct f as [[raw|doc]|]; cbn [bind]; try discriminate.
  destruct (findBeacon (Some doc) beaconId) as [[beacon mac]|];
    [|discriminate].
  intros [= <-]. cbn [KbReceivers.receivers]. intros Hin.
  apply in_map_iff in Hin as (x & <- & Hin).
  apply getValidReceivers_In in Hin as (id & d & _ & Hp & ->).
  apply passes_filter_number in Hp as (z & H1 & H2 & H3).
  exists z. unfold visitor_receiver, ranked, receiver_of.
  cbn [VisitorReceiver.lastSeen VisitorReceiver.timeDiff
       Receiver.lastUpdateTime snd].
  repeat split; try assumption.
  unfold js_sub. cbn [ToNumber]. now rewrite H2.
Qed.

(** X20.  The routes that read the data file answer for an absent file (empty
    data, zero counts, or a 404), and pass on the SyntaxError of a file that
    does not parse; [loadData] turns the same file into an empty
    registry. *)
Theorem routes_on_absent_or_unparsable (f : file) (beaconId : jsstring)
    (now : Z) :
  (f = None ->
   ble_data_route f now
   = Ok (Reply (DataPayload.mk [] [] (Some msg_no_file) None))
   /\ ble_status_route f now
      = Ok (Reply (Status.mk 0 0 0 0 ACTIVE_WINDOW now))
   /\ kb_receivers_route f beaconId now = Ok (NotFound msg_ble_file_missing)
   /\ ble_receivers_route f beaconId now
      = Ok (NotFound msg_ble_file_missing))
  /\ (forall raw,
        f = Some (Text raw) ->
        ble_data_route f now = Throw SyntaxError
        /\ ble_status_route f now = Throw SyntaxError
        /\ kb_receivers_route f beaconId now = Throw SyntaxError
        /\ ble_receivers_route f beaconId now = Throw SyntaxError
        /\ loadData f = Ok emptyRegistry).
Proof.
  split.
  - intros ->. repeat split.
  - intros raw ->. repeat split.
Qed.


(** *** The status route *)

Lemma counts_as_active_existsb (now : Z) (ds : list Detection.t) :
  counts_as_active now ds = existsb (detection_active now) ds.
Proof.
  induction ds as [|d ds IH]; [reflexivity|]. cbn [counts_as_active existsb].
  now destruct (detection_active now d).
Qed.

Lemma count_active_beacons_loop (now : Z) (beacons : obj Beacon.t) (n : nat) :
  fold_left
    (fun activeBeacons entry =>
       if counts_as_active now (map snd (detections_of (Some (snd entry))))
       then S activeBeacons
       else activeBeacons)
    beacons n
  = (n + List.length (filter (beacon_active now) (map snd beacons)))%nat.
Proof.
  revert n. induction beacons as [|[mac b] bs IH]; intros n;
    cbn [fold_left map filter snd]; [cbn; lia|].
  rewrite IH, counts_as_active_existsb. unfold beacon_active at 2.
  destruct (existsb _ _); cbn [List.length]; lia.
Qed.

Lemma count_active_beacons_filter (now : Z) (beacons : obj Beacon.t) :
  count_active_beacons now beacons
  = List.length (filter (beacon_active now) (map snd beacons)).
Proof. unfold count_active_beacons. now rewrite count_active_beacons_loop. Qed.

Lemma filter_length_le {A} (p : A -> bool) (l : list A) :
  (List.length (filter p l) <= List.length l)%nat.
Proof.
  induction l as [|x l IH]; [cbn; lia|]. cbn [filter].
  destruct (p x); cbn [List.length]; lia.
Qed.

(** X23.  The counters of the status route: the totals are the numbers of entries
    of the two maps; the active beacons are those with at least one
    detection that is online and at most [ACTIVE_WINDOW] old, each counted
    once; no more receivers or beacons are active than there are. *)
Theorem ble_status_route_counts (f : file) (now : Z) (st : Status.t) :
  ble_status_route f now = Ok (Reply st) ->
  Status.receivers_total st = List.length (file_devices f)
  /\ Status.receivers_active st
     = List.length (filter (device_active now) (map snd (file_devices f)))
  /\ Status.beacons_total st = List.length (file_beacons f)
  /\ Status.beacons_active st
     = List.length (filter (beacon_active now) (map snd (file_beacons f)))
  /\ (Status.receivers_active st <= Status.receivers_total st)%nat
  /\ (Status.beacons_active st <= Status.beacons_total st)%nat
  /\ Status.timestamp st = now.
Proof.
  unfold ble_status_route. rewrite parse_file_cases.
  destruct f as [[raw|doc]|]; cbn [bind]; try discriminate.
  - intros [= <-].
    cbn [Status.receivers_total Status.receivers_active Status.beacons_total
         Status.beacons_active Status.timestamp].
    unfold file_devices, file_beacons, document_of, obj_keys.
    fold (devices_of_document doc).
    rewrite !length_map, count_active_beacons_filter.
    repeat split.
    + rewrite <- (length_map snd (devices_of_document doc)).
      apply filter_length_le.
    + rewrite <- (length_map snd (beacons_of_document doc)).
      apply filter_length_le.
  - intros [= <-]. cbn. repeat split; lia.
Qed.


(** ** Further properties of the sweep *)

Lemma filter_filter_imp {A} (p q : A -> bool) (l : list A) :
  (forall x, q x = true -> p x = true) ->
  filter q (filter p l) = filter q l.
Proof.
  intros H. induction l as [|x l IH]; [reflexivity|]. cbn [filter].
  destruct (p x) eqn:P; cbn [filter].
  - now rewrite IH.
  - destruct (q x) eqn:Q; [|exact IH]. rewrite (H x Q) in P. discriminate.
Qed.

Lemma existsb_filter_imp {A} (p q : A -> bool) (l : list A) :
  (forall x, q x = true -> p x = true) ->
  existsb q (filter p l) = existsb q l.
Proof.
  intros H. induction l as [|x l IH]; [reflexivity|]. cbn [filter existsb].
  destruct (p x) eqn:P; cbn [existsb].
  - now rewrite IH.
  - destruct (q x) eqn:Q; [|exact IH]. rewrite (H x Q) in P. discriminate.
Qed.

Lemma age_exceeds_later (now now' limit : Z) (t : value) :
  now <= now' ->
  age_exceeds now limit t = true -> age_exceeds now' limit t = true.
Proof.
  intros Hn. unfold age_exceeds, js_sub. cbn [ToNumber].
  destruct (ToNumber t) as [|z]; cbn [js_gt]; [discriminate|].
  rewrite !Z.ltb_lt. lia.
Qed.

Lemma keep_device_earlier (now now' : Z) (entry : jsstring * Device.t) :
  now <= now' ->
  keep_device now' entry = true -> keep_device now entry = true.
Proof.
  intros Hn. unfold keep_device.
  destruct (age_exceeds now _ _) eqn:E; [|reflexivity].
  now rewrite (age_exceeds_later _ _ _ _ Hn E).
Qed.

Lemma keep_detection_earlier (now now' : Z) (entry : jsstring * Detection.t) :
  now <= now' ->
  keep_detection now' entry = true -> keep_detection now entry = true.
Proof.
  intros Hn. unfold keep_detection.
  destruct (age_exceeds now _ _) eqn:E; [|reflexivity].
  now rewrite (age_exceeds_later _ _ _ _ Hn E).
Qed.

Lemma prune_beacon_twice (now now' : Z) (entry : jsstring * Beacon.t) :
  now <= now' ->
  match prune_beacon now entry with
  | Some kept => prune_beacon now' kept
  | None => None
  end = prune_beacon now' entry.
Proof.
  intros Hn. unfold prune_beacon. destruct entry as [mac b]. cbn [fst snd].
  destruct (Beacon.detections b) as [ds|]; [|reflexivity].
  destruct (existsb (keep_detection now) ds) eqn:E.
  - cbn [fst snd Beacon.name Beacon.first_seen Beacon.detections].
    rewrite existsb_filter_imp, filter_filter_imp;
      try (intros x; apply keep_detection_earlier; exact Hn).
    reflexivity.
  - destruct (existsb (keep_detection now') ds) eqn:E'; [|reflexivity].
    apply existsb_exists in E' as (x & Hin & Hx).
    assert (existsb (keep_detection now) ds = true).
    { apply existsb_exists. exists x. split; [exact Hin|].
      now apply (keep_detection_earlier now now'). }
    congruence.
Qed.

Lemma filter_map_twice {A} (f g : A -> option A) (l : list A) :
  (forall x, match f x with Some y => g y | None => None end = g x) ->
  filter_map g (filter_map f l) = filter_map g l.
Proof.
  intros H. induction l as [|x l IH]; [reflexivity|]. cbn [filter_map].
  rewrite <- (H x). destruct (f x) as [y|]; cbn [filter_map]; now rewrite IH.
Qed.

Lemma sweep_devices_kept (now : Z) (devices : obj Device.t) :
  (forall entry, In entry devices -> keep_device now entry = true) ->
  sweep_devices now devices = (devices, 0%nat).
Proof.
  intros H. unfold sweep_devices. generalize (obj_keys devices) as keys.
  induction keys as [|k keys IH]; [reflexivity|]. cbn [fold_left].
  rewrite <- IH at 2. f_equal. unfold sweep_device_step.
  destruct (obj_get devices k) as [d|] eqn:G; [|reflexivity].
  apply obj_get_In, H in G. unfold keep_device, age_exceeds in G.
  cbn [snd] in G. apply negb_true_iff in G. now rewrite G.
Qed.

Lemma sweep_detections_kept (now : Z) (ds : obj Detection.t) :
  ds <> [] ->
  (forall entry, In entry ds -> keep_detection now entry = true) ->
  sweep_detections now ds = (ds, 0%nat, true).
Proof.
  intros Hne H.
  assert (Hstep : forall k r, exists r',
             sweep_detection_step now (ds, 0%nat, r) k = (ds, 0%nat, r')
             /\ (r = true \/ obj_get ds k <> None -> r' = true)).
  { intros k r. unfold sweep_detection_step.
    destruct (obj_get ds k) as [d|] eqn:G.
    - apply obj_get_In, H in G. unfold keep_detection, age_exceeds in G.
      cbn [snd] in G. apply negb_true_iff in G. rewrite G.
      exists true. now split.
    - exists r. split; [reflexivity|]. now intros [->|E]. }
  assert (Hloop : forall keys,
             fold_left (sweep_detection_step now) keys (ds, 0%nat, true)
             = (ds, 0%nat, true)).
  { induction keys as [|k keys IH]; [reflexivity|]. cbn [fold_left].
    destruct (Hstep k true) as (r' & -> & Hr'). rewrite Hr' by now left.
    exact IH. }
  unfold sweep_detections. destruct ds as [|[k d] ds]; [congruence|].
  unfold obj_keys. cbn [map fst fold_left].
  destruct (Hstep k false) as (r' & -> & Hr'). rewrite Hr'; [apply Hloop|].
  right. cbn [obj_get]. now rewrite str_eqb_refl.
Qed.

Lemma sweep_beacons_kept (now : Z) (beacons : obj Beacon.t) :
  (forall mac b, In (mac, b) beacons ->
     exists ds, Beacon.detections b = Some ds /\ ds <> []
                /\ forall entry, In entry ds -> keep_detection now entry = true) ->
  sweep_beacons now beacons = (beacons, 0%nat).
Proof.
  intros H. unfold sweep_beacons. generalize (obj_keys beacons) as keys.
  induction keys as [|k keys IH]; [reflexivity|]. cbn [fold_left].
  rewrite <- IH at 2. f_equal. unfold sweep_beacon_step.
  destruct (obj_get beacons k) as [b|] eqn:G; [|reflexivity].
  destruct (H _ _ (obj_get_In _ _ _ G)) as (ds & D & Hne & Hkeep).
  rewrite D, (sweep_detections_kept now ds Hne Hkeep). cbn [negb].
  f_equal. apply obj_set_same. rewrite G. f_equal.
  destruct b as [name first_seen dets]. cbn in *. now rewrite D.
Qed.

(** X16.  Sweeping twice is sweeping once at the later time: what a sweep at
    [now'] leaves of the registry a sweep at [now <= now'] left is what it
    leaves of the registry itself; and a second sweep at the same time
    removes nothing. *)
Theorem sweep_twice (now now' : Z) (data : Registry.t) :
  registry_wf data ->
  now <= now' ->
  fst (sweep now' (fst (sweep now data))) = fst (sweep now' data)
  /\ sweep now (fst (sweep now data)) = (fst (sweep now data), 0%nat).
Proof.
  intros Hwf Hn. pose proof (swept_wf now data Hwf) as Hwf'. split.
  - rewrite (sweep_filter now' _ Hwf'), (sweep_filter now' _ Hwf),
      (sweep_filter now _ Hwf).
    cbn [Registry.devices Registry.beacons]. f_equal.
    + apply filter_filter_imp. intros x. now apply keep_device_earlier.
    + apply filter_map_twice. intros x. now apply prune_beacon_twice.
  - rewrite (sweep_filter now _ Hwf). unfold sweep.
    cbn [Registry.devices Registry.beacons].
    rewrite sweep_devices_kept, sweep_beacons_kept; [reflexivity| |].
    + intros mac b Hin. apply filter_map_In in Hin as ([k b0] & Hin & P).
      unfold prune_beacon in P. cbn [fst snd] in P.
      destruct (Beacon.detections b0) as [ds|]; [|discriminate].
      destruct (existsb (keep_detection now) ds) eqn:E; [|discriminate].
      injection P as <- <-. cbn [Beacon.detections].
      exists (filter (keep_detection now) ds). split; [reflexivity|]. split.
      * apply existsb_exists in E as (x & Hx & Kx). intros Hnil.
        assert (Hf : In x (filter (keep_detection now) ds))
          by (apply filter_In; now split).
        rewrite Hnil in Hf. destruct Hf.
      * intros entry He. now apply filter_In in He as [_ He].
    + intros entry He. now apply filter_In in He as [_ He].
Qed.


(** ** Further properties of plugin/蓝牙.js *)

(** *** The counters of [showStatistics] *)

Lemma count_detections_filter (now : Z) (detections : obj Detection.t)
    (acc : list value) :
  count_detections now detections acc
  = (List.length (filter (detection_active_plugin now) (map snd detections)),
     acc ++ map Detection.rssi
              (filter (detection_active_plugin now) (map snd detections))).
Proof.
  unfold count_detections.
  assert (H : forall n,
             fold_left
               (fun st entry =>
                  let '(activeCount, rssiValues) := st in
                  if detection_active_plugin now (snd entry)
                  then (S activeCount,
                        rssiValues ++ [Detection.rssi (snd entry)])
                  else (activeCount, rssiValues))
               detections (n, acc)
             = ((n + List.length
                       (filter (detection_active_plugin now)
                          (map snd detections)))%nat,
                acc ++ map Detection.rssi
                         (filter (detection_active_plugin now)
                            (map snd detections)))).
  { revert acc. induction detections as [|[id d] ds IH]; intros acc n;
      cbn [fold_left map filter snd].
    - cbn. now rewrite Nat.add_0_r, app_nil_r.
    - destruct (detection_active_plugin now d); rewrite IH;
        cbn [List.length map]; [|reflexivity].
      rewrite <- app_assoc. f_equal. lia. }
  apply (H 0%nat).
Qed.

Lemma statistics_loop (now : Z) (beacons : obj Beacon.t)
    (a m s : nat) (r : list value) :
  let n b := List.length (active_detections now b) in
  fold_left
    (fun st entry =>
       let '(activeBeacons, multi, single, rssiValues) := st in
       let '(activeCount, rssiValues) :=
         count_detections now (detections_of (Some (snd entry))) rssiValues in
       if (0 <? activeCount)%nat
       then if (1 <? activeCount)%nat
            then (S activeBeacons, S multi, single, rssiValues)
            else (S activeBeacons, multi, S single, rssiValues)
       else (activeBeacons, multi, single, rssiValues))
    beacons (a, m, s, r)
  = ((a + List.length (filter (fun b => (0 <? n b)%nat) (map snd beacons)))%nat,
     (m + List.length (filter (fun b => (1 <? n b)%nat) (map snd beacons)))%nat,
     (s + List.length (filter (fun b => (n b =? 1)%nat) (map snd beacons)))%nat,
     r ++ flat_map (fun b => map Detection.rssi (active_detections now b))
            (map snd beacons)).
Proof.
  intros n. revert a m s r.
  induction beacons as [|[mac b] bs IH]; intros a m s r;
    cbn [fold_left map filter flat_map snd].
  - cbn. now rewrite !Nat.add_0_r, app_nil_r.
  - rewrite count_detections_filter.
    fold (active_detections now b). fold (n b).
    destruct (0 <? n b)%nat eqn:E0, (1 <? n b)%nat eqn:E1,
      (n b =? 1)%nat eqn:E2;
      try (exfalso;
           repeat match goal with
                  | H : (_ <? _)%nat = true |- _ => apply Nat.ltb_lt in H
                  | H : (_ <? _)%nat = false |- _ => apply Nat.ltb_ge in H
                  | H : (_ =? _)%nat = true |- _ => apply Nat.eqb_eq in H
                  | H : (_ =? _)%nat = false |- _ => apply Nat.eqb_neq in H
                  end; lia);
      rewrite IH; cbn [List.length]; rewrite <- ?app_assoc;
      (apply f_equal2; [apply f_equal2; [apply f_equal2|]|]);
      try reflexivity; lia.
Qed.

Lemma statistics_eq (data : Registry.t) (now : Z) :
  let n b := List.length (active_detections now b) in
  let beacons := map snd (Registry.beacons data) in
  statistics data now
  = Statistics.mk
      (List.length (Registry.devices data))
      (List.length
         (filter
            (fun d =>
               js_le (js_sub (VNum (Num now)) (Device.update d))
                 (Num ACTIVE_WINDOW))
            (map snd (Registry.devices data))))
      (List.length (Registry.beacons data))
      (List.length (filter (fun b => (0 <? n b)%nat) beacons))
      (List.length (filter (fun b => (1 <? n b)%nat) beacons))
      (List.length (filter (fun b => (n b =? 1)%nat) beacons))
      (flat_map (fun b => map Detection.rssi (active_detections now b)) beacons).
Proof.
  intros n beacons. unfold statistics. rewrite statistics_loop.
  unfold obj_keys. rewrite !length_map. reflexivity.
Qed.

Lemma count_split {A} (n : A -> nat) (l : list A) :
  (List.length (filter (fun b => (1 <? n b)%nat) l)
   + List.length (filter (fun b => (n b =? 1)%nat) l)
   = List.length (filter (fun b => (0 <? n b)%nat) l))%nat.
Proof.
  induction l as [|x l IH]; [reflexivity|]. cbn [filter].
  destruct (0 <? n x)%nat eqn:E0, (1 <? n x)%nat eqn:E1,
    (n x =? 1)%nat eqn:E2; cbn [List.length];
    repeat match goal with
           | H : (_ <? _)%nat = true |- _ => apply Nat.ltb_lt in H
           | H : (_ <? _)%nat = false |- _ => apply Nat.ltb_ge in H
           | H : (_ =? _)%nat = true |- _ => apply Nat.eqb_eq in H
           | H : (_ =? _)%nat = false |- _ => apply Nat.eqb_neq in H
           end; lia.
Qed.

Lemma count_strengths {A B} (n : A -> nat) (g : A -> list B) (l : list A) :
  (forall b, List.length (g b) = n b) ->
  (List.length (filter (fun b => (n b =? 1)%nat) l)
   + 2 * List.length (filter (fun b => (1 <? n b)%nat) l)
   <= List.length (flat_map g l))%nat.
Proof.
  intros Hg. induction l as [|x l IH]; [cbn; lia|]. cbn [filter flat_map].
  rewrite length_app, Hg.
  destruct (n x =? 1)%nat eqn:E2, (1 <? n x)%nat eqn:E1; cbn [List.length];
    repeat match goal with
           | H : (_ <? _)%nat = true |- _ => apply Nat.ltb_lt in H
           | H : (_ <? _)%nat = false |- _ => apply Nat.ltb_ge in H
           | H : (_ =? _)%nat = true |- _ => apply Nat.eqb_eq in H
           | H : (_ =? _)%nat = false |- _ => apply Nat.eqb_neq in H
           end; lia.
Qed.

(** X17.  The counters of [showStatistics] fit together: every active beacon is
    counted as heard by one receiver or by several, never both; no more
    receivers or beacons are active than there are; and the strengths
    collected are those of the active detections, beacon by beacon, so there
    is at least one for each single-receiver beacon and two for each
    multi-receiver beacon. *)
Theorem statistics_counters (data : Registry.t) (now : Z) :
  let s := statistics data now in
  (Statistics.multiReceiverBeacons s + Statistics.singleReceiverBeacons s
   = Statistics.activeBeacons s)%nat
  /\ (Statistics.activeBeacons s <= Statistics.totalBeacons s)%nat
  /\ (Statistics.activeReceivers s <= Statistics.totalReceivers s)%nat
  /\ Statistics.rssiValues s
     = flat_map (fun b => map Detection.rssi (active_detections now b))
         (map snd (Registry.beacons data))
  /\ (Statistics.singleReceiverBeacons s
      + 2 * Statistics.multiReceiverBeacons s
      <= List.length (Statistics.rssiValues s))%nat.
Proof.
  intros s. unfold s. rewrite statistics_eq.
  cbn [Statistics.multiReceiverBeacons Statistics.singleReceiverBeacons
       Statistics.activeBeacons Statistics.totalBeacons
       Statistics.activeReceivers Statistics.totalReceivers
       Statistics.rssiValues].
  split; [apply count_split|]. split.
  { rewrite <- (length_map snd (Registry.beacons data)).
    apply filter_length_le. }
  split.
  { rewrite <- (length_map snd (Registry.devices data)).
    apply filter_length_le. }
  split; [reflexivity|].
  apply count_strengths. intros b. apply length_map.
Qed.

Lemma active_tests_agree (now : Z) (t : value) :
  ACTIVE_WINDOW < now ->
  js_le (js_sub (VNum (Num now)) (js_or t (VNum (Num 0)))) (Num ACTIVE_WINDOW)
  = js_le (js_sub (VNum (Num now)) t) (Num ACTIVE_WINDOW).
Proof.
  intros Hn. unfold js_or. destruct (truthy t) eqn:T; [reflexivity|].
  unfold js_sub. cbn [ToNumber].
  assert (E : (now - 0 <=? ACTIVE_WINDOW) = false) by (apply Z.leb_gt; lia).
  cbn [js_le]. rewrite E.
  destruct (ToNumber t) as [|z] eqn:N; [reflexivity|]. cbn [js_le].
  replace z with 0; [exact (eq_sym E)|].
  destruct t as [| |[|]|[|z']|s|items|props]; cbn in T, N; try discriminate;
    try (now injection N as <-).
  - injection N as <-. destruct (Z.eqb_spec z' 0); [congruence|discriminate].
  - destruct s; [|discriminate]. now injection N as <-.
Qed.

(** X18.  The plugin and the status route count the same receivers and beacons as
    active once the clock is past the first [ACTIVE_WINDOW] milliseconds of
    the epoch: the route reads an absent timestamp as 0, the plugin as NaN,
    and neither is within the window then. *)
Theorem statistics_matches_status (data : Registry.t) (now : Z) :
  ACTIVE_WINDOW < now ->
  Statistics.activeReceivers (statistics data now)
  = List.length (filter (device_active now) (map snd (Registry.devices data)))
  /\ Statistics.activeBeacons (statistics data now)
     = count_active_beacons now (Registry.beacons data).
Proof.
  intros Hn. rewrite statistics_eq, count_active_beacons_filter.
  cbn [Statistics.activeReceivers Statistics.activeBeacons]. split.
  - f_equal. apply filter_ext. intros d. unfold device_active.
    now rewrite active_tests_agree.
  - f_equal. apply filter_ext. intros b.
    unfold beacon_active, active_detections.
    generalize (map snd (detections_of (Some b))) as ds.
    induction ds as [|d ds IH]; [reflexivity|]. cbn [filter existsb].
    assert (E : detection_active now d = detection_active_plugin now d).
    { unfold detection_active, detection_active_plugin.
      now rewrite active_tests_agree. }
    rewrite E. destruct (detection_active_plugin now d); [reflexivity|].
    exact IH.
Qed.


(** *** Repair and reset *)

Lemma loadData_empty_document :
  loadData (Some (JSON_stringify emptyRegistry)) = Ok emptyRegistry.
Proof. reflexivity. Qed.

(** X19.  [checkAndRepairDataFile] leaves a file that parses as it is, and
    never changes what [loadData] returns; a file that is absent or does
    not parse is replaced by the empty registry document when the write
    succeeds, and left as it is when the write fails. *)
Theorem checkAndRepairDataFile_repairs (f : file) (disk_ok : bool) :
  ((exists doc, f = Some (Json doc)) ->
   checkAndRepairDataFile f disk_ok = f)
  /\ loadData (checkAndRepairDataFile f disk_ok) = loadData f
  /\ (f = None \/ (exists raw, f = Some (Text raw)) ->
      checkAndRepairDataFile f disk_ok
      = if disk_ok then Some (JSON_stringify emptyRegistry) else f).
Proof.
  unfold checkAndRepairDataFile. rewrite parse_file_cases.
  destruct f as [[raw|doc]|].
  - split; [now intros [doc [=]]|]. rewrite saveData_file.
    split; [now destruct disk_ok|]. reflexivity.
  - split; [reflexivity|]. split; [reflexivity|].
    intros [[=]|[raw [=]]].
  - split; [now intros [doc [=]]|]. rewrite saveData_file.
    split; [now destruct disk_ok|]. reflexivity.
Qed.

(** X27.  The reset route changes nothing for a request that is not authorized
    and answers 403; for an authorized request whose write succeeds, every
    reader finds the registry empty afterwards: [loadData] returns no
    receiver and no beacon, the status route counts zero, the data route
    answers 暂无数据 and every beacon lookup is a 404.  The [#蓝牙重置]
    command leaves the same file. *)
Theorem ble_reset_route_effect (f : file) (authorized disk_ok : bool)
    (beaconId : jsstring) (now : Z) :
  let f' := fst (ble_reset_route f authorized disk_ok) in
  (authorized = false ->
   ble_reset_route f authorized disk_ok = (f, Ok (Forbidden msg_forbidden)))
  /\ (disk_ok = false -> f' = f)
  /\ (authorized = true -> disk_ok = true ->
      snd (ble_reset_route f authorized disk_ok) = Ok (Reply tt)
      /\ f' = resetBLEData f disk_ok
      /\ loadData f' = Ok emptyRegistry
      /\ ble_status_route f' now
         = Ok (Reply (Status.mk 0 0 0 0 ACTIVE_WINDOW now))
      /\ ble_data_route f' now
         = Ok (Reply (DataPayload.mk [] [] (Some msg_no_data) None))
      /\ kb_receivers_route f' beaconId now
         = Ok (NotFound msg_beacon_not_found)
      /\ ble_receivers_route f' beaconId now
         = Ok (NotFound msg_beacon_not_found)).
Proof.
  intros f'. unfold f', ble_reset_route. split; [now intros ->|].
  split; [intros ->; now destruct authorized|].
  intros -> ->. cbn [negb fst snd]. repeat split.
Qed.

(** *** A report is merged whole or not at all *)




(** *** What a report leaves of the rest of the file *)

Lemma beacon_get_set (data : Registry.t) (k mac : jsstring) (b : Beacon.t) :
  obj_get (Registry.beacons (set_beacons data (obj_set (Registry.beacons data) k b)))
    mac
  = if str_eqb k mac then Some b else obj_get (Registry.beacons data) mac.
Proof. cbn [set_beacons Registry.beacons]. apply obj_get_set. Qed.

(** The beacon a registry holds at [mac] after one loop iteration. *)
Lemma ingest_beacon_beacon (e : Event.t) (now : Z) (data data' : Registry.t)
    (beacon : BeaconReport.t) (mac : jsstring) :
  ingest_beacon e now data beacon = Ok data' ->
  if truthy (BeaconReport.mac beacon)
     && str_eqb (ToString (BeaconReport.mac beacon)) mac
  then exists b',
         obj_get (Registry.beacons data') mac = Some b'
         /\ Beacon.first_seen b'
            = match obj_get (Registry.beacons data) mac with
              | Some b => Beacon.first_seen b
              | None => VNum (Num now)
              end
         /\ Beacon.name b'
            = if truthy (BeaconReport.name beacon) then BeaconReport.name beacon
              else match obj_get (Registry.beacons data) mac with
                   | Some b => Beacon.name b
                   | None => BeaconReport.name beacon
                   end
  else obj_get (Registry.beacons data') mac
       = obj_get (Registry.beacons data) mac.
Proof.
  destruct (truthy (BeaconReport.mac beacon)) eqn:Hb; cbn [andb].
  2:{ unfold ingest_beacon. rewrite Hb. now intros [= <-]. }
  intros H. apply (ingest_beacon_steps _ _ _ _ _ Hb) in H
    as (d2 & r & Hren & _ & Hrec).
  set (k := ToString (BeaconReport.mac beacon)) in *.
  set (d1 := ensure_beacon now beacon k data) in *.
  assert (H1 : forall m,
             obj_get (Registry.beacons d1) m
             = if str_eqb k m
               then match obj_get (Registry.beacons data) m with
                    | Some b => Some b
                    | None =>
                        if inherits k then None
                        else Some (Beacon.mk (BeaconReport.name beacon)
                                     (VNum (Num now)) (Some []))
                    end
               else obj_get (Registry.beacons data) m).
  { intros m. unfold d1, ensure_beacon.
    destruct (obj_get (Registry.beacons data) k) as [b|] eqn:G.
    - destruct (str_eqb k m) eqn:Ek; [|reflexivity].
      apply str_eqb_eq in Ek. subst m. now rewrite G.
    - destruct (inherits k) eqn:Ei.
      + destruct (str_eqb k m) eqn:Ek; [|reflexivity].
        apply str_eqb_eq in Ek. subst m. now rewrite G.
      + rewrite (obj_assign_set _ _ _ (inherits_proto _ Ei)), beacon_get_set.
        destruct (str_eqb k m) eqn:Ek; [|reflexivity].
        apply str_eqb_eq in Ek. subst m. now rewrite G. }
  assert (H2 : forall m,
             obj_get (Registry.beacons d2) m
             = if str_eqb k m
               then match obj_get (Registry.beacons d1) m with
                    | Some b =>
                        Some (if truthy (BeaconReport.name beacon)
                              then Beacon.mk (BeaconReport.name beacon)
                                     (Beacon.first_seen b) (Beacon.detections b)
                              else b)
                    | None => None
                    end
               else obj_get (Registry.beacons d1) m).
  { intros m. unfold rename_beacon in Hren.
    destruct (truthy (BeaconReport.name beacon)).
    - destruct (obj_get (Registry.beacons d1) k) as [b|] eqn:G.
      + injection Hren as <-. rewrite beacon_get_set.
        destruct (str_eqb k m) eqn:Ek; [|reflexivity].
        apply str_eqb_eq in Ek. subst m. now rewrite G.
      + destruct (str_eqb k proto_key); [|discriminate]. injection Hren as <-.
        destruct (str_eqb k m) eqn:Ek; [|reflexivity].
        apply str_eqb_eq in Ek. subst m. now rewrite G.
    - injection Hren as <-. destruct (str_eqb k m) eqn:Ek; [|reflexivity].
      now destruct (obj_get (Registry.beacons d1) m). }
  unfold record_detection in Hrec.
  destruct (obj_get (Registry.beacons d2) k) as [b2|] eqn:G2; [|discriminate].
  destruct (Beacon.detections b2) as [ds|]; [|discriminate].
  injection Hrec as <-. rewrite beacon_get_set.
  destruct (str_eqb k mac) eqn:Ek.
  - apply str_eqb_eq in Ek. subst mac.
    eexists. split; [reflexivity|].
    cbn [Beacon.first_seen Beacon.name].
    rewrite H2, str_eqb_refl, H1, str_eqb_refl in G2.
    destruct (obj_get (Registry.beacons data) k) as [b|].
    + injection G2 as <-.
      destruct (truthy (BeaconReport.name beacon)); now split.
    + destruct (inherits k); [discriminate|]. injection G2 as <-.
      destruct (truthy (BeaconReport.name beacon)); now split.
  - now rewrite H2, Ek, H1, Ek.
Qed.

(** The beacon a registry holds at [mac] after the loop: a beacon that was
    there keeps its [first_seen]; one the report addresses for the first
    time is first seen at [now]. *)
Lemma ingest_beacons_first_seen (e : Event.t) (now : Z)
    (beacons : list BeaconReport.t) (data data' : Registry.t)
    (mac : jsstring) :
  ingest_beacons e now data beacons = Ok data' ->
  match obj_get (Registry.beacons data) mac with
  | Some b =>
      exists b', obj_get (Registry.beacons data') mac = Some b'
                 /\ Beacon.first_seen b' = Beacon.first_seen b
  | None =>
      match last_entry beacons mac with
      | Some _ =>
          exists b', obj_get (Registry.beacons data') mac = Some b'
                     /\ Beacon.first_seen b' = VNum (Num now)
      | None => obj_get (Registry.beacons data') mac = None
      end
  end.
Proof.
  revert data. induction beacons as [|bk rest IH]; intros data;
    cbn [ingest_beacons last_entry].
  - intros [= <-]. destruct (obj_get _ mac) as [b|]; eauto.
  - destruct (ingest_beacon e now data bk) as [d1|] eqn:E; [|discriminate].
    cbn [bind]. intros H. specialize (IH _ H).
    pose proof (ingest_beacon_beacon _ _ _ _ _ mac E) as H1.
    destruct (truthy (BeaconReport.mac bk) && _).
    + destruct H1 as (b1 & G1 & F1 & _). rewrite G1 in IH.
      destruct IH as (b' & G' & F'). rewrite F1 in F'.
      destruct (obj_get (Registry.beacons data) mac) as [b|].
      * eauto.
      * destruct (last_entry rest mac); eauto.
    + rewrite H1 in IH.
      destruct (obj_get (Registry.beacons data) mac) as [b|]; [exact IH|].
      destruct (last_entry rest mac); exact IH.
Qed.

Lemma ingest_beacon_others (e : Event.t) (now : Z) (data data' : Registry.t)
    (beacon : BeaconReport.t) (mac id : jsstring) :
  ingest_beacon e now data beacon = Ok data' ->
  str_eqb (ToString (Event.device_id e)) id = false ->
  registry_detection data' mac id = registry_detection data mac id.
Proof.
  destruct (truthy (BeaconReport.mac beacon)) eqn:Hb.
  2:{ unfold ingest_beacon. rewrite Hb. now intros [= <-]. }
  intros H Hid. apply (ingest_beacon_steps _ _ _ _ _ Hb) in H
    as (renamed & r & H1 & _ & H2).
  rewrite (record_detection_other _ _ _ _ mac id _ _ _ Hid H2).
  now rewrite (rename_beacon_detection _ _ _ _ _ _ H1), ensure_beacon_detection.
Qed.

Lemma ingest_beacons_others (e : Event.t) (now : Z)
    (beacons : list BeaconReport.t) (data data' : Registry.t)
    (mac id : jsstring) :
  ingest_beacons e now data beacons = Ok data' ->
  str_eqb (ToString (Event.device_id e)) id = false ->
  registry_detection data' mac id = registry_detection data mac id.
Proof.
  revert data. induction beacons as [|b rest IH]; intros data;
    cbn [ingest_beacons].
  - now intros [= <-].
  - destruct (ingest_beacon e now data b) as [d1|] eqn:E; [|discriminate].
    cbn [bind]. intros H Hid. rewrite (IH _ H Hid).
    exact (ingest_beacon_others _ _ _ _ _ _ _ E Hid).
Qed.

(** A detection that is there stays there: the loop overwrites, it does not
    delete. *)
Lemma ingest_beacon_keeps (e : Event.t) (now : Z) (data data' : Registry.t)
    (beacon : BeaconReport.t) (mac id : jsstring) :
  ingest_beacon e now data beacon = Ok data' ->
  registry_detection data mac id <> None ->
  registry_detection data' mac id <> None.
Proof.
  destruct (truthy (BeaconReport.mac beacon)) eqn:Hb.
  2:{ unfold ingest_beacon. rewrite Hb. now intros [= <-]. }
  intros H. apply (ingest_beacon_steps _ _ _ _ _ Hb) in H
    as (renamed & r & H1 & _ & H2).
  rewrite <- (ensure_beacon_detection now beacon
                (ToString (BeaconReport.mac beacon)) mac id data).
  rewrite <- (rename_beacon_detection _ _ _ _ _ _ H1).
  unfold record_detection in H2.
  destruct (obj_get (Registry.beacons renamed) _) as [b|] eqn:E;
    [|discriminate].
  destruct (Beacon.detections b) as [ds|] eqn:Eds; [|discriminate].
  injection H2 as <-. rewrite registry_detection_set.
  destruct (str_eqb _ mac) eqn:Ek; [|trivial].
  apply str_eqb_eq in Ek. subst mac.
  unfold registry_detection. rewrite E. cbn [detections_of Beacon.detections].
  rewrite Eds.
  destruct (obj_assign_cases ds (ToString (Event.device_id e))
              (new_detection e now beacon r)) as [-> | ->]; [trivial|].
  rewrite obj_get_set. now destruct (str_eqb _ id).
Qed.

Lemma ingest_beacons_keeps (e : Event.t) (now : Z)
    (beacons : list BeaconReport.t) (data data' : Registry.t)
    (mac id : jsstring) :
  ingest_beacons e now data beacons = Ok data' ->
  registry_detection data mac id <> None ->
  registry_detection data' mac id <> None.
Proof.
  revert data. induction beacons as [|b rest IH]; intros data;
    cbn [ingest_beacons].
  - now intros [= <-].
  - destruct (ingest_beacon e now data b) as [d1|] eqn:E; [|discriminate].
    cbn [bind]. intros H Hd. apply (IH _ H).
    exact (ingest_beacon_keeps _ _ _ _ _ _ _ E Hd).
Qed.

Lemma obj_get_assign_keeps {A} (o : obj A) (k k' : jsstring) (v : A) :
  obj_get o k' <> None -> obj_get (obj_assign o k v) k' <> None.
Proof.
  destruct (obj_assign_cases o k v) as [-> | ->]; [trivial|].
  rewrite obj_get_set. now destruct (str_eqb k k').
Qed.

Lemma obj_get_assign_other {A} (o : obj A) (k k' : jsstring) (v : A) :
  str_eqb k k' = false -> obj_get (obj_assign o k v) k' = obj_get o k'.
Proof.
  intros H. destruct (obj_assign_cases o k v) as [-> | ->]; [reflexivity|].
  now rewrite obj_get_set, H.
Qed.

(** X14.  On a data file without [__proto__] keys, a report removes nothing
    and touches only its own receiver's entries: every receiver, beacon and
    detection of the file is still there after [handleBLEData]; and the
    record of any other receiver and every detection by any other receiver
    are as they were, or as they were decoded by [loadData] and written by
    [saveData]. *)
Theorem handleBLEData_keeps_others (f : file) (e : Event.t) (now : Z)
    (disk_ok : bool) (mac id : jsstring) :
  file_ordinary f = true ->
  let f' := handleBLEData f e now disk_ok in
  (file_device f id <> None -> file_device f' id <> None)
  /\ (obj_get (file_beacons f) mac <> None ->
      obj_get (file_beacons f') mac <> None)
  /\ (file_detection f mac id <> None -> file_detection f' mac id <> None)
  /\ (id <> ToString (Event.device_id e) ->
      (file_device f' id = file_device f id
       \/ file_device f' id
          = option_map (fun d => jsonDevice (decodeDevice d)) (file_device f id))
      /\ (file_detection f' mac id = file_detection f mac id
          \/ file_detection f' mac id
             = option_map (fun d => jsonDetection (decodeDetection d))
                 (file_detection f mac id))).
Proof.
  intros Hord f'. unfold f'. rewrite handleBLEData_cases.
  assert (Hsame : (file_device f id <> None -> file_device f id <> None)
                  /\ (obj_get (file_beacons f) mac <> None ->
                      obj_get (file_beacons f) mac <> None)
                  /\ (file_detection f mac id <> None ->
                      file_detection f mac id <> None)
                  /\ (id <> ToString (Event.device_id e) ->
                      (file_device f id = file_device f id
                       \/ file_device f id
                          = option_map (fun d => jsonDevice (decodeDevice d))
                              (file_device f id))
                      /\ (file_detection f mac id = file_detection f mac id
                          \/ file_detection f mac id
                             = option_map
                                 (fun d => jsonDetection (decodeDetection d))
                                 (file_detection f mac id)))).
  { repeat split; try (intros H; exact H); now left. }
  destruct (negb (truthy (Event.device_id e)) || _); [exact Hsame|].
  destruct (ingest_beacons _ _ _ _) as [data|err] eqn:E; [|exact Hsame].
  destruct disk_ok; [|exact Hsame]. clear Hsame.
  destruct (file_ordinary_parts f Hord) as (Hod & Hob & _).
  pose proof (ingest_beacons_devices _ _ _ _ _ E) as Hdev.
  unfold merge_start in E, Hdev.
  rewrite (decode_map_ordinary _ _ Hod), (decode_map_ordinary _ _ Hob) in E.
  rewrite (decode_map_ordinary _ _ Hod) in Hdev.
  cbn [Registry.devices] in Hdev.
  assert (Hstart : forall m i,
             registry_detection
               (Registry.mk
                  (obj_assign (map_values decodeDevice (file_devices f))
                     (ToString (Event.device_id e)) (device_of e now))
                  (map_values decodeBeacon (file_beacons f))) m i
             = option_map decodeDetection (file_detection f m i)).
  { intros m i. now apply registry_detection_decoded. }
  split; [|split; [|split]].
  - rewrite file_device_stringify, Hdev. intros H.
    assert (Hk : obj_get (obj_assign (map_values decodeDevice (file_devices f))
                            (ToString (Event.device_id e)) (device_of e now)) id
                 <> None).
    { apply obj_get_assign_keeps. rewrite map_values_get. unfold file_device in H.
      now destruct (obj_get (file_devices f) id). }
    now destruct (obj_get _ id).
  - rewrite file_beacon_stringify.
    pose proof (ingest_beacons_first_seen _ _ _ _ _ mac E) as H.
    cbn [Registry.beacons] in H. rewrite map_values_get in H.
    destruct (obj_get (file_beacons f) mac) as [b|]; [|congruence].
    cbn [option_map] in H. destruct H as (b' & -> & _). discriminate.
  - rewrite file_detection_stringify. intros H.
    assert (Hk : registry_detection data mac id <> None).
    { apply (ingest_beacons_keeps _ _ _ _ _ _ _ E). rewrite Hstart.
      now destruct (file_detection f mac id). }
    now destruct (registry_detection data mac id).
  - intros Hne.
    assert (Hid : str_eqb (ToString (Event.device_id e)) id = false).
    { apply str_eqb_neq. congruence. }
    split; right.
    + rewrite file_device_stringify, Hdev, (obj_get_assign_other _ _ _ _ Hid).
      rewrite map_values_get. unfold file_device.
      now destruct (obj_get (file_devices f) id).
    + rewrite file_detection_stringify.
      rewrite (ingest_beacons_others _ _ _ _ _ mac id E Hid), Hstart.
      now destruct (file_detection f mac id).
Qed.

(** X15.  A beacon's [first_seen] is written once.  On a data file without
    [__proto__] keys a report leaves the [first_seen] of every beacon of
    the file as it was (or as it was, decoded and written again); and a
    beacon that a report which is merged and written is the first to
    address is first seen at the time of the report. *)
Theorem handleBLEData_first_seen (f : file) (e : Event.t) (now : Z)
    (mac : jsstring) :
  file_ordinary f = true ->
  (forall disk_ok b,
     obj_get (file_beacons f) mac = Some b ->
     exists b',
       obj_get (file_beacons (handleBLEData f e now disk_ok)) mac = Some b'
       /\ (Beacon.first_seen b' = Beacon.first_seen b
           \/ Beacon.first_seen b'
              = jsonify (decodeObject (Beacon.first_seen b))))
  /\ (obj_get (file_beacons f) mac = None ->
      truthy (Event.device_id e) = true ->
      report_complete e -> file_complete f ->
      last_entry (beacons_of e) mac <> None ->
      exists b',
        obj_get (file_beacons (handleBLEData f e now true)) mac = Some b'
        /\ Beacon.first_seen b' = VNum (Num now)).
Proof.
  intros Hord. destruct (file_ordinary_parts f Hord) as (_ & Hob & _). split.
  - intros disk_ok b G. rewrite handleBLEData_cases.
    destruct (negb (truthy (Event.device_id e)) || _); [eauto|].
    destruct (ingest_beacons _ _ _ _) as [data|err] eqn:E; [|eauto].
    destruct disk_ok; [|eauto].
    pose proof (ingest_beacons_first_seen _ _ _ _ _ mac E) as H.
    cbn [merge_start Registry.beacons] in H.
    rewrite (decode_map_ordinary _ _ Hob), map_values_get, G in H.
    cbn [option_map] in H. destruct H as (b' & G' & F').
    exists (jsonBeacon b'). rewrite file_beacon_stringify, G'.
    split; [reflexivity|]. right. cbn. now rewrite F'.
  - intros G Hid He Hf Hlast.
    assert (Hne : beacons_of e <> []).
    { intros Hnil. rewrite Hnil in Hlast. now apply Hlast. }
    destruct (handleBLEData_written f e now Hid Hne He Hf Hord)
      as (data & E & ->).
    pose proof (ingest_beacons_first_seen _ _ _ _ _ mac E) as H.
    cbn [merge_start Registry.beacons] in H.
    rewrite (decode_map_ordinary _ _ Hob), map_values_get, G in H.
    cbn [option_map] in H.
    destruct (last_entry (beacons_of e) mac); [|congruence].
    destruct H as (b' & G' & F').
    exists (jsonBeacon b'). rewrite file_beacon_stringify, G'.
    split; [reflexivity|]. cbn. now rewrite F'.
Qed.

(** ** A report, then a query *)

Lemma findBeacon_loop_key (entries : obj Beacon.t) (q : jsstring)
    (b : Beacon.t) :
  findBeacon_loop entries q = Some (b, q) -> obj_get entries q = Some b.
Proof.
  induction entries as [|[k b0] rest IH]; [discriminate|].
  cbn [findBeacon_loop obj_get].
  destruct (strict_eq_string (Beacon.name b0) q || str_eqb k q) eqn:M.
  - intros [= <- <-]. now rewrite str_eqb_refl.
  - apply orb_false_iff in M as [_ ->]. exact IH.
Qed.

Lemma findBeacon_loop_present (entries : obj Beacon.t) (q : jsstring)
    (b : Beacon.t) :
  obj_get entries q = Some b -> exists r, findBeacon_loop entries q = Some r.
Proof.
  induction entries as [|[k b0] rest IH]; [discriminate|].
  cbn [findBeacon_loop obj_get].
  destruct (str_eqb k q).
  - rewrite orb_true_r. eauto.
  - destruct (strict_eq_string _ _); cbn [orb]; eauto.
Qed.

Lemma truthy_jsonify (v : value) : truthy (jsonify v) = truthy v.
Proof. now destruct v as [| |b|[|z]|s|items|props]. Qed.

Lemma filter_length_pos {A} (p : A -> bool) (l : list A) (x : A) :
  In x l -> p x = true -> (1 <= List.length (filter p l))%nat.
Proof.
  intros Hin Hp.
  assert (H : In x (filter p l)) by (apply filter_In; now split).
  destruct (filter p l); [destruct H|cbn; lia].
Qed.

Lemma file_detection_In (f : file) (mac id : jsstring) (d : Detection.t) :
  file_detection f mac id = Some d ->
  exists b, obj_get (file_beacons f) mac = Some b
            /\ obj_get (detections_of (Some b)) id = Some d.
Proof.
  unfold file_detection.
  destruct (obj_get (file_beacons f) mac) as [b|]; [|discriminate]. eauto.
Qed.

(** What a report that is merged and written leaves in the file for its
    receiver and for the last entry that addresses an object. *)
Lemma handleBLEData_seen (f : file) (e : Event.t) (now : Z)
    (b : BeaconReport.t) (mac : jsstring) :
  truthy (Event.device_id e) = true ->
  ToString (Event.device_id e) <> proto_key ->
  report_complete e -> file_complete f -> file_ordinary f = true ->
  last_entry (beacons_of e) mac = Some b ->
  exists d data,
    handleBLEData f e now true = Some (JSON_stringify data)
    /\ file_detection (handleBLEData f e now true) mac
         (ToString (Event.device_id e)) = Some d
    /\ file_device (handleBLEData f e now true) (ToString (Event.device_id e))
       = Some (jsonDevice (device_of e now))
    /\ Detection.update_time d = VNum (Num now)
    /\ Detection.online d = jsonify (BeaconReport.online b).
Proof.
  intros Hid Hdev He Hf Ho Hlast.
  assert (Hne : beacons_of e <> []).
  { intros Hnil. rewrite Hnil in Hlast. discriminate. }
  destruct (handleBLEData_written f e now Hid Hne He Hf Ho) as (data & E & ->).
  apply str_eqb_neq in Hdev.
  pose proof (ingest_beacons_detection _ _ _ _ _ mac Hdev E) as L.
  rewrite Hlast in L. destruct L as (r & _ & L).
  exists (jsonDetection (new_detection e now b r)), data.
  split; [reflexivity|]. rewrite file_detection_stringify, L.
  split; [reflexivity|]. split; [|now split].
  rewrite file_device_stringify, (ingest_beacons_devices _ _ _ _ _ E).
  cbn [merge_start Registry.devices].
  now rewrite (obj_get_assign _ _ _ _ Hdev), str_eqb_refl.
Qed.

(** X28.  After a report is merged and written (its receiver identity is
    truthy and not [__proto__], the merge runs to its end, the file has no
    [__proto__] key), the visitor route finds the object by its address
    and, when the object it answers for is that one, lists the reporting
    receiver exactly as long as the report is at most 15000 ms old. *)
Theorem report_then_lookup (f : file) (e : Event.t) (now now' : Z)
    (b : BeaconReport.t) (mac : jsstring) :
  file_wf f ->
  file_ordinary f = true ->
  truthy (Event.device_id e) = true ->
  ToString (Event.device_id e) <> proto_key ->
  report_complete e -> file_complete f ->
  last_entry (beacons_of e) mac = Some b ->
  now <> 0 ->
  exists reply,
    kb_receivers_route (handleBLEData f e now true) mac now' = Ok (Reply reply)
    /\ (KbReceivers.mac reply = mac ->
        (In (ToString (Event.device_id e))
           (map VisitorReceiver.deviceId (KbReceivers.receivers reply))
         <-> now' - now <= 15000)).
Proof.
  intros Hwf Ho Hid Hdev He Hf Hlast Hnow.
  pose proof (handleBLEData_wf f e now true Hwf) as Hwf'.
  destruct (handleBLEData_seen f e now b mac Hid Hdev He Hf Ho Hlast)
    as (d & data & Hfile & Hd & _ & Hut & _).
  destruct (file_detection_In _ _ _ _ Hd) as (b0 & Hb0 & Hd0).
  destruct (findBeacon_loop_present _ _ _ Hb0) as [[b1 m1] Hfind].
  unfold kb_receivers_route. rewrite parse_file_cases.
  revert Hwf' Hb0 Hfind. rewrite Hfile. intros Hwf' Hb0 Hfind.
  cbn [JSON_stringify bind].
  unfold findBeacon. cbn [Document.beacons].
  change (map_values jsonBeacon (Registry.beacons data))
    with (file_beacons (Some (JSON_stringify data))).
  rewrite Hfind. eexists. split; [reflexivity|].
  cbn [KbReceivers.mac KbReceivers.receivers]. intros ->.
  apply findBeacon_loop_key in Hfind. rewrite Hb0 in Hfind.
  injection Hfind as <-.
  rewrite map_map.
  change (map (fun x => VisitorReceiver.deviceId (visitor_receiver now' x))
            (getValidReceivers (Some b0) now' STALE_TIME_THRESHOLD))
    with (valid_ids (Some b0) now' STALE_TIME_THRESHOLD).
  rewrite valid_ids_In.
  assert (Hp : passes_filter now' STALE_TIME_THRESHOLD d
               = (now' - now <=? 15000)).
  { unfold passes_filter, parseDetectionTime. rewrite Hut.
    replace (truthy (VNum (Num now))) with true
      by (cbn; now destruct (Z.eqb_spec now 0)).
    reflexivity. }
  split.
  - intros (d' & Hin & Hp').
    destruct Hwf' as (_ & _ & Hall).
    specialize (Hall _ _ (obj_get_In _ _ _ Hb0)).
    rewrite (obj_In_get _ _ _ Hall Hin) in Hd0. injection Hd0 as ->.
    rewrite Hp in Hp'. now apply Z.leb_le.
  - intros Hage. exists d. split; [now apply obj_get_In|].
    rewrite Hp. now apply Z.leb_le.
Qed.

(** X29.  After a report is merged and written (its receiver identity is
    truthy and not [__proto__], the merge runs to its end, the file has no
    [__proto__] key), the status route counts the reporting receiver as
    active for the next [ACTIVE_WINDOW] milliseconds, and every object the
    report saw online as an active beacon. *)
Theorem report_then_status (f : file) (e : Event.t) (now now' : Z)
    (b : BeaconReport.t) (mac : jsstring) :
  file_ordinary f = true ->
  truthy (Event.device_id e) = true ->
  ToString (Event.device_id e) <> proto_key ->
  report_complete e -> file_complete f ->
  last_entry (beacons_of e) mac = Some b ->
  now' - now <= ACTIVE_WINDOW ->
  exists st,
    ble_status_route (handleBLEData f e now true) now' = Ok (Reply st)
    /\ (1 <= Status.receivers_active st)%nat
    /\ (truthy (BeaconReport.online b) = true ->
        (1 <= Status.beacons_active st)%nat).
Proof.
  intros Ho Hid Hdv He Hf Hlast Hage.
  destruct (handleBLEData_seen f e now b mac Hid Hdv He Hf Ho Hlast)
    as (d & data & Hfile & Hd & Hdev & Hut & Hon).
  destruct (file_detection_In _ _ _ _ Hd) as (b0 & Hb0 & Hd0).
  unfold ble_status_route. rewrite parse_file_cases.
  revert Hb0 Hdev. rewrite Hfile. intros Hb0 Hdev.
  cbn [JSON_stringify bind]. eexists. split; [reflexivity|].
  cbn [Status.receivers_active Status.beacons_active].
  assert (Hwin : forall t,
             ToNumber t = Num now ->
             js_le (js_sub (VNum (Num now')) (js_or t (VNum (Num 0))))
               (Num ACTIVE_WINDOW) = true).
  { intros t Ht. unfold js_or, js_sub.
    assert (E : ToNumber (if truthy t then t else VNum (Num 0)) = Num now).
    { destruct (truthy t) eqn:T; [exact Ht|].
      destruct t as [| |[|]|[|z]|s|items|props]; cbn in T, Ht;
        try discriminate; try exact Ht.
      - destruct (Z.eqb_spec z 0); [now subst|discriminate].
      - now destruct s. }
    rewrite E. cbn. now apply Z.leb_le. }
  split.
  - apply (filter_length_pos _ _ (jsonDevice (device_of e now))).
    + apply obj_get_In in Hdev.
      apply (in_map snd) in Hdev. exact Hdev.
    + unfold device_active. now apply Hwin.
  - intros Honline. rewrite count_active_beacons_filter.
    apply (filter_length_pos _ _ b0).
    + apply obj_get_In in Hb0. apply (in_map snd) in Hb0. exact Hb0.
    + unfold beacon_active. apply existsb_exists. exists d. split.
      * apply obj_get_In in Hd0. apply (in_map snd) in Hd0. exact Hd0.
      * unfold detection_active. rewrite Hon, truthy_jsonify, Honline.
        cbn [andb]. apply Hwin. now rewrite Hut.
Qed.

(** ** The data route *)

Lemma rebuild_loop {A B} (g : A -> B) (o : obj A) (acc : obj B)
    (k : jsstring) :
  NoDup (obj_keys o) ->
  obj_has acc proto_key = false ->
  obj_get
    (fold_left
       (fun target entry => obj_assign target (fst entry) (g (snd entry)))
       o acc) k
  = match (if str_eqb k proto_key then None else obj_get o k) with
    | Some v => Some (g v)
    | None => obj_get acc k
    end.
Proof.
  revert acc. induction o as [|[k0 v0] o IH]; intros acc Hnd Hacc.
  - cbn [fold_left obj_get]. now destruct (str_eqb k proto_key).
  - unfold obj_keys in Hnd. cbn [map fst] in Hnd.
    inversion Hnd as [|? ? Hk Ho]; subst.
    cbn [fold_left obj_get fst snd].
    rewrite (IH _ Ho (obj_assign_has_proto _ _ _ Hacc)).
    destruct (str_eqb k proto_key) eqn:Ep.
    + apply str_eqb_eq in Ep. subst k.
      pose proof (obj_assign_has_proto acc k0 (g v0) Hacc) as H1.
      unfold obj_has in H1, Hacc.
      destruct (obj_get (obj_assign acc k0 (g v0)) proto_key);
        [discriminate|].
      now destruct (obj_get acc proto_key).
    + destruct (str_eqb k0 k) eqn:E.
      * apply str_eqb_eq in E. subst k0.
        rewrite (obj_get_absent o k Hk).
        rewrite (obj_get_assign _ _ _ _ Ep). now rewrite str_eqb_refl.
      * destruct (obj_get o k); [reflexivity|].
        now apply obj_get_assign_other.
Qed.

(** An entry of the source is an entry of the copy, but for an entry under
    [__proto__]. *)
Lemma rebuild_get {A B} (g : A -> B) (o : obj A) (k : jsstring) :
  NoDup (obj_keys o) ->
  obj_get (rebuild g o) k
  = if str_eqb k proto_key then None else option_map g (obj_get o k).
Proof.
  intros H. unfold rebuild. rewrite (rebuild_loop g o [] k H eq_refl).
  destruct (str_eqb k proto_key); [reflexivity|].
  now destruct (obj_get o k).
Qed.

(** X24.  The data route shows the file entry by entry: it answers 暂无数据 for a
    file with no receiver and no beacon; otherwise, under every key but
    [__proto__], its answer has a receiver, a beacon or a detection exactly
    when the file has it: a receiver with its name decoded and its other
    fields as they are; a beacon with its name and [first_seen]; a
    detection with the decoded [receiver_name] (or [receiver]) as
    [receiver], its [rssi] and [online], and its [update_time] (or 0)
    formatted as [last_update].  Nothing is shown under [__proto__]. *)
Theorem ble_data_route_view (doc : Document.t) (now : Z) :
  let f := Some (Json doc) in
  file_wf f ->
  (file_devices f = [] /\ file_beacons f = [] ->
   ble_data_route f now
   = Ok (Reply (DataPayload.mk [] [] (Some msg_no_data) None)))
  /\ (file_devices f <> [] \/ file_beacons f <> [] ->
      exists p,
        ble_data_route f now = Ok (Reply p)
        /\ DataPayload.message p = None
        /\ DataPayload.timestamp p = Some now
        /\ (forall id,
              id <> proto_key ->
              match file_device f id, obj_get (DataPayload.devices p) id with
              | Some d, Some v =>
                  Device.name v = decodeUnicode (Device.name d)
                  /\ Device.type v = Device.type d
                  /\ Device.update v = Device.update d
                  /\ Device.batch v = Device.batch d
                  /\ Device.total_batches v = Device.total_batches d
              | None, None => True
              | _, _ => False
              end)
        /\ (forall mac,
              mac <> proto_key ->
              match obj_get (file_beacons f) mac,
                    obj_get (DataPayload.beacons p) mac with
              | Some b, Some v =>
                  BeaconView.name v = Beacon.name b
                  /\ BeaconView.first_seen v = Beacon.first_seen b
              | None, None => True
              | _, _ => False
              end)
        /\ (forall mac id,
              mac <> proto_key ->
              id <> proto_key ->
              match file_detection f mac id,
                    match obj_get (DataPayload.beacons p) mac with
                    | Some b => obj_get (BeaconView.detections b) id
                    | None => None
                    end with
              | Some d, Some v =>
                  DetectionView.receiver v
                  = decodeUnicode
                      (js_or (Detection.receiver_name d) (Detection.receiver d))
                  /\ DetectionView.rssi v = Detection.rssi d
                  /\ DetectionView.online v = Detection.online d
                  /\ DetectionView.last_update v
                     = toLocaleString
                         (js_or (Detection.update_time d) (VNum (Num 0)))
              | None, None => True
              | _, _ => False
              end)
        /\ obj_get (DataPayload.devices p) proto_key = None
        /\ obj_get (DataPayload.beacons p) proto_key = None
        /\ (forall mac b,
              obj_get (DataPayload.beacons p) mac = Some b ->
              obj_get (BeaconView.detections b) proto_key = None)).
Proof.
  intros f (Hd & Hb & Hall). subst f. unfold ble_data_route.
  rewrite parse_file_cases. cbn [bind].
  unfold file_device, file_devices, file_beacons, document_of in *.
  fold (devices_of_document doc) in *. unfold obj_keys in *.
  rewrite !length_map. split.
  - intros [-> ->]. reflexivity.
  - intros Hne.
    assert (E : (List.length (devices_of_document doc) =? 0)%nat
                && (List.length (beacons_of_document doc) =? 0)%nat = false).
    { destruct (devices_of_document doc), (beacons_of_document doc);
        try reflexivity. now destruct Hne. }
    rewrite E. eexists. split; [reflexivity|].
    cbn [DataPayload.message DataPayload.timestamp DataPayload.devices
         DataPayload.beacons].
    split; [reflexivity|]. split; [reflexivity|].
    assert (Hdet : forall mac b,
               obj_get (beacons_of_document doc) mac = Some b ->
               forall id,
                 obj_get (BeaconView.detections (beacon_view b)) id
                 = if str_eqb id proto_key then None
                   else option_map detection_view
                          (obj_get (detections_of (Some b)) id)).
    { intros mac b G id. cbn [beacon_view BeaconView.detections].
      apply rebuild_get. exact (Hall _ _ (obj_get_In _ _ _ G)). }
    split; [|split; [|split; [|split; [|split]]]].
    + intros id Hid. apply str_eqb_neq in Hid.
      rewrite (rebuild_get device_view _ id Hd), Hid.
      destruct (obj_get (devices_of_document doc) id); cbn [option_map];
        [repeat split|exact I].
    + intros mac Hmac. apply str_eqb_neq in Hmac.
      rewrite (rebuild_get beacon_view _ mac Hb), Hmac.
      destruct (obj_get (beacons_of_document doc) mac); cbn [option_map];
        [repeat split|exact I].
    + intros mac id Hmac Hid. apply str_eqb_neq in Hmac, Hid.
      rewrite (rebuild_get beacon_view _ mac Hb), Hmac.
      unfold file_detection, file_beacons, document_of.
      destruct (obj_get (beacons_of_document doc) mac) as [b|] eqn:G;
        cbn [option_map]; [|exact I].
      rewrite (Hdet mac b G id), Hid.
      destruct (obj_get (detections_of (Some b)) id); cbn [option_map];
        [repeat split|exact I].
    + now rewrite (rebuild_get device_view _ _ Hd), str_eqb_refl.
    + now rewrite (rebuild_get beacon_view _ _ Hb), str_eqb_refl.
    + intros mac b G. rewrite (rebuild_get beacon_view _ mac Hb) in G.
      destruct (str_eqb mac proto_key); [discriminate|].
      destruct (obj_get (beacons_of_document doc) mac) as [b0|] eqn:G0;
        [|discriminate].
      injection G as <-. now rewrite (Hdet mac b0 G0), str_eqb_refl.
Qed.

(** ** Decoding, writing and loading *)

Lemma value_nested_ind (P : value -> Prop) :
  P VUndef -> P VNull -> (forall b, P (VBool b)) -> (forall n, P (VNum n)) ->
  (forall s, P (VStr s)) ->
  (forall items, Forall P items -> P (VArr items)) ->
  (forall props, Forall (fun p => P (snd p)) props -> P (VObj props)) ->
  forall v, P v.
Proof.
  intros Hu Hn Hb Hnum Hs Ha Ho. fix IH 1. intros [| |b|n|s|items|props].
  - exact Hu.
  - exact Hn.
  - apply Hb.
  - apply Hnum.
  - apply Hs.
  - apply Ha. induction items as [|x xs IHxs]; constructor;
      [apply IH|exact IHxs].
  - apply Ho. induction props as [|[k x] ps IHps]; constructor;
      [apply IH|exact IHps].
Qed.

Lemma map_fixed {A} (g : A -> A) (l : list A) :
  Forall (fun x => g x = x) l -> map g l = l.
Proof.
  induction 1 as [|x l Hx _ IH]; [reflexivity|]. cbn [map]. now rewrite Hx, IH.
Qed.

Lemma decodeObject_obj (props : list (jsstring * value)) :
  decodeObject (VObj props) = VObj (decode_map decodeObject props).
Proof.
  cbn [decodeObject]. f_equal. unfold decode_map, map_values.
  induction props as [|[k x] ps IH]; [reflexivity|]. cbn [filter fst].
  destruct (str_eqb k proto_key); cbn [negb map fst snd];
    [exact IH|now rewrite IH].
Qed.

Lemma decodeObject_escape_free (v : value) :
  escape_free v = true -> proto_free v = true -> decodeObject v = v.
Proof.
  induction v as [| |b|n|s|items IH|props IH] using value_nested_ind;
    try reflexivity.
  - cbn [escape_free decodeObject]. intros H _.
    unfold decodeUnicode. destruct (truthy (VStr s)); [|reflexivity].
    rewrite decode_units_no_backslash; [reflexivity|].
    now apply negb_true_iff in H.
  - cbn [escape_free proto_free decodeObject]. intros H P.
    f_equal. apply map_fixed. rewrite forallb_forall in H, P.
    rewrite Forall_forall in *. intros x Hx. apply IH; auto.
  - rewrite decodeObject_obj. cbn [escape_free proto_free]. intros H P.
    f_equal. unfold decode_map, map_values.
    induction props as [|[k x] ps IHps]; [reflexivity|].
    cbn [forallb fst snd] in H, P.
    apply andb_true_iff in H as [Hx Hps].
    apply andb_true_iff in P as [Px Pps].
    apply andb_true_iff in Px as [Pk Px].
    inversion IH as [|? ? IHx IHrest]; subst. cbn [snd] in IHx.
    cbn [filter fst]. rewrite Pk. cbn [map fst snd].
    now rewrite (IHx Hx Px), (IHps IHrest Hps Pps).
Qed.

Lemma jsonify_json_value (v : value) :
  json_value v = true -> jsonify v = v.
Proof.
  induction v as [| |b|n|s|items IH|props IH] using value_nested_ind;
    try reflexivity; cbn [json_value jsonify]; intros H.
  - now destruct n.
  - f_equal. apply map_fixed. rewrite forallb_forall in H.
    rewrite Forall_forall in *. intros x Hx.
    specialize (H _ Hx). specialize (IH _ Hx H).
    destruct x; try exact IH. discriminate.
  - f_equal. induction props as [|[k x] ps IHps]; [reflexivity|].
    cbn [forallb snd] in H. apply andb_true_iff in H as [Hx Hps].
    inversion IH as [|? ? IHx IHrest]; subst. cbn [snd] in IHx.
    rewrite (IHps IHrest Hps).
    destruct x; try (now rewrite (IHx Hx)); try reflexivity. discriminate.
Qed.

Lemma plain_stable (v : value) : plain v = true -> decodeObject (jsonify v) = v.
Proof.
  unfold plain. intros H.
  destruct v as [| |b|n|s|items|props]; try reflexivity;
    apply andb_true_iff in H as [H Hp]; apply andb_true_iff in H as [Hj He];
    now rewrite (jsonify_json_value _ Hj), (decodeObject_escape_free _ He Hp).
Qed.

Lemma map_values_fixed {A} (g : A -> A) (o : obj A) :
  (forall k v, In (k, v) o -> g v = v) -> map_values g o = o.
Proof.
  intros H. unfold map_values. apply map_fixed. apply Forall_forall.
  intros [k v] Hin. cbn [fst snd]. now rewrite (H _ _ Hin).
Qed.

Lemma plain_device_stable (d : Device.t) :
  plain_device d = true -> decodeDevice (jsonDevice d) = d.
Proof.
  unfold plain_device. intros H.
  repeat (apply andb_true_iff in H as [H ?]).
  destruct d. unfold decodeDevice, jsonDevice. cbn in *.
  now rewrite !plain_stable.
Qed.

Lemma plain_detection_stable (d : Detection.t) :
  plain_detection d = true -> decodeDetection (jsonDetection d) = d.
Proof.
  unfold plain_detection. intros H.
  repeat (apply andb_true_iff in H as [H ?]).
  destruct d. unfold decodeDetection, jsonDetection. cbn in *.
  now rewrite !plain_stable.
Qed.

Lemma plain_beacon_stable (b : Beacon.t) :
  plain_beacon b = true -> decodeBeacon (jsonBeacon b) = b.
Proof.
  unfold plain_beacon. intros H.
  repeat (apply andb_true_iff in H as [H ?]).
  destruct b as [name first_seen detections].
  unfold decodeBeacon, jsonBeacon, detections_of in *.
  cbn [Beacon.name Beacon.first_seen Beacon.detections] in *.
  rewrite !plain_stable by assumption. f_equal.
  destruct detections as [ds|]; [|reflexivity]. cbn [option_map]. f_equal.
  rewrite decode_map_ordinary
    by (unfold ordinary in *; now rewrite map_values_has).
  rewrite map_values_map_values. apply map_values_fixed.
  intros k v Hin. apply plain_detection_stable.
  rewrite forallb_forall in H1. exact (H1 _ Hin).
Qed.

(** X11.  [decodeObject] changes the text of strings, drops the entries under
    the key [__proto__], and nothing else: it keeps the other keys of every
    object, in order, and the length of every array, whether a value is
    truthy, and the whole value when no string in it holds a backslash and
    no object in it has a key [__proto__]. *)
Theorem decodeObject_strings_only :
  (forall v, escape_free v = true -> proto_free v = true -> decodeObject v = v)
  /\ (forall v, truthy (decodeObject v) = truthy v)
  /\ (forall props,
        exists props',
          decodeObject (VObj props) = VObj props'
          /\ map fst props'
             = filter (fun k => negb (str_eqb k proto_key)) (map fst props))
  /\ (forall items,
        exists items',
          decodeObject (VArr items) = VArr items'
          /\ List.length items' = List.length items).
Proof.
  split; [exact decodeObject_escape_free|]. split; [|split].
  - intros [| |b|n|s|items|props]; try reflexivity.
    apply truthy_decodeUnicode.
  - intros props. eexists. split; [apply decodeObject_obj|].
    unfold decode_map, map_values. rewrite map_map. cbn [fst].
    induction props as [|[k x] ps IH]; [reflexivity|]. cbn [filter map fst].
    destruct (str_eqb k proto_key); cbn [negb map fst]; now rewrite IH.
  - intros items. eexists. split; [reflexivity|]. apply length_map.
Qed.

(** X12.  Writing then loading gives the registry back: [loadData] returns what
    [saveData] was given, when the registry holds JSON values only (no NaN,
    no [undefined] inside a value), no string with a backslash and no key
    [__proto__]. *)
Theorem save_load_round_trip (f : file) (data : Registry.t) :
  plain_registry data = true ->
  saveData f data true = (Some (JSON_stringify data), true)
  /\ loadData (fst (saveData f data true)) = Ok data.
Proof.
  intros H. split; [reflexivity|].
  unfold plain_registry in H.
  apply andb_true_iff in H as [H Hob]. apply andb_true_iff in H as [H Hod].
  apply andb_true_iff in H as [Hd Hb].
  rewrite saveData_file, loadData_eq. f_equal.
  unfold file_devices, file_beacons, beacons_of_document, document_of,
    JSON_stringify.
  cbn [Document.devices Document.beacons].
  rewrite !decode_map_ordinary
    by (unfold ordinary in *; now rewrite map_values_has).
  rewrite !map_values_map_values.
  destruct data as [devices beacons]. cbn [Registry.devices Registry.beacons] in *.
  f_equal.
  - apply map_values_fixed.
    intros k v Hin. apply plain_device_stable.
    rewrite forallb_forall in Hd. exact (Hd _ Hin).
  - apply map_values_fixed.
    intros k v Hin. apply plain_beacon_stable.
    rewrite forallb_forall in Hb. exact (Hb _ Hin).
Qed.

(** ** More on the timestamp and the ranking *)

Lemma split_on_nonempty (sep : N) (s : jsstring) : split_on sep s <> [].
Proof.
  destruct s as [|c s]; [discriminate|]. cbn [split_on].
  destruct (N.eqb c sep); [discriminate|].
  destruct (split_on sep s); discriminate.
Qed.

Lemma split_on_two (sep : N) (s : jsstring) :
  existsb (N.eqb sep) s = true ->
  exists a b rest, split_on sep s = a :: b :: rest.
Proof.
  induction s as [|c s IH]; [discriminate|]. cbn [existsb split_on].
  rewrite (N.eqb_sym sep c). destruct (N.eqb c sep); cbn [orb].
  - intros _. pose proof (split_on_nonempty sep s) as Hne.
    destruct (split_on sep s) as [|w ws]; [congruence|].
    now exists [], w, ws.
  - intros H. destruct (IH H) as (a & b & rest & ->).
    now exists (c :: a), b, rest.
Qed.

(** X5.  What the [try]/[catch] of [parseDetectionTime] does for a detection
    with no usable [update_time]: a [last_update] that is not a string, or a
    string without a space, makes a [split] throw and resolves to null; a
    string with a space always resolves to a number, NaN when it does not
    parse. *)
Theorem parseDetectionTime_text (d : Detection.t) :
  truthy (Detection.update_time d) = false ->
  truthy (Detection.last_update d) = true ->
  ((forall s, Detection.last_update d <> VStr s) ->
   parseDetectionTime (Some d) = VNull)
  /\ (forall s,
        Detection.last_update d = VStr s ->
        (existsb (N.eqb 32) s = false -> parseDetectionTime (Some d) = VNull)
        /\ (existsb (N.eqb 32) s = true ->
            exists n, parseDetectionTime (Some d) = VNum n)).
Proof.
  intros Hu Hl. unfold parseDetectionTime. rewrite Hu, Hl. cbn [negb]. split.
  - intros Hs. destruct (Detection.last_update d); try reflexivity.
    now destruct (Hs s).
  - intros s ->. cbn [split_method bind]. split.
    + intros H. rewrite (split_on_without _ _ H). reflexivity.
    + intros H. destruct (split_on_two _ _ H) as (a & b & rest & ->).
      unfold item at 1 2. cbn [nth_error split_method bind try_catch]. eauto.
Qed.

(** X8.  No receiver is listed twice: the identities in the array
    [getValidReceivers] returns are distinct. *)
Theorem valid_ids_distinct (b : Beacon.t) (now threshold : Z) :
  detections_wf b ->
  NoDup (valid_ids (Some b) now threshold)
  /\ (List.length (getValidReceivers (Some b) now threshold)
      <= List.length (detections_of (Some b)))%nat.
Proof.
  intros Hwf. unfold valid_ids.
  pose proof (getValidReceivers_perm (Some b) now threshold) as P.
  split.
  - apply (Permutation_NoDup
             (Permutation_sym (Permutation_map Receiver.deviceId P))).
    rewrite map_map. cbn [ranked receiver_of Receiver.deviceId].
    unfold detections_wf, obj_keys in Hwf.
    revert Hwf. generalize (detections_of (Some b)) as ds.
    induction ds as [|[id d] ds IH]; [constructor|].
    cbn [map fst filter snd]. intros H. inversion H as [|? ? Hk Hds]; subst.
    destruct (passes_filter now threshold d); [|now apply IH].
    cbn [map fst]. constructor; [|now apply IH].
    intros Hin. apply Hk. apply in_map_iff in Hin as ([id' d'] & <- & Hin).
    apply filter_In in Hin as [Hin _]. now apply (in_map fst) in Hin.
  - rewrite (Permutation_length P), length_map. apply filter_length_le.
Qed.


(** ** The ESP-C3 route *)

Lemma getBeaconDisplayName_string (s : jsstring) :
  exists v, getBeaconDisplayName (VStr s) = Ok v.
Proof.
  unfold getBeaconDisplayName. destruct (truthy (VStr s)); cbn [negb];
    [|eauto]. destruct (match_ESP_C3 s); eauto.
Qed.

Lemma esp_step_cases (now : Z) (acc : list EspBeacon.t)
    (entry : jsstring * Beacon.t) :
  esp_step now acc entry
  = if name_testable (Beacon.name (snd entry))
    then Ok (if esp_listed now entry then acc ++ [esp_view now entry] else acc)
    else Throw TypeError.
Proof.
  destruct entry as [mac b]. unfold esp_step, esp_listed, esp_view.
  cbn [fst snd]. unfold valid_ids. rewrite length_map.
  destruct (Beacon.name b) as [| |x|n|s|items|props] eqn:En;
    cbn [name_startsWith name_testable bind negb orb andb]; try reflexivity.
  destruct (starts_with (u "ESP-C3-") s); cbn [negb orb andb];
    [|reflexivity].
  unfold obj_keys. rewrite length_map.
  destruct (detections_of (Some b)) as [|d ds] eqn:Ed.
  - cbn [List.length Nat.eqb].
    assert (E : getValidReceivers (Some b) now STALE_TIME_THRESHOLD = []).
    { rewrite getValidReceivers_filter_sort, Ed. reflexivity. }
    now rewrite E.
  - cbn [List.length Nat.eqb].
    destruct (List.length (getValidReceivers _ _ _) =? 0)%nat;
      cbn [negb]; [reflexivity|].
    destruct (getBeaconDisplayName_string s) as [v ->]. reflexivity.
Qed.

Lemma esp_loop_ok (now : Z) (entries : obj Beacon.t) (acc : list EspBeacon.t) :
  (forall entry, In entry entries ->
                 name_testable (Beacon.name (snd entry)) = true) ->
  esp_loop now acc entries
  = Ok (acc ++ map (esp_view now) (filter (esp_listed now) entries)).
Proof.
  revert acc. induction entries as [|entry rest IH]; intros acc H;
    cbn [esp_loop filter map].
  - now rewrite app_nil_r.
  - rewrite esp_step_cases, (H entry (or_introl eq_refl)). cbn [bind].
    rewrite IH by (intros x Hx; apply H; now right).
    destruct (esp_listed now entry); [|reflexivity].
    cbn [map]. now rewrite <- app_assoc.
Qed.

Lemma esp_loop_throw (now : Z) (entries : obj Beacon.t)
    (acc : list EspBeacon.t) :
  (exists entry, In entry entries
                 /\ name_testable (Beacon.name (snd entry)) = false) ->
  esp_loop now acc entries = Throw TypeError.
Proof.
  revert acc. induction entries as [|entry rest IH]; intros acc (x & Hin & Hx);
    [destruct Hin|].
  cbn [esp_loop]. rewrite esp_step_cases.
  destruct (name_testable (Beacon.name (snd entry))) eqn:T; [|reflexivity].
  cbn [bind]. apply IH. exists x. split; [|exact Hx].
  destruct Hin as [->|Hin]; [congruence|exact Hin].
Qed.

Lemma names_testable_dec (entries : obj Beacon.t) :
  (forall entry, In entry entries ->
                 name_testable (Beacon.name (snd entry)) = true)
  \/ (exists entry, In entry entries
                    /\ name_testable (Beacon.name (snd entry)) = false).
Proof.
  induction entries as [|entry rest [IH|(x & Hin & Hx)]].
  - left. intros entry [].
  - destruct (name_testable (Beacon.name (snd entry))) eqn:T.
    + left. intros x [<-|Hx]; auto.
    + right. exists entry. split; [now left|exact T].
  - right. exists x. split; [now right|exact Hx].
Qed.

Lemma esp_detections_keys (receivers : list Receiver.t) (id : jsstring) :
  In id (obj_keys (esp_detections receivers))
  <-> In id (map Receiver.deviceId receivers) /\ id <> proto_key.
Proof.
  unfold esp_detections.
  assert (H : forall acc,
             In id (obj_keys
                      (fold_left
                         (fun detections r =>
                            obj_assign detections (Receiver.deviceId r)
                              (DetectionView.mk (Receiver.name r)
                                 (Receiver.rssi r) (Receiver.online r)
                                 (Receiver.last_update r)))
                         receivers acc))
             <-> In id (obj_keys acc)
                 \/ (In id (map Receiver.deviceId receivers)
                     /\ id <> proto_key)).
  { induction receivers as [|r rest IH]; intros acc; cbn [fold_left map In].
    - tauto.
    - rewrite IH. rewrite <- !obj_has_In.
      assert (Hstep : obj_has
                        (obj_assign acc (Receiver.deviceId r)
                           (DetectionView.mk (Receiver.name r) (Receiver.rssi r)
                              (Receiver.online r) (Receiver.last_update r))) id
                      = true
                      <-> obj_has acc id = true
                          \/ (Receiver.deviceId r = id /\ id <> proto_key)).
      { unfold obj_assign.
        destruct (str_eqb (Receiver.deviceId r) proto_key) eqn:Ep.
        - apply str_eqb_eq in Ep. cbn [andb].
          destruct (obj_has acc (Receiver.deviceId r)) eqn:Eh; cbn [negb].
          + rewrite obj_has_set. rewrite Ep in *.
            destruct (str_eqb proto_key id) eqn:E.
            * apply str_eqb_eq in E. subst id. cbn [orb]. tauto.
            * apply str_eqb_neq in E. cbn [orb]. split; [tauto|].
              intros [H|[H _]]; [exact H|congruence].
          + split; [tauto|]. intros [H|[H1 H2]]; [exact H|congruence].
        - cbn [andb]. rewrite obj_has_set.
          destruct (str_eqb (Receiver.deviceId r) id) eqn:E; cbn [orb].
          + apply str_eqb_eq in E. apply str_eqb_neq in Ep. subst id.
            split; [|reflexivity]. intros _. right. now split.
          + apply str_eqb_neq in E. split; [tauto|].
            intros [H|[H _]]; [exact H|congruence]. }
      rewrite Hstep. tauto. }
  rewrite H. cbn. tauto.
Qed.

(** X25.  The ESP-C3 route lists a beacon exactly when the beacon's name is a
    string that starts with [ESP-C3-] and at least one receiver heard it
    within the last 15000 ms; each element carries the beacon's name and
    first-seen time, the display name [getBeaconDisplayName] gives, and one
    detection for each of those receivers whose identity is not
    [__proto__], and for no other. *)
Theorem esp_c3_beacons_route_lists (f : file) (now answered : Z)
    (p : EspPayload.t) :
  esp_c3_beacons_route f now answered = Ok (Reply p) ->
  (forall mac,
     In mac (map EspBeacon.mac (EspPayload.data p))
     <-> exists b, In (mac, b) (file_beacons f)
                   /\ esp_listed now (mac, b) = true)
  /\ (forall x,
        In x (EspPayload.data p) ->
        exists b,
          In (EspBeacon.mac x, b) (file_beacons f)
          /\ EspBeacon.name x = Beacon.name b
          /\ EspBeacon.first_seen x = Beacon.first_seen b
          /\ getBeaconDisplayName (Beacon.name b) = Ok (EspBeacon.displayName x)
          /\ forall id,
               In id (obj_keys (EspBeacon.detections x))
               <-> In id (valid_ids (Some b) now STALE_TIME_THRESHOLD)
                   /\ id <> proto_key).
Proof.
  unfold esp_c3_beacons_route. rewrite parse_file_cases.
  destruct f as [[raw|doc]|]; cbn [bind]; try discriminate.
  - unfold file_beacons, document_of.
    destruct (names_testable_dec (beacons_of_document doc)) as [Hok|Hbad].
    + rewrite (esp_loop_ok now _ [] Hok). cbn [app bind].
      intros [= <-]. cbn [EspPayload.data].
      assert (Hin : forall x,
                 In x (Array_sort esp_compare
                         (map (esp_view now)
                            (filter (esp_listed now) (beacons_of_document doc))))
                 <-> exists entry,
                       In entry (beacons_of_document doc)
                       /\ esp_listed now entry = true
                       /\ x = esp_view now entry).
      { intros x. split.
        - intros H. apply (Permutation_in _ (Array_sort_perm _ _)) in H.
          apply in_map_iff in H as (entry & <- & H).
          apply filter_In in H as [H1 H2]. now exists entry.
        - intros (entry & H1 & H2 & ->).
          apply (Permutation_in _ (Permutation_sym (Array_sort_perm _ _))).
          apply in_map. apply filter_In. now split. }
      split.
      * intros mac. rewrite in_map_iff. split.
        -- intros (x & <- & Hx). apply Hin in Hx as ([m b] & H1 & H2 & ->).
           now exists b.
        -- intros (b & H1 & H2). exists (esp_view now (mac, b)).
           split; [reflexivity|]. apply Hin. now exists (mac, b).
      * intros x Hx. apply Hin in Hx as ([m b] & H1 & H2 & ->).
        exists b. cbn [esp_view fst snd EspBeacon.mac EspBeacon.name
                       EspBeacon.first_seen EspBeacon.displayName
                       EspBeacon.detections].
        split; [exact H1|]. split; [reflexivity|]. split; [reflexivity|].
        split.
        -- unfold esp_listed in H2. cbn [snd] in H2.
           destruct (Beacon.name b) as [| |y|n|s|items|props];
             try discriminate.
           destruct (getBeaconDisplayName_string s) as [v ->]. reflexivity.
        -- intros id. apply esp_detections_keys.
    + rewrite (esp_loop_throw now _ [] Hbad). discriminate.
  - intros [= <-]. cbn. split.
    + intros mac. split; [intros []|now intros (b & [] & _)].
    + intros x [].
Qed.

(** X26.  The ESP-C3 route passes on the SyntaxError of a file that does not
    parse, and throws for a registry document in which some beacon, listed
    or not, has a name that is neither absent nor a string: testing
    [startsWith] on it is a TypeError, and the whole listing is lost. *)
Theorem esp_c3_beacons_route_throws (f : file) (now answered : Z) :
  (forall raw,
     f = Some (Text raw) ->
     esp_c3_beacons_route f now answered = Throw SyntaxError)
  /\ (forall doc mac b,
        f = Some (Json doc) ->
        In (mac, b) (file_beacons f) ->
        name_testable (Beacon.name b) = false ->
        esp_c3_beacons_route f now answered = Throw TypeError).
Proof.
  split.
  - intros raw ->. reflexivity.
  - intros doc mac b -> Hin Hb. unfold esp_c3_beacons_route.
    rewrite parse_file_cases. cbn [bind].
    unfold file_beacons, document_of in Hin.
    rewrite (esp_loop_throw now _ []); [reflexivity|].
    exists (mac, b). now split.
Qed.

End Engine.

(** ** The engine on the sample inputs *)

(** Scenario A: R1 at t=1000, R2 at t=1500, ranked at now=2000 with the
    15 s threshold: R1 (-55), then R2 (-70). *)
Example scenario_A :
  let f := handle_all None [(report_R1, 1000, true); (report_R2, 1500, true)] in
  option_map
    (fun found =>
       map (fun r => (Receiver.deviceId r, Receiver.rssi r))
         (getValidReceivers utc_LocalTime plain_toLocaleString
            (Some (fst found)) 2000 STALE_TIME_THRESHOLD))
    (findBeacon (Some (document_of f)) (u "AA:BB"))
  = Some [(u "R1", VNum (Num (-55))); (u "R2", VNum (Num (-70)))].
Proof. vm_compute. reflexivity. Qed.

(** Scenario B: the same registry ranked at now=20000: both are stale. *)
Example scenario_B :
  let f := handle_all None [(report_R1, 1000, true); (report_R2, 1500, true)] in
  option_map
    (fun found =>
       getValidReceivers utc_LocalTime plain_toLocaleString
         (Some (fst found)) 20000 STALE_TIME_THRESHOLD)
    (findBeacon (Some (document_of f)) (u "AA:BB"))
  = Some [].
Proof. vm_compute. reflexivity. Qed.

(** Scenario D: an escaped name decodes to the text it stands for (the two
    code units U+4FE1 U+6807); an upper-case [\U] escape decodes to code
    unit 0. *)
Example scenario_D :
  decodeUnicode (VStr (u "ESP-\u4fe1\u6807")) =
  VStr (u "ESP-" ++ [20449; 26631]%N)
  /\ decodeUnicode (VStr (u "\U0041")) = VStr [0%N].
Proof. vm_compute. split; reflexivity. Qed.

(** Names of [Object.prototype] as keys: a receiver that calls itself
    [__proto__] leaves no record of itself and no detection, only the object
    it reported; a report about an object addressed [constructor] is
    dropped. *)
Example prototype_names :
  let f := handleBLEData None report_proto_receiver 1000 true in
  file_devices f = []
  /\ obj_has (file_beacons f) (u "AA:BB") = true
  /\ detection_ids f (u "AA:BB") = []
  /\ handleBLEData None report_constructor 1000 true = None.
Proof. vm_compute. repeat split. Qed.

Lemma file_wf_absent : file_wf None.
Proof.
  repeat split; try constructor. intros mac b [].
Defined.

Lemma report_R1_complete : report_complete report_R1.
Proof.
  intros b [<-|[]] _. split; [discriminate|reflexivity].
Defined.

Lemma file_complete_absent : file_complete None.
Proof.
  intros mac b [].
Defined.


Lemma staleness_boundary_witness :
  parseDetectionTime utc_LocalTime (Some detection_R1) = VNum (Num 1000)
  /\ isDetectionStale utc_LocalTime (Some detection_R1) 16000 15000 = false
  /\ isDetectionStale utc_LocalTime (Some detection_R1) 16001 15000 = true.
Proof.
  split; [reflexivity|]. split.
  - exact (proj1 (proj1 (staleness_boundary_inclusive utc_LocalTime
                           plain_toLocaleString detection_R1 1000 16000 15000
                           eq_refl) eq_refl)).
  - exact (proj1 (proj2 (staleness_boundary_inclusive utc_LocalTime
                           plain_toLocaleString detection_R1 1000 16001 15000
                           eq_refl) eq_refl)).
Defined.

Lemma sample_strengths_recorded :
  strengths_recorded utc_LocalTime (Some sample_beacon) 2000 15000.
Proof.
  intros id d [H|[H|[]]] _; injection H as _ <-; right.
  - now exists (-55).
  - now exists (-70).
Defined.

Lemma getValidReceivers_sorted_witness :
  strengths_recorded utc_LocalTime (Some sample_beacon) 2000 15000
  /\ StronglySorted stronger_first
       (getValidReceivers utc_LocalTime plain_toLocaleString
          (Some sample_beacon) 2000 15000).
Proof.
  split; [exact sample_strengths_recorded|].
  exact (proj1 (proj1 (proj2 (getValidReceivers_filtered_sorted_stable
                                utc_LocalTime plain_toLocaleString
                                (Some sample_beacon) 2000 15000))
                  sample_strengths_recorded)).
Defined.

Lemma sample_registry_wf : registry_wf sample_registry.
Proof.
  split; [|split].
  - constructor; [|constructor; [intros []|constructor]].
    intros [H|[]]. discriminate H.
  - constructor; [intros []|constructor].
  - intros mac b [H|[]]. injection H as _ <-.
    constructor; [|constructor; [intros []|constructor]].
    intros [H|[]]. discriminate H.
Defined.

Lemma sample_document_wf : file_wf (Some (Json sample_document)).
Proof. exact sample_registry_wf. Defined.


Lemma getValidReceivers_defaults_witness :
  In (u "R1", detection_unrated) (detections_of (Some faint_beacon))
  /\ passes_filter utc_LocalTime 2000 15000 detection_unrated = true
  /\ Receiver.rssi (ranked utc_LocalTime plain_toLocaleString
                      (u "R1", detection_unrated)) = VNum (Num (-100)).
Proof.
  split; [now left|]. split; [reflexivity|].
  exact (proj1 (proj2 (proj2 (getValidReceivers_defaults utc_LocalTime
                                plain_toLocaleString (Some faint_beacon)
                                2000 15000 (u "R1") detection_unrated
                                (or_introl eq_refl) eq_refl)))).
Defined.

Lemma handleBLEData_upserts_receiver_witness :
  truthy (Event.device_id report_R1) = true
  /\ ToString (Event.device_id report_R1) <> proto_key
  /\ beacons_of report_R1 <> []
  /\ report_complete report_R1
  /\ file_complete None
  /\ file_ordinary None = true
  /\ exists d,
       file_device (handleBLEData None report_R1 1000 true) (u "R1") = Some d
       /\ Device.name d = VStr (u "R1")
       /\ Device.update d = VNum (Num 1000).
Proof.
  assert (Hne : beacons_of report_R1 <> []) by discriminate.
  assert (Hdev : ToString (Event.device_id report_R1) <> proto_key)
    by discriminate.
  split; [reflexivity|]. split; [exact Hdev|]. split; [exact Hne|].
  split; [exact report_R1_complete|]. split; [exact file_complete_absent|].
  split; [reflexivity|].
  destruct (proj1 (handleBLEData_upserts_receiver None report_R1 1000)
              eq_refl Hdev Hne report_R1_complete file_complete_absent eq_refl)
    as (d & Hd & Hname & _ & Hupdate & _).
  exists d. split; [exact Hd|]. split; [exact Hname|exact Hupdate].
Defined.

Lemma report_structured_complete : report_complete report_structured.
Proof.
  intros b [<-|[]] _. split; [discriminate|reflexivity].
Defined.

Lemma handleBLEData_stores_normalized_rssi_witness :
  exists d,
    file_detection (handleBLEData None report_structured 1000 true)
      (u "AA:BB") (u "R1") = Some d
    /\ Detection.rssi d = VNum (Num (-60)).
Proof.
  pose proof (handleBLEData_stores_normalized_rssi report_structured 1000
                entry_structured
                [(u "average", VNum (Num (-60)));
                 (u "current", VNum (Num (-58)))]
                eq_refl eq_refl) as H.
  cbv zeta in H. destruct H as (_ & _ & H).
  assert (Hdev : ToString (Event.device_id report_structured) <> proto_key)
    by discriminate.
  destruct (H None eq_refl Hdev report_structured_complete
              file_complete_absent eq_refl eq_refl)
    as (d & Hd & Hr & _).
  exists d. split; [exact Hd|exact Hr].
Defined.

(** Against C3 as stated: a report that names its receiver and lists no
    object leaves no receiver record behind. *)
Lemma empty_report_upserts_nothing :
  truthy (Event.device_id report_empty) = true
  /\ handleBLEData None report_empty 1000 true = None
  /\ file_device (handleBLEData None report_empty 1000 true) (u "R1") = None.
Proof. vm_compute. repeat split. Qed.

(** Against C4 as stated: the query equals the address of the second object
    and the name of the first; the first is returned. *)
Lemma findBeacon_name_match_shadows_address :
  option_map snd (findBeacon (Some shadow_document) (u "22:22"))
  = Some (u "11:11")
  /\ obj_has (beacons_of_document shadow_document) (u "22:22") = true.
Proof. vm_compute. split; reflexivity. Qed.

(** Against C5 as stated: a structure that offers neither reading, or whose
    readings are both 0, is stored as it is, not as a number. *)
Lemma structure_without_readings_stored :
  option_map Detection.rssi
    (file_detection (handleBLEData None report_bare 1000 true)
       (u "AA:BB") (u "R1"))
  = Some (VObj [])
  /\ option_map Detection.rssi
       (file_detection (handleBLEData None report_zero 1000 true)
          (u "AA:BB") (u "R1"))
     = Some (VObj [(u "average", VNum (Num 0)); (u "current", VNum (Num 0))]).
Proof. vm_compute. split; reflexivity. Qed.

(** Against C10 as stated: the detection with no recorded strength ranks
    first, above the one recorded at -120 dBm. *)
Lemma unrated_detection_outranks_weaker :
  map (fun r => (Receiver.deviceId r, Receiver.rssi r))
    (getValidReceivers utc_LocalTime plain_toLocaleString (Some faint_beacon)
       2000 15000)
  = [(u "R1", VNum (Num (-100))); (u "R2", VNum (Num (-120)))].
Proof. vm_compute. reflexivity. Qed.

(** Against C7 as stated: the structure stored as a signal strength compares
    as NaN with every number, so the detection at -50 dBm stays behind the
    one at -70 dBm. *)
Lemma nonnumeric_strength_breaks_order :
  map (fun r => (Receiver.deviceId r, Receiver.rssi r))
    (getValidReceivers utc_LocalTime plain_toLocaleString (Some mixed_beacon)
       2000 15000)
  = [(u "R1", VNum (Num (-70))); (u "R2", VObj []);
     (u "R3", VNum (Num (-50)))].
Proof. vm_compute. reflexivity. Qed.


(** ** The further properties on the sample inputs *)

Lemma decodeUnicode_plain_text_witness :
  existsb (N.eqb 92) (u "ESP-C3-1") = false
  /\ decodeUnicode (VStr (u "ESP-C3-1")) = VStr (u "ESP-C3-1").
Proof.
  split; [reflexivity|].
  exact (decodeUnicode_plain_text (u "ESP-C3-1") eq_refl).
Defined.

Lemma sample_code_units : Forall (fun c => (c < 65536)%N) [20449; 26631]%N.
Proof. repeat constructor. Defined.

Lemma decodeUnicode_escape_round_trip_witness :
  escape [20449; 26631]%N = u "\u4fe1\u6807"
  /\ decodeUnicode (VStr (u "\u4fe1\u6807")) = VStr [20449; 26631]%N.
Proof.
  split; [reflexivity|].
  exact (proj2 (decodeUnicode_escape_round_trip [20449; 26631]%N
                  sample_code_units)).
Defined.

Lemma getBeaconDisplayName_numbered_witness :
  getBeaconDisplayName (VStr (u "ESP-C3-12-A"))
  = Ok (VStr (u "12" ++ display_suffix)).
Proof.
  exact (getBeaconDisplayName_numbered (u "12") (u "-A") eq_refl eq_refl).
Defined.

Lemma valid_ids_monotone_witness :
  In (u "R1")
    (valid_ids utc_LocalTime plain_toLocaleString (Some sample_beacon) 2000
       15000)
  /\ In (u "R1")
       (valid_ids utc_LocalTime plain_toLocaleString (Some sample_beacon) 1500
          20000).
Proof.
  assert (H : In (u "R1")
                (valid_ids utc_LocalTime plain_toLocaleString
                   (Some sample_beacon) 2000 15000)) by (now left).
  split; [exact H|].
  apply (valid_ids_monotone utc_LocalTime plain_toLocaleString
           (Some sample_beacon) 2000 1500 15000 20000 (u "R1"));
    [lia|lia|exact H].
Defined.

Lemma parseDetectionTime_legacy_text_witness :
  parseDetectionTime utc_LocalTime (Some detection_legacy)
  = VNum (utc_LocalTime 2025 10 7 20 32 15).
Proof.
  exact (parseDetectionTime_legacy_text utc_LocalTime detection_legacy
           (u "2025") (u "11") (u "7") (u "20") (u "32") (u "15")
           eq_refl eq_refl eq_refl eq_refl eq_refl eq_refl eq_refl eq_refl).
Defined.

Lemma parseDetectionTime_text_witness :
  exists n, parseDetectionTime utc_LocalTime (Some detection_legacy) = VNum n.
Proof.
  exact (proj2 (proj2 (parseDetectionTime_text utc_LocalTime detection_legacy
                         eq_refl eq_refl)
                  (u "2025/11/7 20:32:15") eq_refl) eq_refl).
Defined.

Lemma sample_beacon_wf : detections_wf sample_beacon.
Proof.
  constructor; [|constructor; [intros []|constructor]].
  intros [H|[]]. discriminate H.
Defined.

Lemma valid_ids_distinct_witness :
  detections_wf sample_beacon
  /\ NoDup (valid_ids utc_LocalTime plain_toLocaleString (Some sample_beacon)
              2000 15000).
Proof.
  split; [exact sample_beacon_wf|].
  exact (proj1 (valid_ids_distinct utc_LocalTime plain_toLocaleString
                  sample_beacon 2000 15000 sample_beacon_wf)).
Defined.

Lemma kb_receivers_route_fresh_witness :
  exists reply r,
    kb_receivers_route utc_LocalTime plain_toLocaleString
      (Some (Json sample_document)) (u "AA:BB") 5000 = Ok (Reply reply)
    /\ In r (KbReceivers.receivers reply)
    /\ exists seen, VisitorReceiver.timeDiff r = Num (5000 - seen)
                    /\ 5000 - seen <= 15000.
Proof.
  eexists. eexists. split; [reflexivity|]. split; [left; reflexivity|].
  destruct (kb_receivers_route_fresh utc_LocalTime plain_toLocaleString
              (Some (Json sample_document)) (u "AA:BB") 5000 _ _
              eq_refl (or_introl eq_refl))
    as (seen & _ & _ & H1 & H2).
  exists seen. split; [exact H1|exact H2].
Defined.

Lemma ble_status_route_counts_witness :
  ble_status_route (Some (Json sample_document)) 5000
  = Ok (Reply (Status.mk 2 2 1 1 ACTIVE_WINDOW 5000))
  /\ Status.beacons_active (Status.mk 2 2 1 1 ACTIVE_WINDOW 5000)
     = List.length
         (filter (beacon_active 5000)
            (map snd (file_beacons (Some (Json sample_document))))).
Proof.
  split; [reflexivity|].
  exact (proj1 (proj2 (proj2 (proj2
           (ble_status_route_counts (Some (Json sample_document)) 5000
              (Status.mk 2 2 1 1 ACTIVE_WINDOW 5000) eq_refl))))).
Defined.

Lemma sweep_twice_witness :
  registry_wf sample_registry
  /\ fst (sweep 1900000 (fst (sweep 1801001 sample_registry)))
     = fst (sweep 1900000 sample_registry).
Proof.
  split; [exact sample_registry_wf|].
  exact (proj1 (sweep_twice 1801001 1900000 sample_registry sample_registry_wf
                  ltac:(lia))).
Defined.

Lemma statistics_matches_status_witness :
  ACTIVE_WINDOW < 11200
  /\ Statistics.activeBeacons (statistics sample_registry 11200)
     = count_active_beacons 11200 (Registry.beacons sample_registry).
Proof.
  split; [reflexivity|].
  exact (proj2 (statistics_matches_status sample_registry 11200 eq_refl)).
Defined.

Lemma report_then_lookup_witness :
  exists reply,
    kb_receivers_route utc_LocalTime plain_toLocaleString
      (handleBLEData None report_R1 1000 true) (u "AA:BB") 2000
    = Ok (Reply reply)
    /\ In (u "R1") (map VisitorReceiver.deviceId (KbReceivers.receivers reply)).
Proof.
  destruct (report_then_lookup utc_LocalTime plain_toLocaleString None
              report_R1 1000 2000
              (BeaconReport.mk (VStr (u "AA:BB")) (VStr (u "X"))
                 (VNum (Num (-55))) (VBool true))
              (u "AA:BB") file_wf_absent eq_refl eq_refl
              ltac:(discriminate) report_R1_complete
              file_complete_absent eq_refl ltac:(discriminate))
    as (reply & H1 & H2).
  exists reply. split; [exact H1|]. apply H2; [|lia].
  vm_compute in H1. now injection H1 as <-.
Defined.

Lemma report_then_status_witness :
  exists st,
    ble_status_route (handleBLEData None report_R1 1000 true) 5000
    = Ok (Reply st)
    /\ (1 <= Status.receivers_active st)%nat
    /\ (1 <= Status.beacons_active st)%nat.
Proof.
  destruct (report_then_status None report_R1 1000 5000
              (BeaconReport.mk (VStr (u "AA:BB")) (VStr (u "X"))
                 (VNum (Num (-55))) (VBool true))
              (u "AA:BB") eq_refl eq_refl ltac:(discriminate)
              report_R1_complete file_complete_absent
              eq_refl ltac:(unfold ACTIVE_WINDOW; lia))
    as (st & H1 & H2 & H3).
  exists st. split; [exact H1|]. split; [exact H2|exact (H3 eq_refl)].
Defined.

Lemma ble_data_route_view_witness :
  file_wf (Some (Json sample_document))
  /\ exists p,
       ble_data_route plain_toLocaleString (Some (Json sample_document)) 5000
       = Ok (Reply p)
       /\ exists v,
            obj_get (DataPayload.devices p) (u "R1") = Some v
            /\ Device.name v = VStr (u "R1")
            /\ Device.update v = VNum (Num 1000).
Proof.
  split; [exact sample_document_wf|].
  pose proof (ble_data_route_view plain_toLocaleString sample_document 5000
                sample_document_wf) as H.
  cbv zeta in H. destruct H as [_ H].
  assert (Hne : file_devices (Some (Json sample_document)) <> []
                \/ file_beacons (Some (Json sample_document)) <> []).
  { left. discriminate. }
  destruct (H Hne) as (p & H1 & _ & _ & H2 & _).
  exists p. split; [exact H1|].
  assert (Hid : u "R1" <> proto_key) by discriminate.
  specialize (H2 (u "R1") Hid).
  change (file_device (Some (Json sample_document)) (u "R1"))
    with (Some device_R1) in H2.
  destruct (obj_get (DataPayload.devices p) (u "R1")) as [v|]; [|destruct H2].
  destruct H2 as (Hn & _ & Hu & _). exists v.
  split; [reflexivity|]. split; [exact Hn|exact Hu].
Defined.

Lemma handleBLEData_keeps_others_witness :
  file_ordinary (Some (Json sample_document)) = true
  /\ file_device
       (handleBLEData (Some (Json sample_document)) report_R1 5000 true)
       (u "R2") <> None.
Proof.
  split; [reflexivity|].
  pose proof (handleBLEData_keeps_others (Some (Json sample_document))
                report_R1 5000 true (u "AA:BB") (u "R2") eq_refl) as H.
  cbv zeta in H. destruct H as [H _]. apply H. discriminate.
Defined.

Lemma handleBLEData_first_seen_witness :
  file_ordinary (Some (Json sample_document)) = true
  /\ exists b',
       obj_get
         (file_beacons
            (handleBLEData (Some (Json sample_document)) report_R1 5000 true))
         (u "AA:BB") = Some b'
       /\ Beacon.first_seen b' = VNum (Num 1000).
Proof.
  split; [reflexivity|].
  destruct (proj1 (handleBLEData_first_seen (Some (Json sample_document))
                     report_R1 5000 (u "AA:BB") eq_refl)
              true sample_beacon eq_refl)
    as (b' & Hb' & Hf).
  exists b'. split; [exact Hb'|]. destruct Hf as [Hf|Hf]; exact Hf.
Defined.


Lemma save_load_round_trip_witness :
  plain_registry sample_registry = true
  /\ loadData (fst (saveData None sample_registry true)) = Ok sample_registry.
Proof.
  split; [reflexivity|].
  exact (proj2 (save_load_round_trip None sample_registry eq_refl)).
Defined.

Lemma esp_c3_beacons_route_lists_witness :
  exists p,
    esp_c3_beacons_route utc_LocalTime plain_toLocaleString
      (Some (Json esp_document)) 5000 5001 = Ok (Reply p)
    /\ In (u "C3:01") (map EspBeacon.mac (EspPayload.data p)).
Proof.
  eexists. split; [reflexivity|].
  apply (proj1 (esp_c3_beacons_route_lists utc_LocalTime plain_toLocaleString
                  (Some (Json esp_document)) 5000 5001 _ eq_refl)).
  eexists. split; [left; reflexivity|reflexivity].
Defined.
